(** * ti4-map-generator: slices of a Twilight Imperium map

    A shallow embedding of [src/ti4_map_generator/map_generation.py] and
    the properties its specification states about it.

    Conventions of the embedding.
    - Python integers are [Z].  The loader turns the resources and the
      influence of every planet row into [int], so every value held by a
      [Tile] or a [Slice] is an integer.
    - Python floats are the numbers of the binary64 format ([Float.t]):
      the rationals with 53 significant bits, the two infinities and
      NaN.  An operation on floats returns its exact result rounded to
      the nearest float, ties to even.  The product [1.5 * n] converts
      the integer [n] first; the quotient [n / m] of two integers is
      their exact quotient rounded once.  Both raise [OverflowError]
      past the range of the floats.  A field that may hold an [int] or
      a [float], as the fields of [Planet] do, is a [num].
    - An exception is a value of [exn]; a computation returns an
      [outcome].  The two [while True] loops take a bound on the number of
      iterations and return [Diverge] when it is used up.
    - The process-wide random source is a [Random] value passed from call
      to call.
    - A Python list is a list; [l !! i] reads a position and
      [<[i := x]> l] writes one.  A slice object reached through two
      names of the same list cell is one cell here: every method call on
      [slices[i]] rewrites position [i] of the list. *)

From Stdlib Require Import ZArith QArith Qpower Qround Qabs Qcanon Lqa.
From Stdlib Require Import String Ascii Sorted SpecFloat.
From stdpp Require Import base list strings gmap.

Local Open Scope Z_scope.

(** ** Exceptions and outcomes *)

Inductive exn : Type :=
| NotImplementedError
| IndexError
| ZeroDivisionError
| OverflowError
| AttributeError
| ValueError.

Inductive outcome (A : Type) : Type :=
| Ok (a : A)
| Raise (e : exn)
| Diverge.

Arguments Ok {A} a.
Arguments Raise {A} e.
Arguments Diverge {A}.

#[global] Instance outcome_ret : MRet outcome := fun A a => Ok a.

#[global] Instance outcome_bind : MBind outcome := fun A B k m =>
  match m with
  | Ok a => k a
  | Raise e => Raise e
  | Diverge => Diverge
  end.

(** [finished o]: the run ended, with a value or with an exception. *)
Definition finished {A : Type} (o : outcome A) : Prop :=
  match o with
  | Diverge => False
  | _ => True
  end.

(** ** Floats

    A finite float is the rational number it stands for; the two zeros
    of the format are one value, which the program cannot tell apart
    since it only multiplies, divides and compares its floats. *)

Module Float.

Inductive t : Type :=
| Finite (q : Q)
| Infinity (negative : bool)
| NaN.

Definition pow2 (e : Z) : Q := Qpower 2 e.

(** For [0 < q], the exponent [e] with [2^e <= q < 2^(e+1)]: the
    difference of the bit lengths of numerator and denominator, or one
    less. *)
Definition ilog2 (q : Q) : Z :=
  let e := Z.log2 (Qnum q) - Z.log2 (Zpos (Qden q)) in
  if Qle_bool (pow2 e) q then e else e - 1.

(** The integer nearest to [q]; half-way between two integers, the even
    one. *)
Definition round_half_even (q : Q) : Z :=
  let f := Qfloor q in
  match (q - inject_Z f ?= 1 # 2)%Q with
  | Lt => f
  | Gt => f + 1
  | Eq => if Z.even f then f else f + 1
  end.

(** The exponent of the last of the 53 bits of a float near [q]; it is
    never below that of the least subnormal float, [2^-1074]. *)
Definition ulp_exponent (q : Q) : Z := Z.max (ilog2 (Qabs q) - 52) (-1074).

(** The multiple of [2^ulp_exponent] nearest to [q]. *)
Definition nearest (q : Q) : Q :=
  if Qeq_bool q 0 then 0%Q
  else
    let u := ulp_exponent q in
    Qred (inject_Z (round_half_even (q / pow2 u)) * pow2 u).

(** The greatest float, [(2^53 - 1) * 2^971]. *)
Definition max_float : Q := inject_Z (2 ^ 1024 - 2 ^ 971).

Definition negative (q : Q) : bool := negb (Qle_bool 0 q).

(** The float that an operation returns when [q] is its exact result. *)
Definition round (q : Q) : t :=
  let r := nearest q in
  if Qle_bool (Qabs r) max_float then Finite r else Infinity (negative q).

(** [float(z)], also the conversion of an [int] operand of a float
    operation. *)
Definition of_int (z : Z) : outcome t :=
  match round (inject_Z z) with
  | Finite q => Ok (Finite q)
  | _ => Raise OverflowError
  end.

(** [a / b] on two [int]: the exact quotient, rounded once. *)
Definition int_truediv (a b : Z) : outcome t :=
  if b =? 0 then Raise ZeroDivisionError
  else match round (inject_Z a / inject_Z b) with
       | Finite q => Ok (Finite q)
       | _ => Raise OverflowError
       end.

(** [x * y] on two [float]. *)
Definition mul (x y : t) : t :=
  match x, y with
  | NaN, _ | _, NaN => NaN
  | Finite a, Finite b => round (a * b)
  | Infinity s, Finite b | Finite b, Infinity s =>
      if Qeq_bool b 0 then NaN else Infinity (xorb s (negative b))
  | Infinity s, Infinity s' => Infinity (xorb s s')
  end.

(** [x / y] on two [float]. *)
Definition truediv (x y : t) : outcome t :=
  match x, y with
  | _, Finite b =>
      if Qeq_bool b 0 then Raise ZeroDivisionError
      else match x with
           | Finite a => Ok (round (a / b))
           | Infinity s => Ok (Infinity (xorb s (negative b)))
           | NaN => Ok NaN
           end
  | Finite _, Infinity _ => Ok (Finite 0)
  | _, _ => Ok NaN
  end.

(** [x <= y] and [x < y]; a comparison with NaN is false. *)
Definition le (x y : t) : bool :=
  match x, y with
  | NaN, _ | _, NaN => false
  | Finite a, Finite b => Qle_bool a b
  | Infinity true, _ => true
  | _, Infinity false => true
  | _, _ => false
  end.

Definition lt (x y : t) : bool :=
  match x, y with
  | NaN, _ | _, NaN => false
  | _, _ => negb (le y x)
  end.

End Float.

(** ** Numbers

    A value that is an [int] or a [float].  Python compares an [int]
    with a [float] by their exact values; arithmetic between the two
    converts the [int]. *)

Inductive num : Type :=
| Int (z : Z)
| Flt (f : Float.t).

Module Num.

(** The value of a number, exactly. *)
Definition exact (x : num) : Float.t :=
  match x with
  | Int z => Float.Finite (inject_Z z)
  | Flt f => f
  end.

(** [x >= y]. *)
Definition ge (x y : num) : bool := Float.le (exact y) (exact x).

(** [2 * x]. *)
Definition double (x : num) : num :=
  match x with
  | Int z => Int (2 * z)
  | Flt f => Flt (Float.mul (Float.Finite 2) f)
  end.

(** [x / 2]. *)
Definition half (x : num) : outcome num :=
  match x with
  | Int z => f ← Float.int_truediv z 2; Ok (Flt f)
  | Flt f => f' ← Float.truediv f (Float.Finite 2); Ok (Flt f')
  end.

End Num.

(** ** The random source

    The generator is the sequence of raw numbers it will deliver and the
    number of those already delivered.  Seeding fixes both. *)

Record Random : Type := mkRandom {
  draws : nat -> nat;
  cursor : nat
}.

(** [random._randbelow(n)], for [n > 0]. *)
Definition randbelow (n : nat) (g : Random) : nat * Random :=
  (draws g (cursor g) mod n, mkRandom (draws g) (S (cursor g)))%nat.

(** [random.randint(a, b)]: [a + randbelow(b - a + 1)]; an empty range
    raises [ValueError]. *)
Definition randint (a b : Z) (g : Random) : outcome (Z * Random) :=
  if b - a + 1 <=? 0 then Raise ValueError
  else let '(r, g') := randbelow (Z.to_nat (b - a + 1)) g in
       Ok (a + Z.of_nat r, g').

(** [x[i], x[j] = x[j], x[i]].  Both positions exist wherever the
    program swaps; outside the list nothing is written. *)
Definition swap {A : Type} (x : list A) (i j : nat) : list A :=
  match x !! i, x !! j with
  | Some xi, Some xj => <[j := xi]> (<[i := xj]> x)
  | _, _ => x
  end.

(** The loop of [random.shuffle]:
    [for i in reversed(range(1, len(x))): j = randbelow(i + 1); swap]. *)
Fixpoint shuffle_from {A : Type} (i : nat) (x : list A) (g : Random)
  : list A * Random :=
  match i with
  | O => (x, g)
  | S i' =>
      let '(j, g') := randbelow (S i) g in
      shuffle_from i' (swap x i j) g'
  end.

Definition shuffle {A : Type} (x : list A) (g : Random) : list A * Random :=
  shuffle_from (length x - 1) x g.

(** ** Sorting

    [list.sort] is stable and compares with [<] only; with
    [reverse=True] it stays stable.  [sort_by before] is the stable sort
    in which an element [y] overtakes an element [x] that came earlier
    only when [before y x]: [before] is [<] for an ascending sort and
    [>] for a descending one. *)

Fixpoint insert_by {A : Type} (before : A -> A -> bool) (x : A) (l : list A)
  : list A :=
  match l with
  | [] => [x]
  | y :: l' => if before y x then y :: insert_by before x l' else x :: l
  end.

Fixpoint sort_by {A : Type} (before : A -> A -> bool) (l : list A) : list A :=
  match l with
  | [] => []
  | x :: l' => insert_by before x (sort_by before l')
  end.

(** [l.pop(0)]. *)
Definition pop0 {A : Type} (l : list A) : outcome (A * list A) :=
  match l with
  | [] => Raise IndexError
  | x :: l' => Ok (x, l')
  end.

(** [for idx, x in enumerate(l): if p(x): return l.pop(idx)]: the first
    element satisfying [p] leaves the list; [None] when there is none. *)
Fixpoint pop_first {A : Type} (p : A -> bool) (l : list A)
  : option A * list A :=
  match l with
  | [] => (None, [])
  | x :: l' =>
      if p x then (Some x, l')
      else let '(r, l'') := pop_first p l' in (r, x :: l'')
  end.

(** ** Planet *)

Module Planet.

(** The fields [resources] and [influence] are declared [float]; the
    dataclass stores what it is given, an [int] or a [float]. *)
Record t : Type := mk {
  name : string;
  resources : num;
  influence : num;
  technology : string;
  type_ : string
}.

(** [Planet.__post_init__], run by the dataclass on the raw fields. *)
Definition post_init (p : t) : outcome t :=
  if Num.ge (resources p) (Num.double (influence p)) then
    Ok (mk (name p) (resources p) (Int 0) (technology p) (type_ p))
  else if Num.ge (influence p) (Num.double (resources p)) then
    Ok (mk (name p) (Int 0) (influence p) (technology p) (type_ p))
  else
    r ← Num.half (resources p);
    i ← Num.half (influence p);
    Ok (mk (name p) r i (technology p) (type_ p)).

(** The constructor call [Planet(name, resources, influence, ...)]. *)
Definition new (n : string) (r i : num) (tech ty : string) : outcome t :=
  post_init (mk n r i tech ty).

End Planet.

(** ** Tile *)

Module Tile.

(** A row of the planet table as the loader passes it to [Tile]: the
    tile subscripts its planets ([planet['resources']]), and the loader
    has made resources and influence [int] and technology a string. *)
Record planet_row : Type := mk_row {
  row_name : string;
  row_resources : Z;
  row_influence : Z;
  row_technology : string;
  row_type : string
}.

Record t : Type := mk {
  id_ : Z;
  color : string;
  planets : list planet_row;
  anomalies : option (list string);
  resources : Z;
  influence : Z;
  technology : string;
  type_ : string;
  wormholes : string;
  absolute_value : Z
}.

(** One round of [for planet in self.planets]. *)
Definition add_planet (acc : Z * Z * string) (p : planet_row)
  : Z * Z * string :=
  let '(r, i, tech) := acc in
  (r + row_resources p, i + row_influence p, tech +:+ row_technology p).

(** [anomaly[-1]] as a string.  It is only evaluated on a string that
    starts with [Wormhole], which has a last character. *)
Definition last_char (s : string) : string :=
  match last (list_ascii_of_string s) with
  | Some c => String c EmptyString
  | None => EmptyString
  end.

(** One round of [for anomaly in self.anomalies]. *)
Definition add_anomaly (w : string) (anomaly : string) : string :=
  if String.prefix "Wormhole" anomaly then w +:+ last_char anomaly else w.

(** [len(set(s))]. *)
Definition len_set (s : string) : nat :=
  length (remove_dups (list_ascii_of_string s)).

(** The last lines of [__post_init__]: the bonus of a tile whose
    wormholes are all different. *)
Definition wormhole_bonus (w : string) : Z :=
  if (String.length w =? 0)%nat then 0
  else if Z.of_nat (String.length w) - Z.of_nat (len_set w) =? 0 then 1
  else 0.

(** [Tile(id_, color, planets, anomalies)]: the dataclass stores the
    four fields and [__post_init__] derives the others.  [anomalies] is
    [None] when the tile record has none; [if self.anomalies] skips both
    [None] and the empty list. *)
Definition post_init (id : Z) (c : string) (ps : list planet_row)
  (ans : option (list string)) : t :=
  let '(r, i, tech) := fold_left add_planet ps (0, 0, EmptyString) in
  let w := match ans with
           | Some l => fold_left add_anomaly l EmptyString
           | None => EmptyString
           end in
  mk id c ps ans r i tech EmptyString w
     (0 + r + i + 2 * Z.of_nat (String.length tech) + wormhole_bonus w).

(** [__lt__] and [__eq__]; [total_ordering] derives [__gt__] from them
    as [not (a < b) and a != b]. *)
Definition lt (a b : t) : bool := absolute_value a <? absolute_value b.
Definition eq (a b : t) : bool := absolute_value a =? absolute_value b.
Definition gt (a b : t) : bool := negb (lt a b) && negb (eq a b).

(** [tile.color == c]. *)
Definition has_color (c : string) (x : t) : bool := String.eqb (color x) c.

(** The truth value of [tile.anomalies]. *)
Definition has_anomalies (x : t) : bool :=
  match anomalies x with
  | Some (_ :: _) => true
  | _ => false
  end.

End Tile.

(** ** Slice *)

Module Slice.

Record t : Type := mk {
  tiles : list Tile.t;
  resources : Z;
  influence : Z;
  technology : string;
  wormholes : string;
  absolute_value : Z
}.

Definition with_tiles (s : t) (l : list Tile.t) : t :=
  mk l (resources s) (influence s) (technology s) (wormholes s)
     (absolute_value s).

(** One round of [for tile in self.tiles] in [update_values]. *)
Definition add_tile (s : t) (x : Tile.t) : t :=
  mk (tiles s)
     (resources s + Tile.resources x)
     (influence s + Tile.influence x)
     (technology s +:+ Tile.technology x)
     (wormholes s +:+ Tile.wormholes x)
     (absolute_value s + Tile.absolute_value x).

Definition update_values (s : t) : t :=
  fold_left add_tile (tiles s)
    (mk (tiles s) 0 0 EmptyString EmptyString 0).

(** [Slice(tiles)]. *)
Definition init (l : list Tile.t) : t :=
  update_values (mk l 0 0 EmptyString EmptyString 0).

Definition lt (a b : t) : bool := absolute_value a <? absolute_value b.
Definition eq (a b : t) : bool := absolute_value a =? absolute_value b.
Definition gt (a b : t) : bool := negb (lt a b) && negb (eq a b).

Definition is_slice_unbalanced (s : t) : bool :=
  if 2 * influence s <=? resources s then true
  else if 2 * resources s <=? influence s then true
  else false.

(** [self.tiles.sort(reverse=True)], then the first tile of the colour
    is popped.  Nothing else of the slice is touched. *)
Definition remove_best_tile (c : string) (s : t) : option Tile.t * t :=
  let sorted := sort_by (fun y x => Tile.lt x y) (tiles s) in
  let '(r, l) := pop_first (Tile.has_color c) sorted in
  (r, with_tiles s l).

(** [self.tiles.sort()], then the first tile of the colour is popped. *)
Definition remove_worst_tile (c : string) (s : t) : option Tile.t * t :=
  let sorted := sort_by Tile.lt (tiles s) in
  let '(r, l) := pop_first (Tile.has_color c) sorted in
  (r, with_tiles s l).

Definition remove_excessive_tile (s : t) : outcome (Tile.t * t) :=
  let comparator :=
    if resources s >? influence s then Tile.resources else Tile.influence in
  let sorted :=
    sort_by (fun y x => comparator x <? comparator y) (tiles s) in
  '(x, l) ← pop0 sorted;
  Ok (x, with_tiles s l).

Definition add (x : Tile.t) (s : t) : t :=
  update_values (with_tiles s (tiles s ++ [x])).

(** [filter_tiles(color)] over a tile list: a tile is skipped when
    [color] is truthy and differs from the tile's. *)
Definition filter_tiles (c : option string) (l : list Tile.t) : list Tile.t :=
  List.filter
    (fun x =>
       match c with
       | Some c' =>
           negb (negb (String.length c' =? 0)%nat
                 && negb (String.eqb (Tile.color x) c'))
       | None => true
       end) l.

(** The helper [adjacent] of [place_tiles]; nothing calls it. *)
Definition adjacent (pos_a pos_b : Z) : bool :=
  (pos_a =? 0) || (pos_b =? 0)
  || ((pos_a + 1) mod 6 =? pos_b) || ((pos_b + 1) mod 6 =? pos_a).

(** [l.insert(i, x)] for [0 <= i]. *)
Definition insert_at {A : Type} (i : nat) (x : A) (l : list A) : list A :=
  take i l ++ x :: drop i l.

(** The state of the two placement loops: the slots filled so far, the
    positions not yet allocated, and the random source. *)
Definition placing : Type := list (option Tile.t) * list nat * Random.

(** [result[non_allocated.pop(0)] = tile].  The positions are among 0,
    1, 3, 5 and 6, all inside the seven slots. *)
Definition put (x : Tile.t) (st : placing) : outcome placing :=
  let '(result, non_allocated, g) := st in
  '(pos, rest) ← pop0 non_allocated;
  Ok (<[pos := Some x]> result, rest, g).

(** One round of the loop over the blue tiles, [i] being the index that
    [enumerate] gives. *)
Definition put_blue (multiple_anomalies : bool) (i : nat) (x : Tile.t)
  (st : placing) : outcome placing :=
  let '(result, non_allocated, g) := st in
  if (i =? 0)%nat && multiple_anomalies then
    put x (result, insert_at 0 0%nat non_allocated, g)
  else if (i =? 0)%nat then
    '(k, g') ← randint 0 (Z.of_nat (length non_allocated) - 1) g;
    put x (result, insert_at (Z.to_nat k) 0%nat non_allocated, g')
  else put x st.

Fixpoint blue_loop (multiple_anomalies : bool) (i : nat) (l : list Tile.t)
  (st : placing) : outcome placing :=
  match l with
  | [] => Ok st
  | x :: l' =>
      st' ← put_blue multiple_anomalies i x st;
      blue_loop multiple_anomalies (S i) l' st'
  end.

Fixpoint red_loop (l : list Tile.t) (st : placing) : outcome placing :=
  match l with
  | [] => Ok st
  | x :: l' => st' ← put x st; red_loop l' st'
  end.

(** [place_tiles]: the seven slots it returns (and stores in
    [self.tiles]) and the random source afterwards. *)
Definition place_tiles (s : t) (g : Random)
  : outcome (list (option Tile.t) * Random) :=
  let '(ts, g1) := shuffle (tiles s) g in
  let result := replicate 7 None in
  let '(non_allocated, g2) := shuffle [1; 3; 5; 6]%nat g1 in
  let multiple_anomalies :=
    (1 <? length (List.filter Tile.has_anomalies ts))%nat in
  st ← blue_loop multiple_anomalies 0 (filter_tiles (Some "blue"%string) ts)
         (result, non_allocated, g2);
  '(result', _, g3) ← red_loop (filter_tiles (Some "red"%string) ts) st;
  Ok (result', g3).

End Slice.

(** ** Drawing the pool and building the slices *)

(** The [while True] loop of [draw_all_tiles]: the head of the list is
    popped; a red tile goes back to the end, any other tile ends the
    loop and is left out. *)
Fixpoint exclude_tile (fuel : nat) (tiles : list Tile.t)
  : outcome (list Tile.t) :=
  match fuel with
  | O => Diverge
  | S fuel' =>
      '(x, rest) ← pop0 tiles;
      if String.eqb (Tile.color x) "red" then exclude_tile fuel' (rest ++ [x])
      else Ok rest
  end.

Definition draw_all_tiles (fuel : nat) (tiles : list Tile.t) (players : Z)
  (g : Random) : outcome (list Tile.t * Random) :=
  if negb (players =? 6) then Raise NotImplementedError
  else
    let '(shuffled, g') := shuffle tiles g in
    pool ← exclude_tile fuel shuffled;
    Ok (pool, g').

(** [n] times [acc.append(l.pop(0))]. *)
Fixpoint pop_n {A : Type} (n : nat) (acc l : list A)
  : outcome (list A * list A) :=
  match n with
  | O => Ok (acc, l)
  | S n' => '(x, l') ← pop0 l; pop_n n' (acc ++ [x]) l'
  end.

(** The loop [for i in range(k)] of [generate_slices]. *)
Fixpoint deal (k : nat) (slices : list Slice.t) (red_tiles blue_tiles :
  list Tile.t) : outcome (list Slice.t) :=
  match k with
  | O => Ok slices
  | S k' =>
      '(two, red') ← pop_n 2 [] red_tiles;
      '(slice_tiles, blue') ← pop_n 3 two blue_tiles;
      deal k' (slices ++ [Slice.init slice_tiles]) red' blue'
  end.

Definition generate_slices (tiles : list Tile.t) (k : Z) (g : Random)
  : outcome (list Slice.t * Random) :=
  if negb (k =? 6) then Raise NotImplementedError
  else
    let '(red_tiles, g1) :=
      shuffle (List.filter (Tile.has_color "red") tiles) g in
    let '(blue_tiles, g2) :=
      shuffle (List.filter (Tile.has_color "blue") tiles) g1 in
    slices ← deal (Z.to_nat k) [] red_tiles blue_tiles;
    Ok (slices, g2).

(** ** Checking the balance *)

(** [max(l)] and [min(l)] of Python: the first element is the
    candidate, a later one replaces it when it compares greater (for
    [max]) or less (for [min]); an empty argument raises [ValueError]. *)
Definition py_max {A : Type} (gt : A -> A -> bool) (l : list A) : outcome A :=
  match l with
  | [] => Raise ValueError
  | x :: l' => Ok (fold_left (fun m y => if gt y m then y else m) l' x)
  end.

Definition py_min {A : Type} (lt : A -> A -> bool) (l : list A) : outcome A :=
  match l with
  | [] => Raise ValueError
  | x :: l' => Ok (fold_left (fun m y => if lt y m then y else m) l' x)
  end.

(** [a >= 1.5 * b] on two [int]: [b] becomes a float, the product is a
    float, and [a] is compared with it exactly. *)
Definition ge_one_and_a_half (a b : Z) : outcome bool :=
  b' ← Float.of_int b;
  Ok (Float.le (Float.mul (Float.Finite (3 # 2)) b')
        (Float.Finite (inject_Z a))).

(** The loop [for slice_ in slices: if unbalanced: return False]. *)
Fixpoint all_balanced (slices : list Slice.t) : bool :=
  match slices with
  | [] => true
  | s :: rest =>
      if Slice.is_slice_unbalanced s then false else all_balanced rest
  end.

Definition check_slice_balance (slices : list Slice.t) : outcome bool :=
  best ← py_max Slice.gt slices;
  worst ← py_min Slice.lt slices;
  much_better ← ge_one_and_a_half (Slice.absolute_value best)
                  (Slice.absolute_value worst);
  if much_better : bool then Ok false
  else Ok (all_balanced slices).

(** ** Rebalancing *)

(** [slices[i]]. *)
Definition slice_at (slices : list Slice.t) (i : nat) : outcome Slice.t :=
  match slices !! i with
  | Some s => Ok s
  | None => Raise IndexError
  end.

(** A method call on the slice object held at position [i]: the cell is
    read, the method runs, the cell holds the slice it leaves. *)
Definition call {A : Type} (i : nat) (method : Slice.t -> outcome (A * Slice.t))
  (slices : list Slice.t) : outcome (A * list Slice.t) :=
  s ← slice_at slices i;
  '(a, s') ← method s;
  Ok (a, <[i := s']> slices).

(** Reading an attribute of the result of [remove_best_tile] or
    [remove_worst_tile]: [None] has none. *)
Definition attr {A : Type} (o : option A) : outcome A :=
  match o with
  | Some a => Ok a
  | None => Raise AttributeError
  end.

(** [slice.add(tile)] where [tile] may be [None]: [update_values] then
    fails on [None.resources]. *)
Definition add_method (x : option Tile.t) (s : Slice.t)
  : outcome (unit * Slice.t) :=
  x' ← attr x; Ok (tt, Slice.add x' s).

(** First half of [rebalance_slices]: between the best and the worst
    slice. *)
Definition rebalance_best_worst (slices : list Slice.t)
  : outcome (list Slice.t) :=
  let sorted := sort_by Slice.lt slices in
  let worst := 0%nat in
  let best := (length sorted - 1)%nat in
  worst_slice ← slice_at sorted worst;
  best_slice ← slice_at sorted best;
  much_better ← ge_one_and_a_half (Slice.absolute_value best_slice)
                  (Slice.absolute_value worst_slice);
  if much_better : bool then
    '(best_tile, l1) ←
       call best (fun s => Ok (Slice.remove_best_tile "blue" s)) sorted;
    best_tile' ← attr best_tile;
    '(worst_tile, l2) ←
       call worst
         (fun s => Ok (Slice.remove_worst_tile (Tile.color best_tile') s)) l1;
    '(_, l3) ← call best (add_method worst_tile) l2;
    '(_, l4) ← call worst (add_method (Some best_tile')) l3;
    Ok l4
  else Ok sorted.

(** The key [x.resources / x.influence]. *)
Definition ratio (s : Slice.t) : outcome Float.t :=
  Float.int_truediv (Slice.resources s) (Slice.influence s).

(** [list.sort(key=...)] computes the key of every element, in order,
    before it compares any. *)
Fixpoint with_keys (l : list Slice.t)
  : outcome (list (Float.t * Slice.t)) :=
  match l with
  | [] => Ok []
  | s :: l' =>
      k ← ratio s;
      rest ← with_keys l';
      Ok ((k, s) :: rest)
  end.

Definition key_lt (a b : Float.t * Slice.t) : bool :=
  Float.lt (fst a) (fst b).

Definition sort_by_ratio (slices : list Slice.t) : outcome (list Slice.t) :=
  keyed ← with_keys slices;
  Ok (snd <$> sort_by key_lt keyed).

(** Second half of [rebalance_slices]: between the slices with the
    lowest and the highest resources to influence ratio. *)
Definition rebalance_res_inf (slices : list Slice.t)
  : outcome (list Slice.t) :=
  sorted ← sort_by_ratio slices;
  let inf_heavy := 0%nat in
  let res_heavy := (length sorted - 1)%nat in
  most_influence_heavy_slice ← slice_at sorted inf_heavy;
  most_resources_heavy_slice ← slice_at sorted res_heavy;
  if (2 * Slice.resources most_influence_heavy_slice
        <=? Slice.influence most_influence_heavy_slice)
     || (2 * Slice.influence most_resources_heavy_slice
           <=? Slice.resources most_resources_heavy_slice)
  then
    '(best_inf_tile, l1) ← call inf_heavy Slice.remove_excessive_tile sorted;
    '(best_res_tile, l2) ← call res_heavy Slice.remove_excessive_tile l1;
    '(_, l3) ← call res_heavy (add_method (Some best_inf_tile)) l2;
    '(_, l4) ← call inf_heavy (add_method (Some best_res_tile)) l3;
    Ok l4
  else Ok sorted.

Definition rebalance_slices (slices : list Slice.t) : outcome (list Slice.t) :=
  slices' ← rebalance_best_worst slices;
  rebalance_res_inf slices'.

(** ** The pipeline *)

(** The loop [while True: if check_slice_balance(slices): break; ...]. *)
Fixpoint balance (fuel : nat) (slices : list Slice.t)
  : outcome (list Slice.t) :=
  match fuel with
  | O => Diverge
  | S fuel' =>
      success ← check_slice_balance slices;
      if success : bool then Ok slices
      else slices' ← rebalance_slices slices; balance fuel' slices'
  end.

(** A slice when the pipeline is done: its aggregate fields and the seven
    slots that [place_tiles] stored in [self.tiles]. *)
Record placed : Type := mk_placed {
  slice : Slice.t;
  slots : list (option Tile.t)
}.

(** The loop [for slice_ in slices: slice_.place_tiles()]. *)
Fixpoint place_all (slices : list Slice.t) (g : Random)
  : outcome (list placed * Random) :=
  match slices with
  | [] => Ok ([], g)
  | s :: rest =>
      '(r, g1) ← Slice.place_tiles s g;
      '(done, g2) ← place_all rest g1;
      Ok (mk_placed s r :: done, g2)
  end.

(** [prepare_slices], from the tiles that the loader has built. *)
Definition prepare_slices (fuel : nat) (tiles : list Tile.t) (g : Random)
  : outcome (list placed) :=
  '(all_tiles, g1) ← draw_all_tiles fuel tiles 6 g;
  '(slices, g2) ← generate_slices all_tiles 6 g1;
  balanced ← balance fuel slices;
  '(result, _) ← place_all balanced g2;
  Ok result.

(** ** Building the tiles

    The loop of [prepare_slices] that turns the records of the tile file
    into [Tile] objects, given the table of the planets by name.  A
    record is a JSON object: each of its keys may be absent. *)

Module Loader.

Record tile_record : Type := mk_record {
  rec_id : option Z;
  rec_color : option string;
  rec_planets : option (list string);
  rec_anomalies : option (list string)
}.

(** [KeyError], with the key that was not found. *)
Inductive error : Type :=
| KeyError (key : string).

(** [for planet_name in ...: replaced_planets.append(planets[planet_name])]. *)
Fixpoint replace_planets (planets : gmap string Tile.planet_row)
  (names : list string) : error + list Tile.planet_row :=
  match names with
  | [] => inr []
  | n :: names' =>
      match planets !! n with
      | None => inl (KeyError n)
      | Some row =>
          match replace_planets planets names' with
          | inl e => inl e
          | inr rows => inr (row :: rows)
          end
      end
  end.

(** One round of [for tile in tiles_raw]: the planets are looked up
    first, then [tile['id']] and [tile['color']] are read;
    [tile.get('planets', [])] and [tile.get('anomalies')] accept a record
    without these keys. *)
Definition build_tile (planets : gmap string Tile.planet_row)
  (tile : tile_record) : error + Tile.t :=
  match replace_planets planets (default [] (rec_planets tile)) with
  | inl e => inl e
  | inr replaced_planets =>
      match rec_id tile with
      | None => inl (KeyError "id")
      | Some id =>
          match rec_color tile with
          | None => inl (KeyError "color")
          | Some c =>
              inr (Tile.post_init id c replaced_planets (rec_anomalies tile))
          end
      end
  end.

Fixpoint build_tiles (planets : gmap string Tile.planet_row)
  (tiles_raw : list tile_record) : error + list Tile.t :=
  match tiles_raw with
  | [] => inr []
  | tile :: rest =>
      match build_tile planets tile with
      | inl e => inl e
      | inr x =>
          match build_tiles planets rest with
          | inl e => inl e
          | inr tiles => inr (x :: tiles)
          end
      end
  end.

End Loader.

(** ** Sample values *)

(** A tile with one planet and no anomaly. *)
Definition sample_tile (id : Z) (c : string) (r i : Z) : Tile.t :=
  Tile.post_init id c [Tile.mk_row "planet" r i "" ""] None.

(** A random source. *)
Definition sample_random : Random := mkRandom (fun n => (7 * n + 3)%nat) 0.

(** Tiles numbered from [first], [n] of them, of one colour; each has
    one planet of resources [r] and influence [i]. *)
Definition sample_tiles (first n : nat) (c : string) (r i : Z) : list Tile.t :=
  (fun k => sample_tile (Z.of_nat k) c r i) <$> seq first n.

(** A pool of 12 red and 18 blue tiles. *)
Definition sample_pool : list Tile.t :=
  sample_tiles 0 12 "red" 1 1 ++ sample_tiles 12 18 "blue" 1 1.

(** A slice as [generate_slices] builds it: two red tiles, then three
    blue ones. *)
Definition sample_slice : Slice.t :=
  Slice.init (sample_tiles 0 2 "red" 1 1 ++ sample_tiles 2 3 "blue" 1 1).

(** A slice of the same shape whose planets are twice as rich. *)
Definition sample_rich_slice : Slice.t :=
  Slice.init (sample_tiles 5 2 "red" 2 2 ++ sample_tiles 7 3 "blue" 2 2).

(** Two slices of two red and three blue tiles.  All the influence of
    the first is on its best blue tile; the lowest blue tile of the
    second has none. *)
Definition sample_one_sided_slice : Slice.t :=
  Slice.init [sample_tile 10 "red" 2 0; sample_tile 11 "red" 2 0;
              sample_tile 12 "blue" 6 1; sample_tile 13 "blue" 2 0;
              sample_tile 14 "blue" 2 0].

Definition sample_poor_slice : Slice.t :=
  Slice.init [sample_tile 15 "red" 0 1; sample_tile 16 "red" 0 0;
              sample_tile 17 "blue" 0 0; sample_tile 18 "blue" 1 0;
              sample_tile 19 "blue" 1 0].

(** A catalog with exactly the tiles of six slices and the one that is
    left out: 12 red and 19 blue tiles. *)
Definition sample_catalog : list Tile.t :=
  sample_tiles 0 12 "red" 1 1 ++ sample_tiles 12 19 "blue" 1 1.

(** Two slices of two red and three blue tiles: the first with
    influence only, most of it on a blue tile; the second with most of
    its resources on a red tile. *)
Definition sample_influence_slice : Slice.t :=
  Slice.init [sample_tile 20 "red" 0 0; sample_tile 21 "red" 0 0;
              sample_tile 22 "blue" 0 3; sample_tile 23 "blue" 0 1;
              sample_tile 24 "blue" 0 1].

Definition sample_resources_slice : Slice.t :=
  Slice.init [sample_tile 25 "red" 3 0; sample_tile 26 "red" 1 0;
              sample_tile 27 "blue" 1 1; sample_tile 28 "blue" 0 0;
              sample_tile 29 "blue" 0 0].

(** A slice with two red tiles that carry an anomaly each and three blue
    tiles with a planet. *)
Definition sample_anomaly_slice : Slice.t :=
  Slice.init [Tile.post_init 30 "red" [] (Some ["Nebula"%string]);
              Tile.post_init 31 "red" [] (Some ["Wormhole-A"%string]);
              sample_tile 32 "blue" 1 1; sample_tile 33 "blue" 1 1;
              sample_tile 34 "blue" 1 1].

(** A table of two planets and records that name them. *)
Definition sample_planets : gmap string Tile.planet_row :=
  <["Jord" := Tile.mk_row "Jord" 4 2 "" "industrial"]>
    (<["Lodor" := Tile.mk_row "Lodor" 3 1 "G" "cultural"]> ∅).

Definition sample_records : list Loader.tile_record :=
  [Loader.mk_record (Some 1) (Some "blue"%string)
     (Some ["Jord"%string; "Lodor"%string]) None;
   Loader.mk_record (Some 2) (Some "red"%string) None
     (Some ["Wormhole-A"%string])].

(** A catalog of 12 red and 19 blue tiles that all have resources 3 and
    influence 1. *)
Definition sample_heavy_catalog : list Tile.t :=
  sample_tiles 0 12 "red" 3 1 ++ sample_tiles 12 19 "blue" 3 1.

(** A catalog of 12 red and 19 blue tiles, all of absolute value 8 to
    10.  With [sample_random], one slice is dealt the red tiles 10 and 3
    and the blue tiles 15, 26 and 14, which hold all its influence;
    three slices are dealt a red tile (1, 0 or 4) that holds most of
    their resources. *)
Definition sample_unplaceable_catalog : list Tile.t :=
  [sample_tile 0 "red" 10 0; sample_tile 1 "red" 10 0;
   sample_tile 2 "red" 7 4; sample_tile 3 "red" 0 8;
   sample_tile 4 "red" 10 0; sample_tile 5 "red" 5 5;
   sample_tile 6 "red" 5 5; sample_tile 7 "red" 7 4;
   sample_tile 8 "red" 5 5; sample_tile 9 "red" 5 5;
   sample_tile 10 "red" 0 8; sample_tile 11 "red" 7 4;
   sample_tile 12 "blue" 5 5; sample_tile 13 "blue" 5 3;
   sample_tile 14 "blue" 0 10; sample_tile 15 "blue" 0 10;
   sample_tile 16 "blue" 4 4; sample_tile 17 "blue" 5 3;
   sample_tile 18 "blue" 5 5; sample_tile 19 "blue" 4 4;
   sample_tile 20 "blue" 5 3; sample_tile 21 "blue" 4 4;
   sample_tile 22 "blue" 5 3; sample_tile 23 "blue" 5 3;
   sample_tile 24 "blue" 5 3; sample_tile 25 "blue" 5 4;
   sample_tile 26 "blue" 0 10; sample_tile 27 "blue" 5 4;
   sample_tile 28 "blue" 5 4; sample_tile 29 "blue" 4 4;
   sample_tile 30 "blue" 1 1].

(** A slice worth [10^400], past the floats. *)
Definition sample_huge_slice : Slice.t :=
  Slice.init [sample_tile 1 "blue" (10 ^ 400) 1].

(** ** The floats of the Standard Library

    [SpecFloat] is the reference implementation of the binary64
    operations on which the Standard Library specifies its primitive
    floats.  [of_spec] reads one of its values as a [Float.t], and
    [spec_int] is an integer taken as mantissa with exponent 0. *)

Definition of_spec (x : spec_float) : Float.t :=
  match x with
  | S754_zero _ => Float.Finite 0
  | S754_infinity s => Float.Infinity s
  | S754_nan => Float.NaN
  | S754_finite s m e =>
      Float.Finite
        (Qred (inject_Z (if s then Z.neg m else Z.pos m) * Float.pow2 e))
  end.

Definition spec_int (z : Z) : spec_float :=
  match z with
  | Z0 => S754_zero false
  | Z.pos m => S754_finite false m 0
  | Z.neg m => S754_finite true m 0
  end.

(** Integers and pairs of integers on which the model is compared with
    the reference: small ones, some around [2^53] where rounding starts,
    some around the greatest float. *)
Definition sample_integers : list Z :=
  [0; 1; -3; 7; 2 ^ 53 - 1; 2 ^ 53 + 1; 2 ^ 53 + 3; -(2 ^ 53 + 3);
   3 * 2 ^ 52 + 5; 2 ^ 60 + 2 ^ 7; 2 ^ 60 + 2 ^ 7 + 1; 10 ^ 30;
   2 ^ 1024 - 2 ^ 970 - 1; 2 ^ 1024 - 2 ^ 970; 2 ^ 1023 + 12345;
   -(2 ^ 1024); 10 ^ 400].

Definition sample_quotients : list (Z * Z) :=
  [(1, 3); (2, 3); (-10, 7); (23, 24); (10 ^ 30, 3); (1, 10 ^ 30);
   (1, 2 ^ 1074); (1, 2 ^ 1075); (3, 2 ^ 1075); (2 ^ 1075 + 1, 2 ^ 2149);
   (10 ^ 400, 7); (10 ^ 400, 10 ^ 399 + 1); (2 ^ 53 + 1, 2)].

(** ** Statements of the specification *)

(** The rational that a number stands for; an infinity and NaN stand
    for none. *)
Definition real (x : num) : Q :=
  match x with
  | Int z => inject_Z z
  | Flt (Float.Finite q) => q
  | Flt _ => 0%Q
  end.

(** The raw values on which the statement about [Planet] is read: the
    integers below [2^53] in magnitude and the floats [m * 2^s] that are
    not in the last binade of the format nor in its first one, so that
    their double and their half are floats again. *)
Definition plain (x : num) : Prop :=
  match x with
  | Int z => Z.abs z < 2 ^ 53
  | Flt (Float.Finite q) =>
      exists m s : Z,
        (q == inject_Z m * Float.pow2 s)%Q /\
        Z.abs m < 2 ^ 53 /\ -1073 <= s <= 970
  | Flt _ => False
  end.

(** The integers [b] for which the float [1.5 * b] is the number
    [3b/2] itself: those up to [2^53 / 3], about [3 * 10^15], in
    magnitude.  Past them the product is rounded. *)
Definition in_exact_range (b : Z) : Prop := 3 * Z.abs b < 2 ^ 53.

Definition small (s : Slice.t) : Prop :=
  in_exact_range (Slice.absolute_value s).

(** A tile of which five make a [small] slice. *)
Definition modest (x : Tile.t) : Prop :=
  Z.abs (Tile.absolute_value x) < 2 ^ 49.

(** A slice whose resources are within the range of the floats: its
    ratio cannot overflow. *)
Definition fits (s : Slice.t) : Prop := Z.abs (Slice.resources s) < 2 ^ 1023.

(** A slice whose ratio [resources / influence] is defined and within
    the range of the floats. *)
Definition has_ratio (s : Slice.t) : Prop :=
  Slice.influence s <> 0 /\
  Z.abs (Slice.resources s) < 2 ^ 1023 * Z.abs (Slice.influence s).

(** The concatenation of a list of strings, and the sum of a list of
    integers. *)
Definition concat_all (l : list string) : string :=
  foldr String.append EmptyString l.

Definition sum_all (l : list Z) : Z := foldr Z.add 0 l.

(** The trailing character of a string, as a string: the character
    that no other follows.  The empty string has none. *)
Fixpoint trailing (s : string) : string :=
  match s with
  | EmptyString => EmptyString
  | String c EmptyString => String c EmptyString
  | String _ s' => trailing s'
  end.

(** The wormholes of a tile as the specification words them: the
    trailing character of every anomaly whose name starts with
    [Wormhole], in the order of the anomalies. *)
Definition wormholes_of (ans : option (list string)) : string :=
  concat_all
    (trailing <$> List.filter (String.prefix "Wormhole") (default [] ans)).

(** A string that is not empty and repeats no character. *)
Definition distinct_wormholes (w : string) : Prop :=
  w <> EmptyString /\ NoDup (list_ascii_of_string w).

#[global] Instance distinct_wormholes_dec (w : string)
  : Decision (distinct_wormholes w).
Proof. unfold distinct_wormholes. apply _. Defined.

(** The aggregate fields of a slice are those of its current members. *)
Definition aggregates_current (s : Slice.t) : Prop :=
  Slice.resources s = sum_all (Tile.resources <$> Slice.tiles s) /\
  Slice.influence s = sum_all (Tile.influence <$> Slice.tiles s) /\
  Slice.technology s = concat_all (Tile.technology <$> Slice.tiles s) /\
  Slice.wormholes s = concat_all (Tile.wormholes <$> Slice.tiles s) /\
  Slice.absolute_value s = sum_all (Tile.absolute_value <$> Slice.tiles s).

(** Two slices with the same aggregate fields. *)
Definition same_aggregates (s s' : Slice.t) : Prop :=
  Slice.resources s' = Slice.resources s /\
  Slice.influence s' = Slice.influence s /\
  Slice.technology s' = Slice.technology s /\
  Slice.wormholes s' = Slice.wormholes s /\
  Slice.absolute_value s' = Slice.absolute_value s.

(** [M] is the greatest, [m] the least, of a list of integers. *)
Definition greatest (M : Z) (l : list Z) : Prop :=
  M ∈ l /\ forall x, x ∈ l -> x <= M.

Definition least (m : Z) (l : list Z) : Prop :=
  m ∈ l /\ forall x, x ∈ l -> m <= x.

(** A slice skewed past the 2x threshold. *)
Definition skewed (s : Slice.t) : Prop :=
  2 * Slice.influence s <= Slice.resources s
  \/ 2 * Slice.resources s <= Slice.influence s.

(** The two conditions of the balance check, as the specification
    states them. *)
Definition balanced (slices : list Slice.t) : Prop :=
  (exists M m : Z,
     greatest M (Slice.absolute_value <$> slices) /\
     least m (Slice.absolute_value <$> slices) /\
     (inject_Z M < (3 # 2) * inject_Z m)%Q) /\
  (forall s, s ∈ slices -> ~ skewed s).

(** The slices that [deal] adds when the tiles suffice. *)
Fixpoint dealt (k : nat) (red_tiles blue_tiles : list Tile.t) : list Slice.t :=
  match k with
  | O => []
  | S k' =>
      Slice.init (take 2 red_tiles ++ take 3 blue_tiles)
      :: dealt k' (drop 2 red_tiles) (drop 3 blue_tiles)
  end.

(** A slice of five tiles, two of them red and three blue. *)
Definition two_red_three_blue (s : Slice.t) : Prop :=
  length (List.filter (Tile.has_color "red") (Slice.tiles s)) = 2%nat /\
  length (List.filter (Tile.has_color "blue") (Slice.tiles s)) = 3%nat /\
  length (Slice.tiles s) = 5%nat.

(** Every tile is red or blue. *)
Definition red_or_blue (x : Tile.t) : Prop :=
  Tile.color x = "red"%string \/ Tile.color x = "blue"%string.

(** What the placement loops write: the tiles, one by one, at the
    positions in the order of the list. *)
Fixpoint fill (result : list (option Tile.t)) (positions : list nat)
  (l : list Tile.t) {struct l} : list (option Tile.t) :=
  match l, positions with
  | x :: l', p :: positions' => fill (<[p := Some x]> result) positions' l'
  | _, _ => result
  end.

(** The tiles that a sequence of slots holds. *)
Definition filled (result : list (option Tile.t)) : list Tile.t :=
  omap id result.

(** [x] is a tile of colour [c] in [l], and no tile of that colour in [l]
    has a higher (a lower) absolute value. *)
Definition highest_of_color (c : string) (x : Tile.t) (l : list Tile.t)
  : Prop :=
  x ∈ l /\ Tile.color x = c /\
  forall y, y ∈ l -> Tile.color y = c ->
            Tile.absolute_value y <= Tile.absolute_value x.

Definition lowest_of_color (c : string) (x : Tile.t) (l : list Tile.t)
  : Prop :=
  x ∈ l /\ Tile.color x = c /\
  forall y, y ∈ l -> Tile.color y = c ->
            Tile.absolute_value x <= Tile.absolute_value y.

(** A slice of five tiles, and a slice with a tile of colour [c]. *)
Definition five_tiles (s : Slice.t) : Prop := length (Slice.tiles s) = 5%nat.

Definition has_tile_of_color (c : string) (s : Slice.t) : Prop :=
  exists x, x ∈ Slice.tiles s /\ Tile.color x = c.

(** All the tiles of a collection of slices. *)
Definition all_tiles (slices : list Slice.t) : list Tile.t :=
  concat (Slice.tiles <$> slices).

(** The number of tiles of every slice, in the order of the slices. *)
Definition sizes (slices : list Slice.t) : list nat :=
  (length ∘ Slice.tiles) <$> slices.

(** What a pass keeps: the number of slices, the tiles that the slices
    hold together, the numbers of tiles of the slices, and aggregate
    fields that are those of the members. *)
Definition keeps (before after : list Slice.t) : Prop :=
  length after = length before /\
  all_tiles after ≡ₚ all_tiles before /\
  sizes after ≡ₚ sizes before /\
  (Forall aggregates_current before -> Forall aggregates_current after).

(** The blue and the red tiles of a slice, and the number of positions
    that [place_tiles] has for them: slot 0 is one of them only when the
    slice has a blue tile. *)
Definition blue_tiles (s : Slice.t) : list Tile.t :=
  List.filter (Tile.has_color "blue") (Slice.tiles s).

Definition red_tiles (s : Slice.t) : list Tile.t :=
  List.filter (Tile.has_color "red") (Slice.tiles s).

Definition room (s : Slice.t) : nat :=
  if blue_tiles s is [] then 4%nat else 5%nat.

(** Seven slots, the third and the fifth empty, that hold the tiles [l]. *)
Definition placement_of (l : list Tile.t) (result : list (option Tile.t))
  : Prop :=
  length result = 7%nat /\
  result !! 2%nat = Some None /\
  result !! 4%nat = Some None /\
  filled result ≡ₚ l.

(** A record that [build_tile] can turn into a tile: it has an id and a
    colour, and the table knows every planet it names. *)
Definition resolvable (planets : gmap string Tile.planet_row)
  (tile : Loader.tile_record) : Prop :=
  is_Some (Loader.rec_id tile) /\
  is_Some (Loader.rec_color tile) /\
  Forall (fun n => is_Some (planets !! n))
    (default [] (Loader.rec_planets tile)).

(** The tile [x] is built from the record [tile]. *)
Definition built_from (planets : gmap string Tile.planet_row)
  (tile : Loader.tile_record) (x : Tile.t) : Prop :=
  Loader.rec_id tile = Some (Tile.id_ x) /\
  Loader.rec_color tile = Some (Tile.color x) /\
  Tile.anomalies x = Loader.rec_anomalies tile /\
  Forall2 (fun n row => planets !! n = Some row)
    (default [] (Loader.rec_planets tile)) (Tile.planets x).

(** A tile of absolute value [a], with some influence and at least
    twice as much resources, which are part of its value; slices that
    the balance loop cannot mend: at least two, of five such tiles each,
    with their aggregates computed. *)
Definition heavy_tile (a : Z) (x : Tile.t) : Prop :=
  Tile.absolute_value x = a /\
  0 < Tile.influence x /\
  2 * Tile.influence x <= Tile.resources x /\
  Tile.resources x <= a.

Definition stuck (a : Z) (slices : list Slice.t) : Prop :=
  (2 <= length slices)%nat /\
  Forall five_tiles slices /\
  Forall aggregates_current slices /\
  Forall (heavy_tile a) (all_tiles slices).

(** ** Theorems *)

(** *** Floats *)


Lemma pow2_pos (e : Z) : (0 < Float.pow2 e)%Q.
Proof. by apply Qpower_0_lt. Qed.

Lemma pow2_add (a b : Z) : (Float.pow2 (a + b) == Float.pow2 a * Float.pow2 b)%Q.
Proof. by apply Qpower_plus. Qed.

Lemma pow2_nonneg (n : Z) : 0 <= n -> (Float.pow2 n == inject_Z (2 ^ n))%Q.
Proof. intros Hn. unfold Float.pow2. by rewrite Zpower_Qpower. Qed.

Lemma pow2_le (a b : Z) : a <= b -> (Float.pow2 a <= Float.pow2 b)%Q.
Proof. intros H. by apply Qpower_le_compat_l. Qed.

Lemma pow2_lt (a b : Z) : a < b -> (Float.pow2 a < Float.pow2 b)%Q.
Proof. intros H. by apply Qpower_lt_compat_l. Qed.

Lemma pow2_lt_inv (a b : Z) : (Float.pow2 a < Float.pow2 b)%Q -> a < b.
Proof. intros H. by apply (Qpower_lt_compat_l_inv 2). Qed.

Lemma pow2_sub (a b : Z) : (Float.pow2 (a - b) * Float.pow2 b == Float.pow2 a)%Q.
Proof. rewrite <- pow2_add. by replace (a - b + b) with a by lia. Qed.

(** [q] lies between two powers of 2 that its numerator and its
    denominator give. *)
Lemma log2_bounds (q : Q) :
  (0 < q)%Q ->
  let e := Z.log2 (Qnum q) - Z.log2 (Zpos (Qden q)) in
  (Float.pow2 (e - 1) <= q)%Q /\ (q < Float.pow2 (e + 1))%Q.
Proof.
  intros Hq. destruct q as [n d]. cbn [Qnum Qden].
  assert (Hn : 0 < n) by (unfold Qlt in Hq; cbn in Hq; lia).
  set (a := Z.log2 n). set (b := Z.log2 (Z.pos d)). set (e := a - b).
  destruct (Z.log2_spec n Hn) as [Hn1 Hn2]. fold a in Hn1, Hn2.
  destruct (Z.log2_spec (Z.pos d) eq_refl) as [Hd1 Hd2]. fold b in Hd1, Hd2.
  assert (Ha : 0 <= a) by apply Z.log2_nonneg.
  assert (Hb : 0 <= b) by apply Z.log2_nonneg.
  replace (Z.succ a) with (a + 1) in Hn2 by lia.
  replace (Z.succ b) with (b + 1) in Hd2 by lia.
  rewrite Zle_Qle, <- pow2_nonneg in Hn1, Hd1 by done.
  rewrite Zlt_Qlt, <- pow2_nonneg in Hn2, Hd2 by lia.
  assert (Hdpos : (0 < inject_Z (Z.pos d))%Q) by done.
  rewrite Qmake_Qdiv. split.
  - apply Qle_shift_div_l; [done |].
    apply Qle_trans with (Float.pow2 (e - 1) * Float.pow2 (b + 1))%Q.
    + apply Qmult_le_l; [apply pow2_pos | by apply Qlt_le_weak].
    + rewrite <- pow2_add. by replace (e - 1 + (b + 1)) with a by (unfold e; lia).
  - apply Qlt_shift_div_r; [done |].
    apply Qlt_le_trans with (Float.pow2 (e + 1) * Float.pow2 b)%Q.
    + rewrite <- pow2_add. by replace (e + 1 + b) with (a + 1) by (unfold e; lia).
    + by apply Qmult_le_l; [apply pow2_pos |].
Qed.

Lemma ilog2_spec (q : Q) :
  (0 < q)%Q -> (Float.pow2 (Float.ilog2 q) <= q)%Q /\ (q < Float.pow2 (Float.ilog2 q + 1))%Q.
Proof.
  intros Hq. destruct (log2_bounds q Hq) as [Hlo Hhi]. unfold Float.ilog2.
  set (e := Z.log2 (Qnum q) - Z.log2 (Z.pos (Qden q))) in *.
  destruct (Qle_bool (Float.pow2 e) q) eqn:Htest.
  - split; [by apply Qle_bool_iff | done].
  - split; [done |]. replace (e - 1 + 1) with e by lia.
    apply Qnot_le_lt. intros H. apply Qle_bool_iff in H. congruence.
Qed.

Lemma round_half_even_Z (k : Z) : Float.round_half_even (inject_Z k) = k.
Proof.
  unfold Float.round_half_even. rewrite Qfloor_Z.
  assert (H : (inject_Z k - inject_Z k ?= 1 # 2)%Q = Lt).
  { apply (proj1 (Qlt_alt _ _)). generalize (inject_Z k). intros x. lra. }
  by rewrite H.
Qed.

Lemma round_half_even_comp (p q : Q) :
  (p == q)%Q -> Float.round_half_even p = Float.round_half_even q.
Proof.
  intros H. unfold Float.round_half_even.
  assert (Hf : Qfloor p = Qfloor q) by (by rewrite H).
  rewrite Hf. assert (Hc : (p - inject_Z (Qfloor q) ?= 1 # 2)%Q
                          = (q - inject_Z (Qfloor q) ?= 1 # 2)%Q)
    by (by rewrite H).
  by rewrite Hc.
Qed.

(** The rounded integer is within [0 .. N] when the number is. *)
Lemma round_half_even_bounds (q : Q) (N : Z) :
  (Qabs q <= inject_Z N)%Q -> Z.abs (Float.round_half_even q) <= N.
Proof.
  intros H. apply Qabs_Qle_condition in H as [Hlo Hhi].
  unfold Float.round_half_even.
  pose proof (Qfloor_le q) as Hfl.
  assert (Hf1 : - N <= Qfloor q).
  { rewrite <- (Qfloor_Z (- N)). apply Qfloor_resp_le.
    by rewrite inject_Z_opp. }
  assert (Hf2 : Qfloor q <= N).
  { rewrite Zle_Qle. by apply Qle_trans with q. }
  set (f := Qfloor q) in *.
  destruct (Z.eq_dec f N) as [-> | Hne].
  - assert (Heq : (q - inject_Z N ?= 1 # 2)%Q = Lt).
    { apply (proj1 (Qlt_alt _ _)). revert Hhi. generalize (inject_Z N). intros x Hx. lra. }
    rewrite Heq. lia.
  - destruct (_ ?= _)%Q; try destruct (Z.even f); lia.
Qed.

Lemma Qabs_pow2_mul (m s : Z) :
  (Qabs (inject_Z m * Float.pow2 s) == inject_Z (Z.abs m) * Float.pow2 s)%Q.
Proof.
  rewrite Qabs_Qmult, (Qabs_pos (Float.pow2 s)) by apply Qlt_le_weak, pow2_pos.
  apply Qmult_comp; [| done]. unfold inject_Z. by rewrite <- Zabs_Qabs.
Qed.

Lemma Qeq_bool_false (p q : Q) : Qeq_bool p q = false -> ~ (p == q)%Q.
Proof. intros H Heq. apply Qeq_bool_iff in Heq. congruence. Qed.

Lemma Qabs_pos_lt (q : Q) : ~ (q == 0)%Q -> (0 < Qabs q)%Q.
Proof.
  intros Hq. destruct (Qlt_le_dec 0 (Qabs q)) as [H | H]; [done |].
  exfalso. apply Hq. pose proof (Qabs_nonneg q) as H0.
  assert (H1 : (Qabs q <= 0)%Q) by done.
  apply Qabs_Qle_condition in H1 as [Ha Hb]. lra.
Qed.

(** A number [m * 2^s] with fewer than 54 bits in [m] and [s] no lower
    than the least exponent is a float: rounding leaves it as it is. *)
Lemma nearest_exact (q : Q) (m s : Z) :
  (q == inject_Z m * Float.pow2 s)%Q -> Z.abs m < 2 ^ 53 -> -1074 <= s ->
  Float.nearest q = Qred q.
Proof.
  intros Hq Hm Hs. unfold Float.nearest.
  destruct (Qeq_bool q 0) eqn:Hz.
  { apply Qeq_bool_iff in Hz. symmetry. by apply (Qred_complete q 0). }
  apply Qeq_bool_false in Hz. apply Qred_complete.
  set (u := Float.ulp_exponent q).
  assert (Hu : u <= s).
  { unfold u, Float.ulp_exponent.
    destruct (ilog2_spec (Qabs q) (Qabs_pos_lt q Hz)) as [Hlo _].
    assert (Hlt : (Float.pow2 (Float.ilog2 (Qabs q)) < Float.pow2 (53 + s))%Q).
    { eapply Qle_lt_trans; [exact Hlo |].
      rewrite Hq, Qabs_pow2_mul, pow2_add.
      apply Qmult_lt_compat_r; [apply pow2_pos |].
      rewrite pow2_nonneg by lia. by rewrite <- Zlt_Qlt. }
    apply pow2_lt_inv in Hlt. lia. }
  assert (Hk : (q / Float.pow2 u == inject_Z (m * 2 ^ (s - u)))%Q).
  { rewrite Hq, inject_Z_mult, <- pow2_nonneg by lia.
    rewrite <- (pow2_sub s u) at 1.
    pose proof (pow2_pos u) as Hp. field. lra. }
  rewrite (round_half_even_comp _ _ Hk), round_half_even_Z.
  rewrite Hq, inject_Z_mult, <- pow2_nonneg, <- (pow2_sub s u) by lia. ring.
Qed.

Lemma max_float_pow2 : (Float.max_float == (Float.pow2 53 - 1) * Float.pow2 971)%Q.
Proof. by vm_compute. Qed.

Lemma round_exact (q : Q) (m s : Z) :
  (q == inject_Z m * Float.pow2 s)%Q -> Z.abs m < 2 ^ 53 -> -1074 <= s <= 971 ->
  Float.round q = Float.Finite (Qred q).
Proof.
  intros Hq Hm Hs. unfold Float.round.
  rewrite (nearest_exact q m s) by (done || lia).
  assert (Hle : (Qabs (Qred q) <= Float.max_float)%Q).
  { rewrite Qred_correct, Hq, Qabs_pow2_mul, max_float_pow2.
    apply Qle_trans with (inject_Z (Z.abs m) * Float.pow2 971)%Q.
    - rewrite !(Qmult_comm (inject_Z (Z.abs m))).
      apply Qmult_le_compat_r; [apply pow2_le; lia |].
      change 0%Q with (inject_Z 0). rewrite <- Zle_Qle. lia.
    - apply Qmult_le_compat_r; [| apply Qlt_le_weak, pow2_pos].
      apply Qle_trans with (inject_Z (2 ^ 53 - 1));
        [rewrite <- Zle_Qle; lia | by vm_compute]. }
  apply Qle_bool_iff in Hle. by rewrite Hle.
Qed.

(** Rounding does not go past the next power of 2. *)
Lemma nearest_bound (q : Q) (n : Z) :
  -1022 <= n -> (Qabs q < Float.pow2 n)%Q -> (Qabs (Float.nearest q) <= Float.pow2 n)%Q.
Proof.
  intros Hn Hq. unfold Float.nearest.
  destruct (Qeq_bool q 0) eqn:Hz; [apply Qlt_le_weak, pow2_pos |].
  apply Qeq_bool_false in Hz.
  destruct (ilog2_spec (Qabs q) (Qabs_pos_lt q Hz)) as [Hlo _].
  assert (He : Float.ilog2 (Qabs q) < n).
  { apply pow2_lt_inv. by eapply Qle_lt_trans. }
  set (u := Float.ulp_exponent q).
  assert (Hu : u <= n) by (unfold u, Float.ulp_exponent; lia).
  pose proof (pow2_pos u) as Hp.
  rewrite Qred_correct, Qabs_pow2_mul, <- (pow2_sub n u).
  apply Qmult_le_compat_r; [| by apply Qlt_le_weak].
  rewrite (pow2_nonneg (n - u)), <- Zle_Qle by lia.
  apply round_half_even_bounds.
  rewrite <- (pow2_nonneg (n - u)) by lia.
  unfold Qdiv. rewrite Qabs_Qmult, Qabs_Qinv, (Qabs_pos (Float.pow2 u))
    by by apply Qlt_le_weak.
  apply Qle_shift_div_r; [done |]. rewrite pow2_sub. by apply Qlt_le_weak.
Qed.

Lemma pow2_1023_max : (Float.pow2 1023 <= Float.max_float)%Q.
Proof. by vm_compute. Qed.

Lemma round_finite (q : Q) :
  (Qabs q < Float.pow2 1023)%Q -> exists r, Float.round q = Float.Finite r.
Proof.
  intros Hq. unfold Float.round.
  assert (Hle : (Qabs (Float.nearest q) <= Float.max_float)%Q).
  { eapply Qle_trans; [by apply (nearest_bound q 1023) | apply pow2_1023_max]. }
  apply Qle_bool_iff in Hle. rewrite Hle. by eexists.
Qed.

Lemma Qred_inject_Z (z : Z) : Qred (inject_Z z) = inject_Z z.
Proof. apply Qred_identity. cbn. apply Z.gcd_1_r. Qed.

Lemma of_int_exact (z : Z) :
  Z.abs z < 2 ^ 53 -> Float.of_int z = Ok (Float.Finite (inject_Z z)).
Proof.
  intros Hz. unfold Float.of_int.
  rewrite (round_exact (inject_Z z) z 0), Qred_inject_Z; [done | | done | lia].
  change (Float.pow2 0) with 1%Q. ring.
Qed.

Lemma int_truediv_Ok (a b : Z) :
  b <> 0 -> Z.abs a < 2 ^ 1023 ->
  exists q, Float.int_truediv a b = Ok (Float.Finite q).
Proof.
  intros Hb Ha. unfold Float.int_truediv.
  destruct (Z.eqb_spec b 0) as [| _]; [done |].
  destruct (round_finite (inject_Z a / inject_Z b)) as [r ->]; [| by eexists].
  assert (H1 : (1 <= Qabs (inject_Z b))%Q).
  { unfold inject_Z. rewrite <- Zabs_Qabs. change 1%Q with (inject_Z 1).
    fold (inject_Z (Z.abs b)). rewrite <- Zle_Qle. lia. }
  assert (H2 : (Qabs (inject_Z a) < Float.pow2 1023)%Q).
  { unfold inject_Z at 1. rewrite <- Zabs_Qabs. fold (inject_Z (Z.abs a)).
    rewrite pow2_nonneg by lia. by rewrite <- Zlt_Qlt. }
  unfold Qdiv. rewrite Qabs_Qmult, Qabs_Qinv.
  apply Qlt_shift_div_r; [lra |].
  pose proof (pow2_pos 1023) as Hp. nra.
Qed.

Lemma int_truediv_Raise (a b : Z) (e : exn) :
  Float.int_truediv a b = Raise e ->
  (e = ZeroDivisionError /\ b = 0) \/ (e = OverflowError /\ b <> 0).
Proof.
  unfold Float.int_truediv. destruct (Z.eqb_spec b 0) as [-> | Hb].
  - intros [= <-]. by left.
  - destruct (Float.round _); intros [= <-]; by right.
Qed.


Lemma int_truediv_in_range (a b : Z) :
  b <> 0 -> Z.abs a < 2 ^ 1023 * Z.abs b ->
  exists q, Float.int_truediv a b = Ok (Float.Finite q).
Proof.
  intros Hb Ha. unfold Float.int_truediv.
  destruct (Z.eqb_spec b 0) as [| _]; [done |].
  destruct (round_finite (inject_Z a / inject_Z b)) as [r ->]; [| by eexists].
  assert (H1 : (0 < inject_Z (Z.abs b))%Q).
  { change 0%Q with (inject_Z 0). rewrite <- Zlt_Qlt. lia. }
  assert (H2 : (inject_Z (Z.abs a)
                < Float.pow2 1023 * inject_Z (Z.abs b))%Q).
  { rewrite (pow2_nonneg 1023), <- inject_Z_mult, <- Zlt_Qlt by lia. done. }
  unfold Qdiv. rewrite Qabs_Qmult, Qabs_Qinv.
  unfold inject_Z at 1 2. rewrite <- !Zabs_Qabs.
  fold (inject_Z (Z.abs a)). fold (inject_Z (Z.abs b)).
  by apply Qlt_shift_div_r.
Qed.

(** [a >= 1.5 * b] is the comparison of [2a] with [3b] when [b] is in
    the exact range; in any case it returns a boolean or raises
    [OverflowError]. *)
Lemma ge_one_and_a_half_exact (a b : Z) :
  in_exact_range b -> ge_one_and_a_half a b = Ok (3 * b <=? 2 * a).
Proof.
  unfold in_exact_range, ge_one_and_a_half. intros Hb.
  rewrite of_int_exact by lia. cbn [mbind outcome_bind Float.mul].
  rewrite (round_exact _ (3 * b) (-1)); [| | lia | lia].
  - cbn [Float.le]. f_equal. apply eq_true_iff_eq.
    rewrite Qle_bool_iff, Qred_correct, Z.leb_le.
    unfold Qle. cbn. lia.
  - rewrite inject_Z_mult. change (Float.pow2 (-1)) with (1 # 2)%Q.
    change (inject_Z 3) with 3%Q. field.
Qed.

Lemma ge_one_and_a_half_cases (a b : Z) :
  (exists r : bool, ge_one_and_a_half a b = Ok r)
  \/ ge_one_and_a_half a b = Raise OverflowError.
Proof.
  unfold ge_one_and_a_half, Float.of_int.
  destruct (Float.round (inject_Z b)); cbn; eauto.
Qed.

(** Past the exact range the float test and the comparison of [2a]
    with [3b] part ways, in both directions; a value past the floats
    raises [OverflowError]. *)
Lemma ge_one_and_a_half_rounds :
  (ge_one_and_a_half (3 * 2 ^ 52 + 5) (2 ^ 53 + 3) = Ok false /\
   3 * (2 ^ 53 + 3) <= 2 * (3 * 2 ^ 52 + 5)) /\
  (ge_one_and_a_half (3 * 2 ^ 52) (2 ^ 53 + 1) = Ok true /\
   2 * (3 * 2 ^ 52) < 3 * (2 ^ 53 + 1)) /\
  ge_one_and_a_half 0 (10 ^ 400) = Raise OverflowError.
Proof.
  split; [split; [vm_compute; reflexivity | lia] |].
  split; [split; [vm_compute; reflexivity | lia] |].
  vm_compute; reflexivity.
Qed.

(** On the samples the model returns what the reference implementation
    of the Standard Library returns: for the conversion of an integer,
    for its product by 1.5 and for the quotient of two integers. *)
Lemma float_reference_agreement :
  Forall (fun z => Float.round (inject_Z z)
                   = of_spec (binary_normalize 53 1024 z 0 false))
    sample_integers /\
  Forall (fun z => Float.mul (Float.Finite (3 # 2)) (Float.round (inject_Z z))
                   = of_spec (SFmul 53 1024 (S754_finite false 3 (-1))
                                (binary_normalize 53 1024 z 0 false)))
    sample_integers /\
  Forall (fun ab => Float.round (inject_Z ab.1 / inject_Z ab.2)
                    = of_spec (SFdiv 53 1024 (spec_int ab.1) (spec_int ab.2)))
    sample_quotients.
Proof.
  unfold sample_integers, sample_quotients.
  split; [| split];
    repeat (apply Forall_cons; split; [vm_compute; reflexivity |]);
    apply Forall_nil; exact I.
Qed.

(** *** Planet *)

Lemma plain_exact (x : num) :
  plain x -> Num.exact x = Float.Finite (real x).
Proof. destruct x as [z | [q | |]]; cbn; done. Qed.

Lemma plain_double (x : num) :
  plain x ->
  exists d, Num.exact (Num.double x) = Float.Finite d /\ (d == 2 * real x)%Q.
Proof.
  destruct x as [z | [q | |]]; cbn [plain]; [| | done | done].
  - intros _. exists (inject_Z (2 * z)). split; [done |].
    cbn [real]. by rewrite inject_Z_mult.
  - intros (m & s & Hq & Hm & Hs). exists (Qred (2 * q)).
    split; [| by rewrite Qred_correct].
    cbn [Num.double Num.exact Float.mul real]. f_equal.
    apply (round_exact _ m (s + 1)); [| done | lia].
    rewrite Hq, pow2_add. change (Float.pow2 1) with 2%Q. ring.
Qed.

Lemma plain_half (x : num) :
  plain x ->
  exists h, Num.half x = Ok (Flt (Float.Finite h)) /\ (h == real x / 2)%Q.
Proof.
  destruct x as [z | [q | |]]; cbn [plain]; [| | done | done].
  - intros Hz. exists (Qred (inject_Z z / 2)).
    split; [| by rewrite Qred_correct].
    cbn [Num.half]. unfold Float.int_truediv. cbn [Z.eqb].
    change (inject_Z 2) with 2%Q.
    rewrite (round_exact _ z (-1)); [done | | done | lia].
    change (Float.pow2 (-1)) with (1 # 2)%Q. field.
  - intros (m & s & Hq & Hm & Hs). exists (Qred (q / 2)).
    split; [| by rewrite Qred_correct].
    cbn [Num.half Float.truediv]. change (Qeq_bool 2 0) with false. cbv iota.
    rewrite (round_exact _ m (s - 1)); [done | | done | lia].
    rewrite Hq, <- (pow2_sub s 1). change (Float.pow2 1) with 2%Q. field.
Qed.

Lemma ge_double_spec (x y : num) :
  plain x -> plain y ->
  Num.ge x (Num.double y) = true <-> (2 * real y <= real x)%Q.
Proof.
  intros Hx Hy. unfold Num.ge. rewrite (plain_exact x Hx).
  destruct (plain_double y Hy) as (d & -> & Hd). cbn [Float.le].
  by rewrite Qle_bool_iff, Hd.
Qed.

(** C7: the three cases of [Planet.__post_init__] are tried in order.
    For raw values that are integers below [2^53] or floats away from
    the ends of the format: when the raw resources are at least twice
    the raw influence the influence becomes 0 and the resources stay;
    otherwise, when the raw influence is at least twice the raw
    resources, the resources become 0 and the influence stays; otherwise
    both become floats, half their raw values. *)
Theorem planet_post_init_cases (n : string) (r i : num) (tech ty : string) :
  plain r -> plain i ->
  exists p,
    Planet.new n r i tech ty = Ok p /\
    ((2 * real i <= real r)%Q ->
       Planet.influence p = Int 0 /\ Planet.resources p = r) /\
    (~ (2 * real i <= real r)%Q -> (2 * real r <= real i)%Q ->
       Planet.resources p = Int 0 /\ Planet.influence p = i) /\
    (~ (2 * real i <= real r)%Q -> ~ (2 * real r <= real i)%Q ->
       exists hr hi,
         Planet.resources p = Flt (Float.Finite hr) /\
         Planet.influence p = Flt (Float.Finite hi) /\
         (hr == real r / 2)%Q /\ (hi == real i / 2)%Q).
Proof.
  intros Hr Hi. unfold Planet.new, Planet.post_init.
  cbn [Planet.resources Planet.influence Planet.name Planet.technology
       Planet.type_].
  pose proof (ge_double_spec r i Hr Hi) as H1.
  pose proof (ge_double_spec i r Hi Hr) as H2.
  destruct (Num.ge r (Num.double i)).
  { eexists. split; [done |]. cbn. split; [done |].
    split; intros Hn; exfalso; apply Hn; by apply H1. }
  assert (Hn1 : ~ (2 * real i <= real r)%Q) by (intros H; by apply H1 in H).
  destruct (Num.ge i (Num.double r)).
  { eexists. split; [done |]. cbn. split; [done |]. split; [done |].
    intros _ Hn. exfalso. apply Hn. by apply H2. }
  assert (Hn2 : ~ (2 * real r <= real i)%Q) by (intros H; by apply H2 in H).
  destruct (plain_half r Hr) as (hr & -> & Hhr).
  destruct (plain_half i Hi) as (hi & -> & Hhi).
  cbn [mbind outcome_bind]. eexists. split; [done |]. cbn.
  split; [done |]. split; [done |]. intros _ _. by exists hr, hi.
Qed.

Lemma planet_post_init_cases_witness :
  exists p hr hi,
    Planet.new "Mecatol Rex" (Flt (Float.Finite (3 # 2))) (Int 1) "" "" = Ok p /\
    Planet.resources p = Flt (Float.Finite hr) /\
    Planet.influence p = Flt (Float.Finite hi) /\
    (hr == 3 # 4)%Q /\ (hi == 1 # 2)%Q.
Proof.
  destruct (planet_post_init_cases "Mecatol Rex"
              (Flt (Float.Finite (3 # 2))) (Int 1) "" "")
    as (p & Hp & _ & _ & H).
  - exists 3, (-1). split; [reflexivity | lia].
  - cbn. lia.
  - destruct H as (hr & hi & H1 & H2 & H3 & H4).
    + intros Hle. apply Qle_bool_iff in Hle. discriminate Hle.
    + intros Hle. apply Qle_bool_iff in Hle. discriminate Hle.
    + exists p, hr, hi. split; [exact Hp |]. split; [exact H1 |].
      split; [exact H2 |]. split; [exact H3 | exact H4].
Defined.

(** *** Unsupported configurations *)

Lemma bind_Raise {A B : Type} (m : outcome A) (k : A -> outcome B) (e : exn) :
  m ≫= k = Raise e ->
  m = Raise e \/ exists a, m = Ok a /\ k a = Raise e.
Proof. destruct m; cbn; intros H; [right; eauto | left; congruence | done]. Qed.

Lemma bind_Ok {A B : Type} (m : outcome A) (k : A -> outcome B) (b : B) :
  m ≫= k = Ok b -> exists a, m = Ok a /\ k a = Ok b.
Proof. destruct m; cbn; intros H; [eauto | done | done]. Qed.

Lemma pop0_Raise {A : Type} (l : list A) (e : exn) :
  pop0 l = Raise e -> e = IndexError.
Proof. destruct l; cbn; congruence. Qed.

Lemma exclude_tile_Raise (fuel : nat) (tiles : list Tile.t) (e : exn) :
  exclude_tile fuel tiles = Raise e -> e = IndexError.
Proof.
  revert tiles. induction fuel as [| fuel IH]; intros tiles; cbn; [done |].
  destruct tiles as [| x rest]; cbn; [congruence |].
  destruct (String.eqb (Tile.color x) "red"); [apply IH | done].
Qed.

Lemma pop_n_Raise {A : Type} (n : nat) (acc l : list A) (e : exn) :
  pop_n n acc l = Raise e -> e = IndexError.
Proof.
  revert acc l. induction n as [| n IH]; intros acc l; cbn; [done |].
  destruct l as [| x l']; cbn; [congruence | apply IH].
Qed.

Lemma deal_Raise (k : nat) (slices : list Slice.t) (red blue : list Tile.t)
  (e : exn) :
  deal k slices red blue = Raise e -> e = IndexError.
Proof.
  revert slices red blue.
  induction k as [| k IH]; intros slices red blue; cbn [deal]; [done |].
  intros H. apply bind_Raise in H as [H | ([two red'] & _ & H)].
  { by apply pop_n_Raise in H. }
  apply bind_Raise in H as [H | ([st blue'] & _ & H)].
  { by apply pop_n_Raise in H. }
  by apply IH in H.
Qed.

(** C8: [draw_all_tiles] raises [NotImplementedError] exactly when
    [players] is not 6, and [generate_slices] raises it exactly when [k]
    is not 6; with 6 neither of them raises it, whatever the tiles, the
    random source and the bound on the loop. *)
Theorem unsupported_configuration_iff :
  (forall (fuel : nat) (tiles : list Tile.t) (players : Z) (g : Random),
     draw_all_tiles fuel tiles players g = Raise NotImplementedError
     <-> players <> 6) /\
  (forall (tiles : list Tile.t) (k : Z) (g : Random),
     generate_slices tiles k g = Raise NotImplementedError <-> k <> 6).
Proof.
  split.
  - intros fuel tiles players g. unfold draw_all_tiles.
    destruct (Z.eqb_spec players 6) as [-> | Hne]; cbn; [| done].
    split; [| done]. intros H.
    destruct (shuffle tiles g) as [shuffled g'].
    apply bind_Raise in H as [H | (pool & _ & H)]; [| done].
    by apply exclude_tile_Raise in H.
  - intros tiles k g. unfold generate_slices.
    destruct (Z.eqb_spec k 6) as [-> | Hne]; cbn -[deal]; [| done].
    split; [| done]. intros H.
    destruct (shuffle _ g) as [red g1], (shuffle _ g1) as [blue g2].
    apply bind_Raise in H as [H | (sl & _ & H)]; [| done].
    by apply deal_Raise in H.
Qed.

(** *** Strings *)

Lemma append_nil_l (s : string) : "" +:+ s = s.
Proof. reflexivity. Qed.

Lemma append_cons (c : ascii) (s1 s2 : string) :
  String c s1 +:+ s2 = String c (s1 +:+ s2).
Proof. reflexivity. Qed.

Lemma append_empty_r (s : string) : s +:+ "" = s.
Proof.
  induction s as [| c s IH]; [done |]. by rewrite append_cons, IH.
Qed.

Lemma append_assoc (s1 s2 s3 : string) :
  (s1 +:+ s2) +:+ s3 = s1 +:+ (s2 +:+ s3).
Proof.
  induction s1 as [| c s1 IH]; [done |]. by rewrite !append_cons, IH.
Qed.

Lemma length_list_ascii (s : string) :
  length (list_ascii_of_string s) = String.length s.
Proof. induction s as [| c s IH]; simpl; [done | by f_equal]. Qed.

Lemma length_remove_dups_le {A : Type} `{EqDecision A} (l : list A) :
  (length (remove_dups l) <= length l)%nat.
Proof.
  induction l as [| x l IH]; cbn; [done |].
  destruct (decide_rel elem_of x l); cbn; lia.
Qed.

Lemma length_remove_dups_NoDup {A : Type} `{EqDecision A} (l : list A) :
  length (remove_dups l) = length l <-> NoDup l.
Proof.
  induction l as [| x l IH]; cbn.
  - split; [constructor | done].
  - pose proof (length_remove_dups_le l) as Hle.
    rewrite NoDup_cons. destruct (decide_rel elem_of x l) as [Hin | Hin]; cbn.
    + split; [lia | tauto].
    + rewrite <- IH. split; [intros [= ->]; done | intros [_ ->]; done].
Qed.

(** *** Tile *)

Lemma wormhole_bonus_spec (w : string) :
  Tile.wormhole_bonus w = if decide (distinct_wormholes w) then 1 else 0.
Proof.
  unfold Tile.wormhole_bonus, Tile.len_set, distinct_wormholes.
  pose proof (length_remove_dups_le (list_ascii_of_string w)) as Hle.
  pose proof (length_remove_dups_NoDup (list_ascii_of_string w)) as Hnd.
  rewrite length_list_ascii in Hle, Hnd.
  destruct (Nat.eqb_spec (String.length w) 0) as [H0 | H0].
  - destruct w; [| done]. by rewrite decide_False by tauto.
  - assert (w <> "") by (intros ->; done).
    destruct (Z.eqb_spec
                (Z.of_nat (String.length w)
                 - Z.of_nat (length (remove_dups (list_ascii_of_string w)))) 0)
      as [Heq | Hne].
    + rewrite decide_True; [done |]. split; [done |]. apply Hnd. lia.
    + rewrite decide_False; [done |]. intros [_ Hn]. apply Hnd in Hn. lia.
Qed.

Lemma fold_add_anomaly (l : list string) (w : string) :
  fold_left Tile.add_anomaly l w
  = w +:+ concat_all
            (Tile.last_char <$> List.filter (String.prefix "Wormhole") l).
Proof.
  revert w. induction l as [| a l IH]; intros w; cbn [fold_left List.filter].
  - cbn. by rewrite append_empty_r.
  - rewrite IH. unfold Tile.add_anomaly at 1.
    destruct (String.prefix "Wormhole" a); [| done].
    cbn [fmap list_fmap concat_all foldr]. by rewrite append_assoc.
Qed.

Lemma last_char_trailing (s : string) : Tile.last_char s = trailing s.
Proof.
  unfold Tile.last_char. induction s as [| c s IH]; [done |].
  destruct s as [| c' s']; [done |].
  change (trailing (String c (String c' s'))) with (trailing (String c' s')).
  by rewrite <- IH.
Qed.

(** The trailing character of a string that ends with [c] is [c]. *)
Lemma trailing_append (s : string) (c : ascii) :
  trailing (s +:+ String c EmptyString) = String c EmptyString.
Proof.
  induction s as [| c' s IH]; [done |]. rewrite append_cons.
  destruct s as [| c'' s']; [reflexivity |].
  rewrite append_cons in *. exact IH.
Qed.

(** C2: the absolute value of a tile built from planets and anomalies is
    its resources plus its influence plus twice the length of its
    technology, plus 1 exactly when its wormholes string is not empty and
    repeats no character; the wormholes string is made of the trailing
    characters of the anomalies whose names start with [Wormhole]. *)
Theorem tile_absolute_value (id : Z) (c : string)
  (ps : list Tile.planet_row) (ans : option (list string)) :
  let x := Tile.post_init id c ps ans in
  Tile.wormholes x = wormholes_of ans /\
  Tile.absolute_value x
  = Tile.resources x + Tile.influence x
    + 2 * Z.of_nat (String.length (Tile.technology x))
    + (if decide (distinct_wormholes (Tile.wormholes x)) then 1 else 0).
Proof.
  unfold Tile.post_init.
  destruct (fold_left Tile.add_planet ps (0, 0, ""%string)) as [[r i] tech].
  cbn [Tile.wormholes Tile.absolute_value Tile.resources Tile.influence
       Tile.technology].
  split.
  - unfold wormholes_of. destruct ans as [l |]; [| done].
    rewrite fold_add_anomaly, append_nil_l. f_equal.
    apply list_fmap_ext. intros _ a _. apply last_char_trailing.
  - rewrite wormhole_bonus_spec. lia.
Qed.

Lemma tile_absolute_value_witness :
  let x := Tile.post_init 31 "red" [Tile.mk_row "Quann" 2 1 "G" "cultural"]
             (Some ["Wormhole-A"; "Nebula"; "Wormhole-B"]%string) in
  let y := Tile.post_init 32 "red" []
             (Some ["Wormhole-A"; "Wormhole-A"]%string) in
  (Tile.wormholes x = "AB"%string /\ Tile.absolute_value x = 6) /\
  (Tile.wormholes y = "AA"%string /\ Tile.absolute_value y = 0).
Proof.
  split.
  - destruct (tile_absolute_value 31 "red"
                [Tile.mk_row "Quann" 2 1 "G" "cultural"]
                (Some ["Wormhole-A"; "Nebula"; "Wormhole-B"]%string))
      as [H1 H2].
    split; [exact H1 | exact H2].
  - destruct (tile_absolute_value 32 "red" []
                (Some ["Wormhole-A"; "Wormhole-A"]%string)) as [H1 H2].
    split; [exact H1 | exact H2].
Defined.

(** *** Slice aggregates *)

Lemma fold_add_tile (l l0 : list Tile.t) (r i : Z) (t w : string) (a : Z) :
  fold_left Slice.add_tile l (Slice.mk l0 r i t w a)
  = Slice.mk l0
      (r + sum_all (Tile.resources <$> l))
      (i + sum_all (Tile.influence <$> l))
      (t +:+ concat_all (Tile.technology <$> l))
      (w +:+ concat_all (Tile.wormholes <$> l))
      (a + sum_all (Tile.absolute_value <$> l)).
Proof.
  revert r i t w a. induction l as [| x l IH]; intros r i t w a.
  - cbn. rewrite !append_empty_r, !Z.add_0_r. done.
  - cbn [fold_left]. unfold Slice.add_tile at 2. cbn [Slice.tiles
      Slice.resources Slice.influence Slice.technology Slice.wormholes
      Slice.absolute_value].
    rewrite IH. cbn [fmap list_fmap sum_all concat_all foldr].
    rewrite !append_assoc, <- !Z.add_assoc. done.
Qed.

Lemma update_values_tiles (s : Slice.t) :
  Slice.tiles (Slice.update_values s) = Slice.tiles s.
Proof. unfold Slice.update_values. by rewrite fold_add_tile. Qed.

Lemma update_values_current (s : Slice.t) :
  aggregates_current (Slice.update_values s).
Proof.
  unfold Slice.update_values, aggregates_current.
  rewrite fold_add_tile. cbn. done.
Qed.

Lemma add_tiles (x : Tile.t) (s : Slice.t) :
  Slice.tiles (Slice.add x s) = Slice.tiles s ++ [x].
Proof. unfold Slice.add. by rewrite update_values_tiles. Qed.

Lemma init_tiles (l : list Tile.t) : Slice.tiles (Slice.init l) = l.
Proof. unfold Slice.init. by rewrite update_values_tiles. Qed.

Lemma with_tiles_same (s : Slice.t) (l : list Tile.t) :
  same_aggregates s (Slice.with_tiles s l).
Proof. by unfold same_aggregates. Qed.

Lemma remove_best_tile_same (c : string) (s : Slice.t) :
  same_aggregates s (Slice.remove_best_tile c s).2.
Proof.
  unfold Slice.remove_best_tile. destruct (pop_first _ _) as [r l].
  apply with_tiles_same.
Qed.

Lemma remove_worst_tile_same (c : string) (s : Slice.t) :
  same_aggregates s (Slice.remove_worst_tile c s).2.
Proof.
  unfold Slice.remove_worst_tile. destruct (pop_first _ _) as [r l].
  apply with_tiles_same.
Qed.

Lemma remove_excessive_tile_same (s s' : Slice.t) (x : Tile.t) :
  Slice.remove_excessive_tile s = Ok (x, s') -> same_aggregates s s'.
Proof.
  unfold Slice.remove_excessive_tile. intros H.
  apply bind_Ok in H as ([y l] & _ & [= _ <-]). apply with_tiles_same.
Qed.

(** C3, as the code has it: the aggregate fields are those of the
    current members after the construction of a slice and after every
    [add]; [remove_best_tile], [remove_worst_tile] and
    [remove_excessive_tile] change the members only and leave every
    aggregate field as it was. *)
Theorem slice_aggregates :
  (forall l : list Tile.t, aggregates_current (Slice.init l)) /\
  (forall (x : Tile.t) (s : Slice.t),
     Slice.tiles (Slice.add x s) = Slice.tiles s ++ [x] /\
     aggregates_current (Slice.add x s)) /\
  (forall (c : string) (s : Slice.t),
     same_aggregates s (Slice.remove_best_tile c s).2) /\
  (forall (c : string) (s : Slice.t),
     same_aggregates s (Slice.remove_worst_tile c s).2) /\
  (forall (s s' : Slice.t) (x : Tile.t),
     Slice.remove_excessive_tile s = Ok (x, s') -> same_aggregates s s').
Proof.
  split; [intros l; apply update_values_current |].
  split; [intros x s; split; [apply add_tiles | apply update_values_current] |].
  split; [apply remove_best_tile_same |].
  split; [apply remove_worst_tile_same | apply remove_excessive_tile_same].
Qed.

Lemma slice_aggregates_witness :
  let s := Slice.init [sample_tile 2 "red" 0 2; sample_tile 1 "blue" 1 0;
                       sample_tile 3 "red" 0 3] in
  let s' := Slice.with_tiles s
              [sample_tile 2 "red" 0 2; sample_tile 1 "blue" 1 0] in
  Slice.remove_excessive_tile s = Ok (sample_tile 3 "red" 0 3, s') /\
  same_aggregates s s'.
Proof.
  intros s s'.
  assert (Hrun : Slice.remove_excessive_tile s
                 = Ok (sample_tile 3 "red" 0 3, s')) by reflexivity.
  split; [exact Hrun |].
  destruct slice_aggregates as (_ & _ & _ & _ & H).
  exact (H s s' (sample_tile 3 "red" 0 3) Hrun).
Defined.

(** C3 as stated fails on the removals: a slice of one blue tile of
    value 1 keeps the value 1 once that tile has been removed, by any of
    the three operations. *)
Lemma remove_tile_aggregates_counterexample :
  let s := Slice.init [sample_tile 1 "blue" 1 0] in
  aggregates_current s /\
  Slice.tiles (Slice.remove_best_tile "blue" s).2 = [] /\
  ~ aggregates_current (Slice.remove_best_tile "blue" s).2 /\
  ~ aggregates_current (Slice.remove_worst_tile "blue" s).2 /\
  exists s', Slice.remove_excessive_tile s = Ok (sample_tile 1 "blue" 1 0, s')
             /\ ~ aggregates_current s'.
Proof.
  cbv zeta. split; [apply update_values_current |].
  split; [reflexivity |].
  split; [intros (H & _); vm_compute in H; discriminate H |].
  split; [intros (H & _); vm_compute in H; discriminate H |].
  eexists. split; [reflexivity |].
  intros (H & _). vm_compute in H. discriminate H.
Qed.

(** *** The balance check *)

Lemma lt_one_and_a_half_spec (a b : Z) :
  (inject_Z a < (3 # 2) * inject_Z b)%Q <-> 2 * a < 3 * b.
Proof. unfold Qlt. cbn. lia. Qed.

Lemma is_slice_unbalanced_spec (s : Slice.t) :
  Slice.is_slice_unbalanced s = true <-> skewed s.
Proof.
  unfold Slice.is_slice_unbalanced, skewed.
  destruct (Z.leb_spec (2 * Slice.influence s) (Slice.resources s));
    [tauto |].
  destruct (Z.leb_spec (2 * Slice.resources s) (Slice.influence s));
    [tauto |].
  split; [done | lia].
Qed.

Lemma all_balanced_spec (slices : list Slice.t) :
  all_balanced slices = true <-> forall s, s ∈ slices -> ~ skewed s.
Proof.
  induction slices as [| s rest IH]; cbn.
  - split; [| done]. intros _ s Hs. by apply elem_of_nil in Hs.
  - pose proof (is_slice_unbalanced_spec s) as Hs.
    destruct (Slice.is_slice_unbalanced s).
    + split; [done |]. intros H. exfalso.
      apply (H s); [left | by apply Hs].
    + rewrite IH. split.
      * intros H s' [-> | Hin]%elem_of_cons; [| by apply H].
        intros Hsk. apply Hs in Hsk. done.
      * intros H s' Hin. apply H. by right.
Qed.

Lemma fold_max_spec (l : list Slice.t) (x : Slice.t) :
  let m := fold_left (fun m y => if Slice.gt y m then y else m) l x in
  m ∈ x :: l /\
  forall y, y ∈ x :: l -> Slice.absolute_value y <= Slice.absolute_value m.
Proof.
  revert x. induction l as [| y l IH]; intros x; cbn [fold_left].
  - split; [left |]. intros y ->%list_elem_of_singleton. lia.
  - destruct (IH (if Slice.gt y x then y else x)) as [Hin Hle].
    split.
    + apply elem_of_cons in Hin as [-> | Hin].
      * destruct (Slice.gt y x); [right; left | left].
      * right. by right.
    + intros z Hz. 
      assert (Hyx : Slice.absolute_value x
                    <= Slice.absolute_value (if Slice.gt y x then y else x)
                    /\ Slice.absolute_value y
                    <= Slice.absolute_value (if Slice.gt y x then y else x)).
      { unfold Slice.gt, Slice.lt, Slice.eq.
        destruct (Z.ltb_spec (Slice.absolute_value y) (Slice.absolute_value x)),
          (Z.eqb_spec (Slice.absolute_value y) (Slice.absolute_value x));
          cbn; lia. }
      apply elem_of_cons in Hz as [-> | [-> | Hz]%elem_of_cons].
      * etransitivity; [apply Hyx | apply Hle; left].
      * etransitivity; [apply Hyx | apply Hle; left].
      * apply Hle. by right.
Qed.

Lemma fold_min_spec (l : list Slice.t) (x : Slice.t) :
  let m := fold_left (fun m y => if Slice.lt y m then y else m) l x in
  m ∈ x :: l /\
  forall y, y ∈ x :: l -> Slice.absolute_value m <= Slice.absolute_value y.
Proof.
  revert x. induction l as [| y l IH]; intros x; cbn [fold_left].
  - split; [left |]. intros y ->%list_elem_of_singleton. lia.
  - destruct (IH (if Slice.lt y x then y else x)) as [Hin Hle].
    split.
    + apply elem_of_cons in Hin as [-> | Hin].
      * destruct (Slice.lt y x); [right; left | left].
      * right. by right.
    + intros z Hz.
      assert (Hyx : Slice.absolute_value (if Slice.lt y x then y else x)
                    <= Slice.absolute_value x
                    /\ Slice.absolute_value (if Slice.lt y x then y else x)
                    <= Slice.absolute_value y).
      { unfold Slice.lt.
        destruct (Z.ltb_spec (Slice.absolute_value y) (Slice.absolute_value x));
          lia. }
      apply elem_of_cons in Hz as [-> | [-> | Hz]%elem_of_cons].
      * etransitivity; [apply Hle; left | apply Hyx].
      * etransitivity; [apply Hle; left | apply Hyx].
      * apply Hle. by right.
Qed.

Lemma py_max_greatest (slices : list Slice.t) (best : Slice.t) :
  py_max Slice.gt slices = Ok best ->
  greatest (Slice.absolute_value best) (Slice.absolute_value <$> slices).
Proof.
  destruct slices as [| x l]; cbn [py_max]; [done |]. intros [= <-].
  destruct (fold_max_spec l x) as [Hin Hle]. split.
  - by apply list_elem_of_fmap_2.
  - intros v (y & -> & Hy)%list_elem_of_fmap. by apply Hle.
Qed.

Lemma py_min_least (slices : list Slice.t) (worst : Slice.t) :
  py_min Slice.lt slices = Ok worst ->
  least (Slice.absolute_value worst) (Slice.absolute_value <$> slices).
Proof.
  destruct slices as [| x l]; cbn [py_min]; [done |]. intros [= <-].
  destruct (fold_min_spec l x) as [Hin Hle]. split.
  - by apply list_elem_of_fmap_2.
  - intros v (y & -> & Hy)%list_elem_of_fmap. by apply Hle.
Qed.

Lemma greatest_unique (M M' : Z) (l : list Z) :
  greatest M l -> greatest M' l -> M = M'.
Proof. intros [H1 H2] [H3 H4]. apply H2 in H3. apply H4 in H1. lia. Qed.

Lemma least_unique (m m' : Z) (l : list Z) :
  least m l -> least m' l -> m = m'.
Proof. intros [H1 H2] [H3 H4]. apply H2 in H3. apply H4 in H1. lia. Qed.

(** What [check_slice_balance] returns on a list that is not empty. *)
Lemma check_slice_balance_cons (x : Slice.t) (l : list Slice.t) :
  exists best worst,
    py_max Slice.gt (x :: l) = Ok best /\
    py_min Slice.lt (x :: l) = Ok worst /\
    check_slice_balance (x :: l)
    = (much_better ← ge_one_and_a_half (Slice.absolute_value best)
                       (Slice.absolute_value worst);
       Ok (negb much_better && all_balanced (x :: l))).
Proof.
  eexists _, _. split; [reflexivity |]. split; [reflexivity |].
  unfold check_slice_balance. cbn [py_max py_min mbind outcome_bind].
  by destruct (ge_one_and_a_half _ _) as [[|] | |].
Qed.

(** On slices in the exact range the check compares [2 * max] with
    [3 * min]. *)
Lemma check_slice_balance_small (x : Slice.t) (l : list Slice.t) :
  Forall small (x :: l) ->
  exists best worst,
    greatest (Slice.absolute_value best) (Slice.absolute_value <$> x :: l) /\
    least (Slice.absolute_value worst) (Slice.absolute_value <$> x :: l) /\
    check_slice_balance (x :: l)
    = Ok (negb (3 * Slice.absolute_value worst <=? 2 * Slice.absolute_value best)
          && all_balanced (x :: l)).
Proof.
  intros Hsmall.
  destruct (check_slice_balance_cons x l) as (best & worst & Hb & Hw & ->).
  exists best, worst.
  split; [by apply py_max_greatest |]. split; [by apply py_min_least |].
  rewrite ge_one_and_a_half_exact; [done |].
  rewrite Forall_forall in Hsmall. apply Hsmall.
  destruct l as [| y l']; cbn in Hw; injection Hw as <-; [left |].
  by destruct (fold_min_spec l' (if Slice.lt y x then y else x))
    as [[-> | Hin]%elem_of_cons _];
    [destruct (Slice.lt y x); [right; left | left] | do 2 right].
Qed.

(** A skewed slice keeps the check from returning [True]. *)
Lemma check_slice_balance_skewed (slices : list Slice.t) (s : Slice.t) :
  s ∈ slices -> skewed s -> check_slice_balance slices <> Ok true.
Proof.
  intros Hin Hsk. destruct slices as [| x l]; [done |].
  destruct (check_slice_balance_cons x l) as (best & worst & _ & _ & ->).
  destruct (all_balanced (x :: l)) eqn:Hall.
  - exfalso. by apply (proj1 (all_balanced_spec (x :: l)) Hall s).
  - destruct (ge_one_and_a_half _ _) as [r | e |]; cbn; [| done | done].
    by rewrite andb_false_r.
Qed.

(** C1: on slices whose absolute values are in the range where the
    float product by 1.5 is exact, [check_slice_balance] returns [True]
    exactly when the greatest absolute value of the slices is less than
    1.5 times the least one and no slice is skewed past the 2x threshold;
    on such a list that is not empty it always returns a boolean.  It
    never returns [True] when one slice is skewed, whatever the spread,
    and returns [False] then on slices in that range. *)
Theorem check_slice_balance_iff :
  (forall slices : list Slice.t,
     Forall small slices ->
     check_slice_balance slices = Ok true <-> balanced slices) /\
  (forall slices : list Slice.t,
     slices <> [] -> Forall small slices ->
     exists b : bool, check_slice_balance slices = Ok b) /\
  (forall (slices : list Slice.t) (s : Slice.t),
     s ∈ slices -> skewed s ->
     check_slice_balance slices <> Ok true /\
     (Forall small slices -> check_slice_balance slices = Ok false)).
Proof.
  split; [| split].
  - intros [| x l] Hsmall.
    + split; [done |]. intros [(M & _ & [HM _] & _) _].
      by apply elem_of_nil in HM.
    + destruct (check_slice_balance_small x l Hsmall)
        as (best & worst & Hb & Hw & ->).
      pose proof (all_balanced_spec (x :: l)) as Hall.
      split.
      * intros [= [Hspread Hsk]%andb_true_iff]. split; [| by apply Hall].
        exists (Slice.absolute_value best), (Slice.absolute_value worst).
        split; [done |]. split; [done |].
        apply lt_one_and_a_half_spec.
        apply negb_true_iff, Z.leb_gt in Hspread. lia.
      * intros [(M & m & HM & Hm & Hlt) Hsk].
        rewrite (greatest_unique _ _ _ HM Hb) in Hlt.
        rewrite (least_unique _ _ _ Hm Hw) in Hlt.
        apply lt_one_and_a_half_spec in Hlt.
        apply Hall in Hsk. rewrite Hsk, andb_true_r. f_equal.
        apply negb_true_iff, Z.leb_gt. lia.
  - intros [| x l] Hne Hsmall; [done |].
    destruct (check_slice_balance_small x l Hsmall) as (b & w & _ & _ & ->).
    eauto.
  - intros slices s Hin Hsk.
    split; [by apply (check_slice_balance_skewed slices s) |].
    destruct slices as [| x l]; [by apply elem_of_nil in Hin |].
    intros Hsmall.
    destruct (check_slice_balance_small x l Hsmall) as (b & w & _ & _ & ->).
    destruct (all_balanced (x :: l)) eqn:Hall.
    + exfalso. by apply (proj1 (all_balanced_spec (x :: l)) Hall s).
    + by rewrite andb_false_r.
Qed.

Lemma check_slice_balance_iff_witness :
  check_slice_balance
    [Slice.init [sample_tile 1 "blue" 1 1];
     Slice.init [sample_tile 2 "blue" 4 1]] = Ok false.
Proof.
  destruct check_slice_balance_iff as (_ & _ & H).
  apply (H _ (Slice.init [sample_tile 2 "blue" 4 1])).
  - right. left.
  - left. vm_compute. discriminate.
  - repeat constructor.
Defined.

(** *** Shuffling, sorting and popping rearrange a list *)

Lemma swap_Permutation {A : Type} (x : list A) (i j : nat) : swap x i j ≡ₚ x.
Proof.
  unfold swap. destruct (x !! i) as [xi |] eqn:Hi; [| done].
  destruct (x !! j) as [xj |] eqn:Hj; [| done].
  by apply Permutation_insert_swap.
Qed.

Lemma shuffle_from_Permutation {A : Type} (i : nat) (x : list A) (g : Random) :
  (shuffle_from i x g).1 ≡ₚ x.
Proof.
  revert x g. induction i as [| i IH]; intros x g; cbn [shuffle_from]; [done |].
  destruct (randbelow (S i) g) as [j g'].
  etransitivity; [apply IH | apply swap_Permutation].
Qed.

Lemma shuffle_Permutation {A : Type} (x : list A) (g : Random) :
  (shuffle x g).1 ≡ₚ x.
Proof. apply shuffle_from_Permutation. Qed.

Lemma insert_by_Permutation {A : Type} (before : A -> A -> bool) (x : A)
  (l : list A) :
  insert_by before x l ≡ₚ x :: l.
Proof.
  induction l as [| y l IH]; cbn; [done |].
  destruct (before y x); [| done].
  rewrite IH. apply Permutation_swap.
Qed.

Lemma sort_by_Permutation {A : Type} (before : A -> A -> bool) (l : list A) :
  sort_by before l ≡ₚ l.
Proof.
  induction l as [| x l IH]; cbn; [done |].
  by rewrite insert_by_Permutation, IH.
Qed.

Lemma pop_first_Some {A : Type} (p : A -> bool) (l l' : list A) (x : A) :
  pop_first p l = (Some x, l') ->
  exists l1 l2,
    l = l1 ++ x :: l2 /\ l' = l1 ++ l2 /\ p x = true
    /\ Forall (fun y => p y = false) l1.
Proof.
  revert l'. induction l as [| y l IH]; intros l'; cbn; [done |].
  destruct (p y) eqn:Hy.
  - intros [= -> ->]. by exists [], l'.
  - destruct (pop_first p l) as [r l''] eqn:Hpop. intros [= -> <-].
    destruct (IH l'' eq_refl) as (l1 & l2 & -> & -> & Hx & Hl1).
    exists (y :: l1), l2. repeat split; [done |]. by constructor.
Qed.

Lemma pop_first_None {A : Type} (p : A -> bool) (l l' : list A) :
  pop_first p l = (None, l') -> l' = l /\ Forall (fun y => p y = false) l.
Proof.
  revert l'. induction l as [| y l IH]; intros l'; cbn.
  - by intros [= <-].
  - destruct (p y) eqn:Hy; [done |].
    destruct (pop_first p l) as [r l''] eqn:Hpop. intros [= -> <-].
    destruct (IH l'' eq_refl) as [-> Hl]. split; [done | by constructor].
Qed.

Lemma pop_n_enough {A : Type} (n : nat) (acc l : list A) :
  (n <= length l)%nat -> pop_n n acc l = Ok (acc ++ take n l, drop n l).
Proof.
  revert acc l. induction n as [| n IH]; intros acc l Hn; cbn [pop_n].
  - by rewrite take_0, app_nil_r, drop_0.
  - destruct l as [| x l]; cbn in Hn; [lia |]. cbn [pop0 mbind outcome_bind].
    rewrite IH by lia. cbn [take drop]. by rewrite <- app_assoc.
Qed.

(** *** Building the slices *)

Lemma deal_enough (k : nat) (slices : list Slice.t)
  (red_tiles blue_tiles : list Tile.t) :
  (2 * k <= length red_tiles)%nat -> (3 * k <= length blue_tiles)%nat ->
  deal k slices red_tiles blue_tiles
  = Ok (slices ++ dealt k red_tiles blue_tiles).
Proof.
  revert slices red_tiles blue_tiles.
  induction k as [| k IH]; intros slices red blue Hr Hb; cbn [deal dealt].
  - by rewrite app_nil_r.
  - rewrite (pop_n_enough 2) by lia. cbn [mbind outcome_bind].
    rewrite (pop_n_enough 3) by lia. cbn [mbind outcome_bind].
    rewrite IH by (rewrite length_drop; lia).
    by rewrite <- app_assoc.
Qed.

Lemma dealt_length (k : nat) (red_tiles blue_tiles : list Tile.t) :
  length (dealt k red_tiles blue_tiles) = k.
Proof.
  revert red_tiles blue_tiles. induction k as [| k IH]; intros r b; cbn;
    [done | by rewrite IH].
Qed.

Lemma dealt_tiles (k : nat) (red_tiles blue_tiles : list Tile.t) :
  (2 * k <= length red_tiles)%nat -> (3 * k <= length blue_tiles)%nat ->
  concat (Slice.tiles <$> dealt k red_tiles blue_tiles)
  ≡ₚ take (2 * k) red_tiles ++ take (3 * k) blue_tiles.
Proof.
  revert red_tiles blue_tiles.
  induction k as [| k IH]; intros r b Hr Hb; [done |].
  cbn [dealt fmap list_fmap concat]. rewrite init_tiles.
  rewrite IH by (rewrite length_drop; lia).
  replace (2 * S k)%nat with (2 + 2 * k)%nat by lia.
  replace (3 * S k)%nat with (3 + 3 * k)%nat by lia.
  rewrite <- !take_take_drop.
  rewrite <- !app_assoc. apply Permutation_app_head.
  rewrite !app_assoc. apply Permutation_app_tail, Permutation_app_comm.
Qed.

Lemma filter_all {A : Type} (p : A -> bool) (l : list A) :
  Forall (fun x => p x = true) l -> List.filter p l = l.
Proof.
  induction 1 as [| x l Hx _ IH]; cbn; [done |]. by rewrite Hx, IH.
Qed.

Lemma filter_none {A : Type} (p : A -> bool) (l : list A) :
  Forall (fun x => p x = false) l -> List.filter p l = [].
Proof.
  induction 1 as [| x l Hx _ IH]; cbn; [done |]. by rewrite Hx, IH.
Qed.

Lemma filter_Forall {A : Type} (p : A -> bool) (l : list A) :
  Forall (fun x => p x = true) (List.filter p l).
Proof.
  induction l as [| x l IH]; cbn; [constructor |].
  destruct (p x) eqn:Hx; [by constructor | done].
Qed.

Lemma has_color_eq (c : string) (x : Tile.t) :
  Tile.has_color c x = true <-> Tile.color x = c.
Proof. unfold Tile.has_color. apply String.eqb_eq. Qed.

Lemma red_not_blue (x : Tile.t) :
  Tile.has_color "red" x = true -> Tile.has_color "blue" x = false.
Proof.
  intros H%has_color_eq. unfold Tile.has_color. by rewrite H.
Qed.

Lemma blue_not_red (x : Tile.t) :
  Tile.has_color "blue" x = true -> Tile.has_color "red" x = false.
Proof.
  intros H%has_color_eq. unfold Tile.has_color. by rewrite H.
Qed.

Lemma red_blue_split (pool : list Tile.t) :
  Forall red_or_blue pool ->
  List.filter (Tile.has_color "red") pool
  ++ List.filter (Tile.has_color "blue") pool ≡ₚ pool.
Proof.
  induction 1 as [| x l [Hx | Hx] _ IH]; cbn; [done | |].
  - pose proof (proj2 (has_color_eq "red" x) Hx) as Hr.
    rewrite Hr, (red_not_blue x Hr). cbn. by rewrite IH.
  - pose proof (proj2 (has_color_eq "blue" x) Hx) as Hb.
    rewrite Hb, (blue_not_red x Hb).
    rewrite <- Permutation_middle. by rewrite IH.
Qed.

Lemma dealt_colors (k : nat) (red_tiles blue_tiles : list Tile.t) :
  Forall (fun x => Tile.has_color "red" x = true) red_tiles ->
  Forall (fun x => Tile.has_color "blue" x = true) blue_tiles ->
  (2 * k <= length red_tiles)%nat -> (3 * k <= length blue_tiles)%nat ->
  Forall two_red_three_blue (dealt k red_tiles blue_tiles).
Proof.
  revert red_tiles blue_tiles.
  induction k as [| k IH]; intros r b Hr Hb Hlr Hlb; cbn [dealt];
    constructor.
  - unfold two_red_three_blue. rewrite init_tiles, !List.filter_app.
    assert (Hr2 : Forall (fun x => Tile.has_color "red" x = true) (take 2 r))
      by by apply Forall_take.
    assert (Hb3 : Forall (fun x => Tile.has_color "blue" x = true) (take 3 b))
      by by apply Forall_take.
    rewrite (filter_all _ _ Hr2), (filter_all _ _ Hb3).
    rewrite (filter_none (Tile.has_color "red") (take 3 b))
      by (eapply Forall_impl; [exact Hb3 | apply blue_not_red]).
    rewrite (filter_none (Tile.has_color "blue") (take 2 r))
      by (eapply Forall_impl; [exact Hr2 | apply red_not_blue]).
    rewrite !length_app, !length_take. cbn [length]. lia.
  - apply IH; [by apply Forall_drop | by apply Forall_drop | |];
      rewrite length_drop; lia.
Qed.

(** With 12 red and 18 blue tiles [generate_slices] deals the two
    shuffled lists out. *)
Lemma generate_slices_run (pool : list Tile.t) (g : Random) :
  length (List.filter (Tile.has_color "red") pool) = 12%nat ->
  length (List.filter (Tile.has_color "blue") pool) = 18%nat ->
  exists (red_tiles blue_tiles : list Tile.t) (g' : Random),
    red_tiles ≡ₚ List.filter (Tile.has_color "red") pool /\
    blue_tiles ≡ₚ List.filter (Tile.has_color "blue") pool /\
    generate_slices pool 6 g = Ok (dealt 6 red_tiles blue_tiles, g').
Proof.
  intros Hred Hblue. unfold generate_slices.
  change (negb (6 =? 6)) with false. cbv iota.
  change (Z.to_nat 6) with 6%nat.
  pose proof (shuffle_Permutation
                (List.filter (Tile.has_color "red") pool) g) as Hpr.
  destruct (shuffle (List.filter (Tile.has_color "red") pool) g)
    as [red_tiles g1].
  pose proof (shuffle_Permutation
                (List.filter (Tile.has_color "blue") pool) g1) as Hpb.
  destruct (shuffle (List.filter (Tile.has_color "blue") pool) g1)
    as [blue_tiles g2].
  cbn [fst] in Hpr, Hpb.
  exists red_tiles, blue_tiles, g2. split; [done |]. split; [done |].
  rewrite deal_enough; [done | |].
  - rewrite (Permutation_length Hpr). lia.
  - rewrite (Permutation_length Hpb). lia.
Qed.

(** All the tiles of the slices dealt from the shuffled red and blue
    tiles of a pool of both colours only are the tiles of the pool. *)
Lemma dealt_all_tiles (pool red_tiles blue_tiles : list Tile.t) (k : nat) :
  red_tiles ≡ₚ List.filter (Tile.has_color "red") pool ->
  blue_tiles ≡ₚ List.filter (Tile.has_color "blue") pool ->
  length red_tiles = (2 * k)%nat ->
  length blue_tiles = (3 * k)%nat ->
  Forall red_or_blue pool ->
  all_tiles (dealt k red_tiles blue_tiles) ≡ₚ pool.
Proof.
  intros Hpr Hpb Hlr Hlb Hpool.
  unfold all_tiles. rewrite dealt_tiles by lia.
  rewrite !firstn_all2 by lia.
  rewrite Hpr, Hpb. by apply red_blue_split.
Qed.

(** C5: from a pool of exactly 12 red and 18 blue tiles, and nothing
    else, [generate_slices] with [k = 6] returns six slices, each of two
    red and three blue tiles, and the tiles of the six slices are the
    tiles of the pool, each as many times as the pool has it. *)
Theorem generate_slices_partition (pool : list Tile.t) (g : Random) :
  length (List.filter (Tile.has_color "red") pool) = 12%nat ->
  length (List.filter (Tile.has_color "blue") pool) = 18%nat ->
  Forall red_or_blue pool ->
  exists (slices : list Slice.t) (g' : Random),
    generate_slices pool 6 g = Ok (slices, g') /\
    length slices = 6%nat /\
    Forall two_red_three_blue slices /\
    all_tiles slices ≡ₚ pool.
Proof.
  intros Hred Hblue Hpool.
  destruct (generate_slices_run pool g Hred Hblue)
    as (red_tiles & blue_tiles & g' & Hpr & Hpb & Hrun).
  assert (Hlr : length red_tiles = 12%nat)
    by (by rewrite (Permutation_length Hpr)).
  assert (Hlb : length blue_tiles = 18%nat)
    by (by rewrite (Permutation_length Hpb)).
  exists (dealt 6 red_tiles blue_tiles), g'.
  split; [exact Hrun |]. split; [apply dealt_length |]. split.
  - apply dealt_colors; [| | lia | lia].
    + rewrite Hpr. apply filter_Forall.
    + rewrite Hpb. apply filter_Forall.
  - by apply (dealt_all_tiles pool).
Qed.

Lemma generate_slices_partition_witness :
  exists (slices : list Slice.t) (g' : Random),
    generate_slices sample_pool 6 sample_random = Ok (slices, g') /\
    length slices = 6%nat /\
    Forall two_red_three_blue slices /\
    all_tiles slices ≡ₚ sample_pool.
Proof.
  apply (generate_slices_partition sample_pool sample_random).
  - reflexivity.
  - reflexivity.
  - unfold sample_pool. apply Forall_app. split.
    + apply Forall_fmap, Forall_forall. intros k _. by left.
    + apply Forall_fmap, Forall_forall. intros k _. by right.
Defined.

(** *** Placing the tiles of a slice *)

Lemma filter_tiles_color (c : string) (l : list Tile.t) :
  c <> EmptyString ->
  Slice.filter_tiles (Some c) l = List.filter (Tile.has_color c) l.
Proof.
  intros Hc. unfold Slice.filter_tiles. apply List.filter_ext. intros x.
  unfold Tile.has_color. destruct c; [done |]. cbn [String.length Nat.eqb negb].
  by destruct (String.eqb _ _).
Qed.

Lemma red_loop_app (l1 l2 : list Tile.t) (st : Slice.placing) :
  Slice.red_loop (l1 ++ l2) st
  = Slice.red_loop l1 st ≫= Slice.red_loop l2.
Proof.
  revert st. induction l1 as [| x l1 IH]; intros st; cbn [Slice.red_loop app].
  - done.
  - destruct (Slice.put x st) as [st' | e |]; cbn [mbind outcome_bind];
      [apply IH | done | done].
Qed.

Lemma blue_loop_later (m : bool) (i : nat) (l : list Tile.t)
  (st : Slice.placing) :
  Slice.blue_loop m (S i) l st = Slice.red_loop l st.
Proof.
  revert i st. induction l as [| x l IH]; intros i st; cbn [Slice.blue_loop
    Slice.red_loop]; [done |].
  unfold Slice.put_blue. destruct st as [[result na] g].
  cbn [Nat.eqb andb].
  destruct (Slice.put x (result, na, g)) as [st' | e |];
    cbn [mbind outcome_bind]; [apply IH | done | done].
Qed.

Lemma insert_at_Permutation {A : Type} (k : nat) (x : A) (l : list A) :
  Slice.insert_at k x l ≡ₚ x :: l.
Proof.
  unfold Slice.insert_at. rewrite <- Permutation_middle.
  by rewrite take_drop.
Qed.

(** The first round of the loop over the blue tiles puts slot 0 somewhere
    among the four candidates and then places the tile. *)
Lemma put_blue_first (m : bool) (x : Tile.t) (result : list (option Tile.t))
  (na : list nat) (g : Random) :
  length na = 4%nat ->
  exists (k : nat) (g' : Random),
    Slice.put_blue m 0 x (result, na, g)
    = Slice.put x (result, Slice.insert_at k 0%nat na, g').
Proof.
  intros Hna. unfold Slice.put_blue. cbn [Nat.eqb andb].
  destruct m.
  - by exists 0%nat, g.
  - rewrite Hna. unfold randint. cbn [Z.of_nat Z.sub Z.add Z.leb].
    change (Z.of_nat 4 - 1 - 0 + 1 <=? 0) with false. cbv iota.
    destruct (randbelow _ g) as [r g'] eqn:Hr.
    cbn [mbind outcome_bind]. by exists (Z.to_nat (0 + Z.of_nat r)), g'.
Qed.

Lemma red_loop_fill (l : list Tile.t) (result : list (option Tile.t))
  (positions : list nat) (g : Random) :
  (length l <= length positions)%nat ->
  Slice.red_loop l (result, positions, g)
  = Ok (fill result positions l, drop (length l) positions, g).
Proof.
  revert result positions.
  induction l as [| x l IH]; intros result positions Hlen;
    cbn [Slice.red_loop fill length].
  - by rewrite drop_0.
  - destruct positions as [| p ps]; cbn in Hlen; [lia |].
    cbn [Slice.put pop0 mbind outcome_bind drop].
    apply IH. lia.
Qed.

Lemma filled_insert (r : list (option Tile.t)) (p : nat) (x : Tile.t) :
  r !! p = Some None -> filled (<[p := Some x]> r) ≡ₚ x :: filled r.
Proof.
  unfold filled. revert p.
  induction r as [| o r IH]; intros [| p] Hp; simplify_eq/=; [done |].
  destruct o as [y |]; simpl.
  - rewrite (IH p Hp). apply Permutation_swap.
  - by apply IH.
Qed.

(** Membership in a list that is written out, of numbers. *)
Ltac members := rewrite ?elem_of_cons, ?elem_of_nil; lia.

Lemma fill_app (r : list (option Tile.t)) (positions : list nat)
  (l1 l2 : list Tile.t) :
  (length l1 <= length positions)%nat ->
  fill (fill r positions l1) (drop (length l1) positions) l2
  = fill r positions (l1 ++ l2).
Proof.
  revert r positions.
  induction l1 as [| x l1 IH]; intros r positions Hlen; cbn [fill length app].
  - by rewrite drop_0.
  - destruct positions as [| p ps]; cbn in Hlen; [lia |].
    cbn [drop]. apply IH. lia.
Qed.

Lemma fill_spec (l : list Tile.t) (positions : list nat)
  (r : list (option Tile.t)) :
  length l = length positions ->
  NoDup positions ->
  (forall p, p ∈ positions -> r !! p = Some None) ->
  filled (fill r positions l) ≡ₚ l ++ filled r /\
  length (fill r positions l) = length r /\
  (forall q, q ∉ positions -> fill r positions l !! q = r !! q).
Proof.
  revert positions r.
  induction l as [| x l IH]; intros positions r Hlen Hnd Hfree; cbn [fill].
  - done.
  - destruct positions as [| p ps]; [done |].
    apply NoDup_cons in Hnd as [Hp Hnd].
    destruct (IH ps (<[p := Some x]> r)) as (Hperm & Hlength & Hother).
    + cbn in Hlen. lia.
    + done.
    + intros q Hq. rewrite list_lookup_insert_ne by (intros ->; done).
      apply Hfree. by right.
    + split; [| split].
      * rewrite Hperm, filled_insert by (apply Hfree; left).
        cbn [app]. by rewrite Permutation_middle.
      * by rewrite Hlength, length_insert.
      * intros q Hq. apply not_elem_of_cons in Hq as [Hqp Hq].
        rewrite Hother by done. by rewrite list_lookup_insert_ne.
Qed.

Lemma blue_loop_first (m : bool) (b : Tile.t) (bs : list Tile.t)
  (result : list (option Tile.t)) (na : list nat) (g : Random) :
  length na = 4%nat ->
  exists (k : nat) (g' : Random),
    Slice.blue_loop m 0 (b :: bs) (result, na, g)
    = Slice.red_loop (b :: bs) (result, Slice.insert_at k 0%nat na, g').
Proof.
  intros Hna. cbn [Slice.blue_loop Slice.red_loop].
  destruct (put_blue_first m b result na g Hna) as (k & g' & ->).
  exists k, g'.
  destruct (Slice.put b _) as [st' | e |]; cbn [mbind outcome_bind];
    [apply blue_loop_later | done | done].
Qed.

(** For a slice of five tiles, each red or blue and at least one of
    them blue, [place_tiles] returns seven slots; slots 2 and 4 are
    empty, and the filled slots hold the five tiles of the slice, each
    once. *)
Theorem place_tiles_slots (s : Slice.t) (g : Random) :
  length (Slice.tiles s) = 5%nat ->
  Forall red_or_blue (Slice.tiles s) ->
  Exists (fun x => Tile.color x = "blue"%string) (Slice.tiles s) ->
  exists (result : list (option Tile.t)) (g' : Random),
    Slice.place_tiles s g = Ok (result, g') /\
    length result = 7%nat /\
    result !! 2%nat = Some None /\
    result !! 4%nat = Some None /\
    (forall p x, result !! p = Some (Some x) -> p ∈ [0; 1; 3; 5; 6]%nat) /\
    filled result ≡ₚ Slice.tiles s.
Proof.
  intros Hlen Hcol Hblue. unfold Slice.place_tiles.
  pose proof (shuffle_Permutation (Slice.tiles s) g) as Hts.
  destruct (shuffle (Slice.tiles s) g) as [ts g1]. cbn [fst] in Hts.
  pose proof (shuffle_Permutation [1; 3; 5; 6]%nat g1) as Hna.
  destruct (shuffle [1; 3; 5; 6]%nat g1) as [na g2]. cbn [fst] in Hna.
  rewrite !filter_tiles_color by done.
  set (m := (1 <? length (List.filter Tile.has_anomalies ts))%nat).
  assert (Hsplit : List.filter (Tile.has_color "blue") ts
                   ++ List.filter (Tile.has_color "red") ts ≡ₚ ts).
  { rewrite Permutation_app_comm. apply red_blue_split. by rewrite Hts. }
  destruct (List.filter (Tile.has_color "blue") ts) as [| b bs] eqn:Hb.
  { exfalso. rewrite <- Hts in Hblue. apply Exists_exists in Hblue
      as (x & Hx & Hxc).
    assert (Hin : x ∈ List.filter (Tile.has_color "blue") ts).
    { apply list_elem_of_In, List.filter_In. split;
        [by apply list_elem_of_In | by apply has_color_eq]. }
    rewrite Hb in Hin. by apply elem_of_nil in Hin. }
  set (red := List.filter (Tile.has_color "red") ts) in *.
  assert (Hna4 : length na = 4%nat) by (by rewrite (Permutation_length Hna)).
  destruct (blue_loop_first m b bs (replicate 7 None) na g2 Hna4)
    as (k & g3 & ->).
  set (positions := Slice.insert_at k 0%nat na).
  assert (Hpos : positions ≡ₚ [0; 1; 3; 5; 6]%nat).
  { unfold positions. by rewrite insert_at_Permutation, Hna. }
  assert (Hlen5 : length ((b :: bs) ++ red) = length positions).
  { rewrite (Permutation_length Hsplit), (Permutation_length Hts),
      (Permutation_length Hpos). by rewrite Hlen. }
  rewrite length_app in Hlen5.
  rewrite red_loop_fill by lia. cbn [mbind outcome_bind].
  rewrite red_loop_fill by (rewrite length_drop; lia).
  cbn [mbind outcome_bind]. rewrite fill_app by lia.
  destruct (fill_spec ((b :: bs) ++ red) positions (replicate 7 None))
    as (Hperm & Hlength & Hother).
  - by rewrite length_app.
  - rewrite Hpos.
    repeat (apply NoDup_cons; split; [members |]). apply NoDup_nil_2.
  - intros p Hp. rewrite Hpos in Hp. apply lookup_replicate_2.
    rewrite !elem_of_cons, elem_of_nil in Hp. lia.
  - assert (H2 : fill (replicate 7 None) positions ((b :: bs) ++ red)
                 !! 2%nat = Some None)
      by (rewrite Hother; [done |]; rewrite Hpos; members).
    assert (H4 : fill (replicate 7 None) positions ((b :: bs) ++ red)
                 !! 4%nat = Some None)
      by (rewrite Hother; [done |]; rewrite Hpos; members).
    eexists _, _. split; [reflexivity |].
    split; [by rewrite Hlength, length_replicate |].
    split; [done |]. split; [done |]. split.
    + intros p x Hp. pose proof (lookup_lt_Some _ _ _ Hp) as Hlt.
      rewrite Hlength, length_replicate in Hlt.
      assert (p <> 2%nat) by (intros ->; congruence).
      assert (p <> 4%nat) by (intros ->; congruence).
      members.
    + rewrite Hperm. change (filled (replicate 7 None)) with (@nil Tile.t).
      rewrite app_nil_r. by rewrite Hsplit.
Qed.

Lemma place_tiles_slots_witness :
  exists (result : list (option Tile.t)) (g' : Random),
    Slice.place_tiles sample_slice sample_random = Ok (result, g') /\
    length result = 7%nat /\
    result !! 2%nat = Some None /\
    result !! 4%nat = Some None /\
    (forall p x, result !! p = Some (Some x) -> p ∈ [0; 1; 3; 5; 6]%nat) /\
    filled result ≡ₚ Slice.tiles sample_slice.
Proof.
  apply (place_tiles_slots sample_slice sample_random).
  - reflexivity.
  - unfold sample_slice. rewrite init_tiles. apply Forall_app. split.
    + apply Forall_fmap, Forall_forall. intros k _. by left.
    + apply Forall_fmap, Forall_forall. intros k _. by right.
  - unfold sample_slice. rewrite init_tiles.
    apply Exists_app. right. by left.
Defined.

(** On a slice without a blue tile slot 0 never joins the candidate
    positions, so the fifth of five red tiles finds no position left. *)
Lemma place_tiles_all_red_example :
  length (Slice.tiles (Slice.init (sample_tiles 0 5 "red" 1 1))) = 5%nat /\
  Slice.place_tiles (Slice.init (sample_tiles 0 5 "red" 1 1)) sample_random
  = Raise IndexError.
Proof. split; reflexivity. Qed.

(** The slices that reach [place_tiles] need not have the two red and
    three blue tiles they were built with: the second half of a pass
    exchanges tiles whatever their colours. *)
Lemma rebalance_changes_colours :
  two_red_three_blue sample_influence_slice /\
  two_red_three_blue sample_resources_slice /\
  exists s1 s2,
    rebalance_slices [sample_influence_slice; sample_resources_slice]
    = Ok [s1; s2] /\
    length (List.filter (Tile.has_color "red") (Slice.tiles s1)) = 3%nat /\
    length (List.filter (Tile.has_color "blue") (Slice.tiles s1)) = 2%nat.
Proof.
  split; [by vm_compute |]. split; [by vm_compute |].
  eexists _, _. split; [vm_compute; reflexivity |]. by vm_compute.
Qed.

(** *** Sorted lists and the tile that a removal takes *)

Section Sorting.

Context {A : Type} (before : A -> A -> bool) (R : A -> A -> Prop).
Hypothesis R_trans : forall x y z, R x y -> R y z -> R x z.
Hypothesis before_true : forall y x, before y x = true -> R y x.
Hypothesis before_false : forall y x, before y x = false -> R x y.

Lemma insert_by_sorted (x : A) (l : list A) :
  StronglySorted R l -> StronglySorted R (insert_by before x l).
Proof.
  induction 1 as [| y l Hl IH Hy]; cbn [insert_by].
  - constructor; [constructor | constructor].
  - destruct (before y x) eqn:Hyx.
    + constructor; [exact IH |].
      rewrite insert_by_Permutation. constructor; [by apply before_true | done].
    + apply before_false in Hyx.
      constructor; [by constructor |]. constructor; [done |].
      eapply Forall_impl; [exact Hy |]. intros z Hz. by eapply R_trans.
Qed.

Lemma sort_by_sorted (l : list A) : StronglySorted R (sort_by before l).
Proof.
  induction l as [| x l IH]; cbn [sort_by]; [constructor |].
  by apply insert_by_sorted.
Qed.

End Sorting.

Lemma sorted_middle {A : Type} (R : A -> A -> Prop) (l1 l2 : list A) (x : A) :
  StronglySorted R (l1 ++ x :: l2) -> Forall (R x) l2.
Proof.
  induction l1 as [| y l1 IH]; cbn [app]; intros H;
    apply StronglySorted_inv in H as [H1 H2]; [done | by apply IH].
Qed.

Lemma tiles_descending (l : list Tile.t) :
  StronglySorted
    (fun a b => Tile.absolute_value b <= Tile.absolute_value a)
    (sort_by (fun y x => Tile.lt x y) l).
Proof.
  apply sort_by_sorted; unfold Tile.lt.
  - intros x y z. lia.
  - intros y x H%Z.ltb_lt. lia.
  - intros y x H%Z.ltb_ge. lia.
Qed.

Lemma tiles_ascending (l : list Tile.t) :
  StronglySorted
    (fun a b => Tile.absolute_value a <= Tile.absolute_value b)
    (sort_by Tile.lt l).
Proof.
  apply sort_by_sorted; unfold Tile.lt.
  - intros x y z. lia.
  - intros y x H%Z.ltb_lt. lia.
  - intros y x H%Z.ltb_ge. lia.
Qed.

(** The first element with a property, in a sorted list, is extreme
    among the elements with the property. *)
Lemma pop_first_sorted {A : Type} (R : A -> A -> Prop) (p : A -> bool)
  (l sorted : list A) :
  (forall x, R x x) ->
  sorted ≡ₚ l ->
  StronglySorted R sorted ->
  (exists y, y ∈ l /\ p y = true) ->
  exists x rest,
    pop_first p sorted = (Some x, rest) /\
    l ≡ₚ x :: rest /\ x ∈ l /\ p x = true /\
    forall y, y ∈ l -> p y = true -> R x y.
Proof.
  intros Hrefl Hperm Hsorted (y & Hy & Hpy).
  destruct (pop_first p sorted) as [[x |] rest] eqn:Hpop.
  - apply pop_first_Some in Hpop as (l1 & l2 & Hsplit & -> & Hpx & Hl1).
    exists x, (l1 ++ l2). split; [done |].
    assert (Hl : l ≡ₚ x :: l1 ++ l2)
      by (by rewrite <- Hperm, Hsplit, Permutation_middle).
    split; [done |]. split; [rewrite Hl; left |]. split; [done |].
    intros z Hz Hpz. rewrite Hl in Hz.
    apply elem_of_cons in Hz as [-> | Hz]; [apply Hrefl |].
    apply elem_of_app in Hz as [Hz | Hz].
    + rewrite Forall_forall in Hl1. apply Hl1 in Hz. congruence.
    + rewrite Hsplit in Hsorted. apply sorted_middle in Hsorted.
      rewrite Forall_forall in Hsorted. by apply Hsorted.
  - apply pop_first_None in Hpop as [_ Hnone].
    rewrite Forall_forall in Hnone. rewrite <- Hperm in Hy.
    apply Hnone in Hy. congruence.
Qed.

Lemma remove_best_tile_spec (c : string) (s : Slice.t) :
  has_tile_of_color c s ->
  exists x rest,
    Slice.remove_best_tile c s = (Some x, Slice.with_tiles s rest) /\
    Slice.tiles s ≡ₚ x :: rest /\
    highest_of_color c x (Slice.tiles s).
Proof.
  intros (y & Hy & Hc). unfold Slice.remove_best_tile.
  destruct (pop_first_sorted
              (fun a b => Tile.absolute_value b <= Tile.absolute_value a)
              (Tile.has_color c) (Slice.tiles s)
              (sort_by (fun y x => Tile.lt x y) (Slice.tiles s)))
    as (x & rest & -> & Hperm & Hin & Hx & Hmax).
  - intros x. lia.
  - apply sort_by_Permutation.
  - apply tiles_descending.
  - exists y. split; [done | by apply has_color_eq].
  - exists x, rest. split; [done |]. split; [done |].
    split; [done |]. split; [by apply has_color_eq |].
    intros z Hz Hzc. apply Hmax; [done | by apply has_color_eq].
Qed.

Lemma remove_worst_tile_spec (c : string) (s : Slice.t) :
  has_tile_of_color c s ->
  exists x rest,
    Slice.remove_worst_tile c s = (Some x, Slice.with_tiles s rest) /\
    Slice.tiles s ≡ₚ x :: rest /\
    lowest_of_color c x (Slice.tiles s).
Proof.
  intros (y & Hy & Hc). unfold Slice.remove_worst_tile.
  destruct (pop_first_sorted
              (fun a b => Tile.absolute_value a <= Tile.absolute_value b)
              (Tile.has_color c) (Slice.tiles s)
              (sort_by Tile.lt (Slice.tiles s)))
    as (x & rest & -> & Hperm & Hin & Hx & Hmax).
  - intros x. lia.
  - apply sort_by_Permutation.
  - apply tiles_ascending.
  - exists y. split; [done | by apply has_color_eq].
  - exists x, rest. split; [done |]. split; [done |].
    split; [done |]. split; [by apply has_color_eq |].
    intros z Hz Hzc. apply Hmax; [done | by apply has_color_eq].
Qed.

(** *** Method calls on the first and on the last slice of a list *)

Lemma last_index (w : Slice.t) (mid : list Slice.t) (b : Slice.t) :
  (length (w :: mid ++ [b]) - 1)%nat = S (length mid).
Proof. cbn [length]. rewrite length_app. cbn [length]. lia. Qed.

Lemma slice_at_first (w : Slice.t) (rest : list Slice.t) :
  slice_at (w :: rest) 0 = Ok w.
Proof. done. Qed.

Lemma slice_at_last (w : Slice.t) (mid : list Slice.t) (b : Slice.t) :
  slice_at (w :: mid ++ [b]) (S (length mid)) = Ok b.
Proof.
  unfold slice_at.
  change ((w :: mid ++ [b]) !! S (length mid)) with ((mid ++ [b]) !! length mid).
  by rewrite (list_lookup_middle mid [] b (length mid) eq_refl).
Qed.

Lemma call_first {A : Type} (method : Slice.t -> outcome (A * Slice.t))
  (w w' : Slice.t) (rest : list Slice.t) (a : A) :
  method w = Ok (a, w') -> call 0 method (w :: rest) = Ok (a, w' :: rest).
Proof. intros H. unfold call. rewrite slice_at_first. cbn. by rewrite H. Qed.

Lemma call_last {A : Type} (method : Slice.t -> outcome (A * Slice.t))
  (w b b' : Slice.t) (mid : list Slice.t) (a : A) :
  method b = Ok (a, b') ->
  call (S (length mid)) method (w :: mid ++ [b]) = Ok (a, w :: mid ++ [b']).
Proof.
  intros H. unfold call. rewrite slice_at_last.
  cbn [mbind outcome_bind]. rewrite H. cbn [mbind outcome_bind].
  do 3 f_equal.
  change (<[S (length mid) := b']> (w :: mid ++ [b]))
    with (w :: <[length mid := b']> (mid ++ [b])).
  f_equal. rewrite <- (Nat.add_0_r (length mid)) at 1.
  by rewrite insert_app_r.
Qed.

Lemma two_ends {A : Type} (l : list A) :
  (2 <= length l)%nat -> exists w mid b, l = w :: mid ++ [b].
Proof.
  destruct l as [| w l]; cbn; [lia |]. intros Hl.
  destruct (last l) as [b |] eqn:Hlast.
  - apply last_Some in Hlast as [mid ->]. by exists w, mid, b.
  - apply last_None in Hlast as ->. cbn in Hl. lia.
Qed.

Lemma all_tiles_ends (w : Slice.t) (mid : list Slice.t) (b : Slice.t) :
  all_tiles (w :: mid ++ [b])
  = Slice.tiles w ++ all_tiles mid ++ Slice.tiles b.
Proof.
  unfold all_tiles. rewrite fmap_cons, fmap_app. cbn [concat].
  rewrite concat_app. cbn. by rewrite app_nil_r.
Qed.

(** *** The exchange between the best and the worst slice *)

Lemma rebalance_best_worst_fires (slices mid : list Slice.t)
  (worst best : Slice.t) :
  sort_by Slice.lt slices = worst :: mid ++ [best] ->
  ge_one_and_a_half (Slice.absolute_value best) (Slice.absolute_value worst)
  = Ok true ->
  has_tile_of_color "blue" best ->
  has_tile_of_color "blue" worst ->
  exists (best_tile worst_tile : Tile.t) (rb rw : list Tile.t),
    highest_of_color "blue" best_tile (Slice.tiles best) /\
    lowest_of_color "blue" worst_tile (Slice.tiles worst) /\
    Slice.tiles best ≡ₚ best_tile :: rb /\
    Slice.tiles worst ≡ₚ worst_tile :: rw /\
    rebalance_best_worst slices
    = Ok (Slice.add best_tile (Slice.with_tiles worst rw)
          :: mid ++ [Slice.add worst_tile (Slice.with_tiles best rb)]).
Proof.
  intros Hsorted Hge Hb Hw.
  destruct (remove_best_tile_spec "blue" best Hb)
    as (bt & rb & Hrb & Hpb & Hhigh).
  assert (Hbc : Tile.color bt = "blue"%string) by apply Hhigh.
  destruct (remove_worst_tile_spec "blue" worst Hw)
    as (wt & rw & Hrw & Hpw & Hlow).
  exists bt, wt, rb, rw. do 4 (split; [done |]).
  unfold rebalance_best_worst. rewrite Hsorted, last_index.
  rewrite slice_at_first, slice_at_last. cbn [mbind outcome_bind].
  rewrite Hge. cbn [mbind outcome_bind].
  rewrite (call_last _ worst best _ mid (Some bt))
    by (by rewrite Hrb).
  cbn [mbind outcome_bind attr]. rewrite Hbc.
  rewrite (call_first _ worst _ _ (Some wt)) by (by rewrite Hrw).
  cbn [mbind outcome_bind].
  rewrite (call_last (add_method (Some wt)) _ _ _ mid tt) by done.
  cbn [mbind outcome_bind].
  by rewrite (call_first (add_method (Some bt)) _ _ _ tt) by done.
Qed.

(** *** The exchange between the slices of extreme ratio *)

Lemma with_keys_Ok (l : list Slice.t) (keyed : list (Float.t * Slice.t)) :
  with_keys l = Ok keyed -> snd <$> keyed = l.
Proof.
  revert keyed. induction l as [| s l IH]; intros keyed; cbn [with_keys].
  - by intros [= <-].
  - intros H. apply bind_Ok in H as (k & _ & H).
    apply bind_Ok in H as (rest & Hrest & [= <-]).
    cbn. by rewrite (IH rest Hrest).
Qed.

Lemma ratio_Ok (s : Slice.t) : has_ratio s -> exists k, ratio s = Ok k.
Proof.
  intros [Hi Hr]. unfold ratio.
  destruct (int_truediv_in_range _ _ Hi Hr) as [q ->]. by eexists.
Qed.

Lemma fits_has_ratio (s : Slice.t) :
  fits s -> Slice.influence s <> 0 -> has_ratio s.
Proof. unfold fits, has_ratio. intros Hr Hi. split; [done | nia]. Qed.

Lemma with_keys_has_ratio (l : list Slice.t) :
  Forall has_ratio l -> exists keyed, with_keys l = Ok keyed.
Proof.
  induction 1 as [| s l Hs _ [keyed IH]]; cbn [with_keys]; [by eexists |].
  destruct (ratio_Ok s Hs) as [k ->].
  cbn [mbind outcome_bind]. rewrite IH. cbn. by eexists.
Qed.

Lemma with_keys_zero (l : list Slice.t) :
  Forall fits l ->
  Exists (fun s => Slice.influence s = 0) l ->
  with_keys l = Raise ZeroDivisionError.
Proof.
  intros Hfits Hex. induction Hex as [s l Hs | s l _ IH]; cbn [with_keys].
  - unfold ratio, Float.int_truediv. by rewrite Hs.
  - apply Forall_cons in Hfits as [Hfs Hfl].
    destruct (decide (Slice.influence s = 0)) as [Hz | Hnz].
    + unfold ratio, Float.int_truediv. by rewrite Hz.
    + destruct (ratio_Ok s (fits_has_ratio s Hfs Hnz)) as [k ->].
      cbn [mbind outcome_bind]. by rewrite IH.
Qed.

Lemma with_keys_Raise (l : list Slice.t) (e : exn) :
  with_keys l = Raise e ->
  (e = ZeroDivisionError /\ Exists (fun s => Slice.influence s = 0) l)
  \/ e = OverflowError.
Proof.
  induction l as [| s l IH]; cbn [with_keys]; [done |]. intros H.
  apply bind_Raise in H as [H | (k & _ & H)].
  - apply int_truediv_Raise in H as [[-> Hz] | [-> _]]; [left | by right].
    split; [done | by left].
  - apply bind_Raise in H as [H | (rest & _ & H)]; [| done].
    destruct (IH H) as [[-> Hex] | ->]; [left | by right].
    split; [done | by right].
Qed.

Lemma zero_or_nonzero (l : list Slice.t) :
  Exists (fun s => Slice.influence s = 0) l
  \/ Forall (fun s => Slice.influence s <> 0) l.
Proof.
  induction l as [| s l [IH | IH]].
  - right. constructor.
  - left. by right.
  - destruct (decide (Slice.influence s = 0)) as [Hs | Hs].
    + left. by left.
    + right. by constructor.
Qed.

Lemma sort_by_ratio_has_ratio (l : list Slice.t) :
  Forall has_ratio l ->
  exists sorted, sort_by_ratio l = Ok sorted /\ sorted ≡ₚ l.
Proof.
  intros Hl. destruct (with_keys_has_ratio l Hl) as [keyed Hk].
  unfold sort_by_ratio. rewrite Hk. cbn [mbind outcome_bind].
  eexists. split; [done |].
  rewrite sort_by_Permutation. by rewrite (with_keys_Ok l keyed Hk).
Qed.

Lemma all_tiles_Permutation (l l' : list Slice.t) :
  l ≡ₚ l' -> all_tiles l ≡ₚ all_tiles l'.
Proof.
  unfold all_tiles.
  induction 1 as [| s l l' _ IH | s s' l | l l' l'' _ IH1 _ IH2]; cbn.
  - done.
  - by rewrite IH.
  - apply Permutation_app_swap_app.
  - by rewrite IH1.
Qed.

Lemma remove_excessive_tile_spec (s : Slice.t) :
  Slice.tiles s <> [] ->
  exists x rest,
    Slice.remove_excessive_tile s = Ok (x, Slice.with_tiles s rest) /\
    Slice.tiles s ≡ₚ x :: rest.
Proof.
  intros Hne. unfold Slice.remove_excessive_tile.
  set (sorted := sort_by _ (Slice.tiles s)).
  assert (Hperm : sorted ≡ₚ Slice.tiles s) by apply sort_by_Permutation.
  destruct sorted as [| x rest].
  - apply Permutation_nil_l in Hperm. congruence.
  - exists x, rest. by split.
Qed.

Lemma five_tiles_nonempty (s : Slice.t) : five_tiles s -> Slice.tiles s <> [].
Proof. unfold five_tiles. by destruct (Slice.tiles s). Qed.

Lemma add_after_remove_five (s : Slice.t) (x y : Tile.t) (rest : list Tile.t) :
  five_tiles s -> Slice.tiles s ≡ₚ x :: rest ->
  five_tiles (Slice.add y (Slice.with_tiles s rest)).
Proof.
  unfold five_tiles. intros H5 Hperm. rewrite add_tiles. cbn.
  rewrite length_app. apply Permutation_length in Hperm. cbn in *. lia.
Qed.

(** Two slices exchange a tile each: nothing else changes. *)
Lemma exchange_all_tiles (w b : Slice.t) (mid : list Slice.t) (x y : Tile.t)
  (rw rb : list Tile.t) :
  Slice.tiles w ≡ₚ x :: rw -> Slice.tiles b ≡ₚ y :: rb ->
  all_tiles (Slice.add y (Slice.with_tiles w rw)
             :: mid ++ [Slice.add x (Slice.with_tiles b rb)])
  ≡ₚ all_tiles (w :: mid ++ [b]).
Proof.
  intros Hw Hb. rewrite !all_tiles_ends, !add_tiles, Hw, Hb. cbn.
  rewrite (Permutation_app_comm rw [y]), (Permutation_app_comm rb [x]).
  cbn [app]. rewrite <- !Permutation_middle. apply Permutation_swap.
Qed.

Lemma rebalance_res_inf_Ok (l : list Slice.t) :
  (2 <= length l)%nat ->
  Forall five_tiles l ->
  Forall has_ratio l ->
  exists final,
    rebalance_res_inf l = Ok final /\
    Forall five_tiles final /\
    length final = length l /\
    all_tiles final ≡ₚ all_tiles l.
Proof.
  intros Hlen Hfive Hnz.
  destruct (sort_by_ratio_has_ratio l Hnz) as (sorted & Hs & Hperm).
  unfold rebalance_res_inf. rewrite Hs. cbn [mbind outcome_bind].
  rewrite <- Hperm in Hfive. rewrite <- (Permutation_length Hperm) in Hlen.
  rewrite <- (Permutation_length Hperm).
  setoid_rewrite <- (all_tiles_Permutation _ _ Hperm).
  clear Hs Hperm Hnz l.
  destruct (two_ends sorted Hlen) as (w & mid & b & ->).
  rewrite last_index, slice_at_first, slice_at_last.
  cbn [mbind outcome_bind].
  destruct (_ || _).
  - apply Forall_cons in Hfive as [Hw Hrest].
    apply Forall_app in Hrest as [Hmid Hb]. rewrite Forall_singleton in Hb.
    destruct (remove_excessive_tile_spec w (five_tiles_nonempty w Hw))
      as (x & rw & Hrx & Hpw).
    destruct (remove_excessive_tile_spec b (five_tiles_nonempty b Hb))
      as (y & rb & Hry & Hpb).
    rewrite (call_first _ w _ _ x Hrx). cbn [mbind outcome_bind].
    rewrite (call_last _ _ b _ mid y Hry). cbn [mbind outcome_bind].
    rewrite (call_last (add_method (Some x)) _ _ _ mid tt) by done.
    cbn [mbind outcome_bind].
    rewrite (call_first (add_method (Some y)) _ _ _ tt) by done.
    cbn [mbind outcome_bind].
    eexists. split; [done |]. split; [| split].
    + apply Forall_cons. split; [by eapply add_after_remove_five |].
      apply Forall_app. split; [done |]. apply Forall_singleton.
      by eapply add_after_remove_five.
    + cbn [length]. by rewrite !length_app.
    + by apply exchange_all_tiles.
  - by eexists.
Qed.

Lemma slice_at_Raise (l : list Slice.t) (i : nat) (e : exn) :
  slice_at l i = Raise e -> e = IndexError.
Proof. unfold slice_at. destruct (l !! i); congruence. Qed.

Lemma call_Raise {A : Type} (i : nat)
  (method : Slice.t -> outcome (A * Slice.t)) (l : list Slice.t) (e : exn) :
  call i method l = Raise e ->
  e = IndexError \/ exists s, method s = Raise e.
Proof.
  unfold call. intros H.
  apply bind_Raise in H as [H | (s & _ & H)];
    [left; by eapply slice_at_Raise |].
  apply bind_Raise in H as [H | ([a s'] & _ & H)]; [right; eauto | done].
Qed.

Lemma remove_excessive_tile_Raise (s : Slice.t) (e : exn) :
  Slice.remove_excessive_tile s = Raise e -> e = IndexError.
Proof.
  unfold Slice.remove_excessive_tile. intros H.
  apply bind_Raise in H as [H | ([x l] & _ & H)]; [| done].
  by eapply pop0_Raise.
Qed.

Lemma add_method_Raise (x : option Tile.t) (s : Slice.t) (e : exn) :
  add_method x s = Raise e -> e = AttributeError.
Proof. destruct x; cbn; congruence. Qed.

(** The second half raises [ZeroDivisionError] only when a slice has no
    influence, [OverflowError] only when a ratio is past the floats, and
    otherwise nothing but [IndexError]. *)
Lemma rebalance_res_inf_Raise (l : list Slice.t) (e : exn) :
  rebalance_res_inf l = Raise e ->
  (e = ZeroDivisionError /\ Exists (fun s => Slice.influence s = 0) l)
  \/ e = OverflowError \/ e = IndexError.
Proof.
  unfold rebalance_res_inf. intros H.
  apply bind_Raise in H as [H | (sorted & _ & H)].
  { unfold sort_by_ratio in H.
    apply bind_Raise in H as [H | (keyed & _ & H)]; [| done].
    apply with_keys_Raise in H as [H | H]; [by left | right; by left]. }
  do 2 right.
  apply bind_Raise in H as [H | (w & _ & H)];
    [by eapply slice_at_Raise |].
  apply bind_Raise in H as [H | (b & _ & H)];
    [by eapply slice_at_Raise |].
  destruct (_ || _); [| done].
  apply bind_Raise in H as [H | ([x l1] & _ & H)].
  { apply call_Raise in H as [-> | [s H]]; [done |].
    by eapply remove_excessive_tile_Raise. }
  apply bind_Raise in H as [H | ([y l2] & _ & H)].
  { apply call_Raise in H as [-> | [s H]]; [done |].
    by eapply remove_excessive_tile_Raise. }
  apply bind_Raise in H as [H | ([[] l3] & _ & H)].
  { apply call_Raise in H as [-> | [s H]]; [done | done]. }
  apply bind_Raise in H as [H | ([[] l4] & _ & H)]; [| done].
  apply call_Raise in H as [-> | [s H]]; [done | done].
Qed.

Lemma ge_one_and_a_half_Raise (a b : Z) (e : exn) :
  ge_one_and_a_half a b = Raise e -> e = OverflowError.
Proof.
  destruct (ge_one_and_a_half_cases a b) as [[r ->] | ->]; congruence.
Qed.

(** The first half never divides. *)
Lemma rebalance_best_worst_Raise (slices : list Slice.t) (e : exn) :
  rebalance_best_worst slices = Raise e ->
  e = IndexError \/ e = AttributeError \/ e = OverflowError.
Proof.
  unfold rebalance_best_worst. intros H.
  apply bind_Raise in H as [H | (w & _ & H)];
    [left; by eapply slice_at_Raise |].
  apply bind_Raise in H as [H | (b & _ & H)];
    [left; by eapply slice_at_Raise |].
  apply bind_Raise in H as [H | ([|] & _ & H)];
    [do 2 right; by eapply ge_one_and_a_half_Raise | | done].
  apply bind_Raise in H as [H | ([bt l1] & _ & H)].
  { apply call_Raise in H as [-> | [s H]]; [by left | done]. }
  apply bind_Raise in H as [H | (bt' & _ & H)].
  { destruct bt; cbn in H; [done | right; left; congruence]. }
  apply bind_Raise in H as [H | ([wt l2] & _ & H)].
  { apply call_Raise in H as [-> | [s H]]; [by left | done]. }
  apply bind_Raise in H as [H | ([[] l3] & _ & H)].
  { apply call_Raise in H as [-> | [s H]]; [by left |].
    right; left. by eapply add_method_Raise. }
  apply bind_Raise in H as [H | ([[] l4] & _ & H)]; [| done].
  apply call_Raise in H as [-> | [s H]]; [by left |].
  right; left. by eapply add_method_Raise.
Qed.



(** *** Division by zero in the second half of a pass *)

Lemma rebalance_best_worst_idle (slices : list Slice.t)
  (worst best : Slice.t) :
  sort_by Slice.lt slices !! 0%nat = Some worst ->
  last (sort_by Slice.lt slices) = Some best ->
  ge_one_and_a_half (Slice.absolute_value best) (Slice.absolute_value worst)
  = Ok false ->
  rebalance_best_worst slices = Ok (sort_by Slice.lt slices).
Proof.
  intros Hw Hb Hge. unfold rebalance_best_worst, slice_at.
  rewrite Hw. cbn [mbind outcome_bind].
  rewrite last_lookup in Hb.
  replace (length (sort_by Slice.lt slices) - 1)%nat
    with (pred (length (sort_by Slice.lt slices))) by lia.
  rewrite Hb. cbn [mbind outcome_bind]. by rewrite Hge.
Qed.

(** C10, as the code has it: the ratio is computed on the slices as the
    first half of the pass leaves them.  The sort raises
    [ZeroDivisionError] only when one of those slices has influence 0,
    and does raise it then when the resources of the slices are within
    the floats; so does the pass.  When the first half exchanges nothing
    (the worst slice being in the range where the float product by 1.5
    is exact), slices that all have some influence at the start of the
    pass cannot reach the error. *)
Theorem ratio_sort_division_by_zero :
  (forall l : list Slice.t,
     (rebalance_res_inf l = Raise ZeroDivisionError ->
      exists s, s ∈ l /\ Slice.influence s = 0) /\
     (Forall fits l ->
      (exists s, s ∈ l /\ Slice.influence s = 0) ->
      rebalance_res_inf l = Raise ZeroDivisionError)) /\
  (forall slices : list Slice.t,
     (rebalance_slices slices = Raise ZeroDivisionError ->
      exists after,
        rebalance_best_worst slices = Ok after /\
        exists s, s ∈ after /\ Slice.influence s = 0) /\
     (forall after,
        rebalance_best_worst slices = Ok after ->
        Forall fits after ->
        (exists s, s ∈ after /\ Slice.influence s = 0) ->
        rebalance_slices slices = Raise ZeroDivisionError)) /\
  (forall (slices : list Slice.t) (worst best : Slice.t),
     sort_by Slice.lt slices !! 0%nat = Some worst ->
     last (sort_by Slice.lt slices) = Some best ->
     small worst ->
     (inject_Z (Slice.absolute_value best)
      < (3 # 2) * inject_Z (Slice.absolute_value worst))%Q ->
     (forall s, s ∈ slices -> Slice.influence s <> 0) ->
     rebalance_slices slices <> Raise ZeroDivisionError).
Proof.
  assert (Hsort : forall l : list Slice.t,
             rebalance_res_inf l = Raise ZeroDivisionError ->
             exists s, s ∈ l /\ Slice.influence s = 0).
  { intros l. rewrite <- Exists_exists.
    intros [[_ H] | [H | H]]%rebalance_res_inf_Raise; done. }
  assert (Hzero : forall l : list Slice.t,
             Forall fits l ->
             (exists s, s ∈ l /\ Slice.influence s = 0) ->
             rebalance_res_inf l = Raise ZeroDivisionError).
  { intros l Hfits Hz%Exists_exists. unfold rebalance_res_inf, sort_by_ratio.
    by rewrite (with_keys_zero l Hfits Hz). }
  assert (Hpass : forall slices : list Slice.t,
             rebalance_slices slices = Raise ZeroDivisionError ->
             exists after,
               rebalance_best_worst slices = Ok after /\
               exists s, s ∈ after /\ Slice.influence s = 0).
  { intros slices. unfold rebalance_slices.
    intros [H | (after & Hafter & H)]%bind_Raise.
    - apply rebalance_best_worst_Raise in H as [H | [H | H]]; done.
    - exists after. split; [done | by apply Hsort]. }
  split; [intros l; split; [apply Hsort | apply Hzero] |]. split.
  { intros slices. split; [apply Hpass |].
    intros after Hafter Hfits Hz. unfold rebalance_slices. rewrite Hafter.
    cbn [mbind outcome_bind]. by apply Hzero. }
  intros slices worst best Hw Hb Hsmall Hlt Hnz Hraise.
  apply Hpass in Hraise as (after & Hafter & s & Hs & Hzero').
  rewrite (rebalance_best_worst_idle slices worst best Hw Hb) in Hafter.
  - injection Hafter as <-. rewrite sort_by_Permutation in Hs.
    by apply (Hnz s).
  - apply lt_one_and_a_half_spec in Hlt.
    rewrite ge_one_and_a_half_exact by done. f_equal. apply Z.leb_gt. lia.
Qed.

Lemma ratio_sort_division_by_zero_witness :
  rebalance_slices [sample_slice; sample_slice] <> Raise ZeroDivisionError.
Proof.
  destruct ratio_sort_division_by_zero as (_ & _ & H).
  apply (H [sample_slice; sample_slice] sample_slice sample_slice).
  - reflexivity.
  - reflexivity.
  - reflexivity.
  - reflexivity.
  - intros s Hs. rewrite !elem_of_cons, elem_of_nil in Hs.
    destruct Hs as [-> | [-> | []]]; vm_compute; discriminate.
Defined.

(** C10 as stated fails: every slice has some influence when the pass
    starts, the first half moves the only tile with influence out of the
    best slice, and the sort divides by zero. *)
Lemma ratio_sort_division_by_zero_counterexample :
  (forall s, s ∈ [sample_one_sided_slice; sample_poor_slice] ->
             Slice.influence s <> 0) /\
  rebalance_slices [sample_one_sided_slice; sample_poor_slice]
  = Raise ZeroDivisionError.
Proof.
  split; [| reflexivity].
  intros s Hs. rewrite !elem_of_cons, elem_of_nil in Hs.
  destruct Hs as [-> | [-> | []]]; vm_compute; discriminate.
Qed.

(** *** Runs that end do not depend on the bound given to the loops *)

Lemma bind_mono {A B : Type} (m m' : outcome A) (k k' : A -> outcome B) :
  finished (m ≫= k) ->
  (finished m -> m' = m) ->
  (forall a, m = Ok a -> finished (k a) -> k' a = k a) ->
  m' ≫= k' = m ≫= k.
Proof.
  destruct m as [a | e |]; cbn; intros Hfin Hm Hk; [| | done].
  - rewrite Hm by done. cbn. by apply Hk.
  - by rewrite Hm.
Qed.

Lemma exclude_tile_mono (fuel fuel' : nat) (tiles : list Tile.t) :
  (fuel <= fuel')%nat ->
  finished (exclude_tile fuel tiles) ->
  exclude_tile fuel' tiles = exclude_tile fuel tiles.
Proof.
  revert fuel' tiles. induction fuel as [| fuel IH]; intros fuel' tiles Hle;
    [done |].
  destruct fuel' as [| fuel']; [lia |]. cbn [exclude_tile].
  destruct tiles as [| x rest]; cbn [pop0 mbind outcome_bind]; [done |].
  destruct (String.eqb (Tile.color x) "red"); [| done].
  apply IH. lia.
Qed.

Lemma draw_all_tiles_mono (fuel fuel' : nat) (tiles : list Tile.t)
  (players : Z) (g : Random) :
  (fuel <= fuel')%nat ->
  finished (draw_all_tiles fuel tiles players g) ->
  draw_all_tiles fuel' tiles players g = draw_all_tiles fuel tiles players g.
Proof.
  intros Hle. unfold draw_all_tiles.
  destruct (negb (players =? 6)); [done |].
  destruct (shuffle tiles g) as [shuffled g']. intros Hfin.
  apply bind_mono; [done | by apply exclude_tile_mono | done].
Qed.

Lemma balance_mono (fuel fuel' : nat) (slices : list Slice.t) :
  (fuel <= fuel')%nat ->
  finished (balance fuel slices) ->
  balance fuel' slices = balance fuel slices.
Proof.
  revert fuel' slices. induction fuel as [| fuel IH]; intros fuel' slices Hle;
    [done |].
  destruct fuel' as [| fuel']; [lia |]. cbn [balance]. intros Hfin.
  apply bind_mono; [done | done |]. intros [|] _ Hfin'; [done |].
  apply bind_mono; [done | done |]. intros slices' _ Hfin''.
  apply IH; [lia | done].
Qed.

Lemma prepare_slices_mono (fuel fuel' : nat) (tiles : list Tile.t)
  (g : Random) :
  (fuel <= fuel')%nat ->
  finished (prepare_slices fuel tiles g) ->
  prepare_slices fuel' tiles g = prepare_slices fuel tiles g.
Proof.
  intros Hle Hfin. unfold prepare_slices in *.
  apply bind_mono; [done | by apply draw_all_tiles_mono |].
  intros [all g1] _ Hfin1.
  apply bind_mono; [done | done |]. intros [slices g2] _ Hfin2.
  apply bind_mono; [done | by apply balance_mono | done].
Qed.

(** *** The pipeline reaches the balance loop *)

Lemma filter_Permutation {A : Type} (p : A -> bool) (l l' : list A) :
  l ≡ₚ l' -> List.filter p l ≡ₚ List.filter p l'.
Proof.
  induction 1 as [| x l l' _ IH | x y l | l l' l'' _ IH1 _ IH2]; cbn.
  - done.
  - destruct (p x); by rewrite IH.
  - destruct (p x), (p y); (done || apply Permutation_swap).
  - by rewrite IH1.
Qed.

#[global] Instance filter_Proper {A : Type} (p : A -> bool) :
  Proper (Permutation ==> Permutation) (List.filter p).
Proof. intros l l' H. by apply filter_Permutation. Qed.

(** The red tiles at the head of the list go to its end, one round of
    the loop each. *)
Lemma exclude_tile_rotate (reds rest : list Tile.t) (fuel : nat) :
  Forall (fun x => Tile.has_color "red" x = true) reds ->
  exclude_tile (length reds + fuel) (reds ++ rest)
  = exclude_tile fuel (rest ++ reds).
Proof.
  intros Hreds. revert rest.
  induction Hreds as [| r reds Hr _ IH]; intros rest.
  - by rewrite app_nil_r.
  - cbn [length Nat.add app exclude_tile pop0 mbind outcome_bind].
    unfold Tile.has_color in Hr. rewrite Hr.
    rewrite <- app_assoc, IH, <- app_assoc. done.
Qed.

(** The loop of [draw_all_tiles] ends within as many rounds as there
    are tiles when one of them is not red; it leaves that tile out. *)
Lemma exclude_tile_enough (l : list Tile.t) :
  Exists (fun x => Tile.has_color "red" x = false) l ->
  exists x rest,
    exclude_tile (length l) l = Ok rest /\
    Tile.has_color "red" x = false /\
    l ≡ₚ x :: rest.
Proof.
  intros Hex.
  destruct (pop_first (fun x => negb (Tile.has_color "red" x)) l)
    as [[x |] l'] eqn:Hpop.
  - apply pop_first_Some in Hpop as (reds & tail & -> & _ & Hx & Hreds).
    apply negb_true_iff in Hx.
    exists x, (tail ++ reds). split; [| split; [done |]].
    + rewrite length_app. cbn [length].
      rewrite exclude_tile_rotate.
      * cbn [app exclude_tile pop0 mbind outcome_bind].
        unfold Tile.has_color in Hx. by rewrite Hx.
      * eapply Forall_impl; [exact Hreds |]. intros y Hy.
        by apply negb_false_iff in Hy.
    + rewrite <- Permutation_middle. by rewrite (Permutation_app_comm tail).
  - apply pop_first_None in Hpop as [_ Hnone]. exfalso.
    apply Exists_exists in Hex as (y & Hy & Hyc).
    rewrite Forall_forall in Hnone. apply Hnone in Hy.
    apply negb_false_iff in Hy. congruence.
Qed.

(** From a catalog of exactly 12 red and 19 blue tiles the pipeline
    always comes to the balance loop: one blue tile is left out and the
    30 others make six slices of two red and three blue tiles. *)
Lemma pipeline_reaches_balance (catalog : list Tile.t) (seed : Random) :
  length (List.filter (Tile.has_color "red") catalog) = 12%nat ->
  length (List.filter (Tile.has_color "blue") catalog) = 19%nat ->
  Forall red_or_blue catalog ->
  exists (excluded : Tile.t) (pool : list Tile.t) (g1 : Random)
         (slices : list Slice.t) (g2 : Random),
    draw_all_tiles (length catalog) catalog 6 seed = Ok (pool, g1) /\
    Tile.color excluded = "blue"%string /\
    catalog ≡ₚ excluded :: pool /\
    generate_slices pool 6 g1 = Ok (slices, g2) /\
    length slices = 6%nat /\
    Forall two_red_three_blue slices /\
    all_tiles slices ≡ₚ pool.
Proof.
  intros Hred Hblue Hcol. unfold draw_all_tiles.
  change (negb (6 =? 6)) with false. cbv iota.
  pose proof (shuffle_Permutation catalog seed) as Hsh.
  destruct (shuffle catalog seed) as [shuffled g1]. cbn [fst] in Hsh.
  rewrite <- Hsh in Hred, Hblue, Hcol.
  rewrite <- (Permutation_length Hsh).
  destruct (exclude_tile_enough shuffled) as (x & pool & -> & Hx & Hperm).
  { destruct (List.filter (Tile.has_color "blue") shuffled) as [| y l] eqn:Hf;
      [done |].
    assert (Hy : In y (List.filter (Tile.has_color "blue") shuffled))
      by (rewrite Hf; by left).
    apply List.filter_In in Hy as [Hy Hyb].
    apply Exists_exists. exists y. split; [by apply list_elem_of_In |].
    by apply blue_not_red. }
  rewrite Hperm in Hcol. apply Forall_cons in Hcol as [Hxc Hpool].
  assert (Hxb : Tile.color x = "blue"%string).
  { destruct Hxc as [Hxr | Hxb]; [| done].
    apply has_color_eq in Hxr. congruence. }
  rewrite Hperm in Hred, Hblue.
  cbn [List.filter] in Hred, Hblue. rewrite Hx in Hred.
  rewrite (proj2 (has_color_eq "blue" x) Hxb) in Hblue. cbn [length] in Hblue.
  assert (Hblue' : length (List.filter (Tile.has_color "blue") pool) = 18%nat)
    by lia.
  destruct (generate_slices_run pool g1 Hred Hblue')
    as (red_tiles & blue_tiles & g2 & Hpr & Hpb & Hrun).
  assert (Hlr : length red_tiles = 12%nat)
    by (by rewrite (Permutation_length Hpr)).
  assert (Hlb : length blue_tiles = 18%nat)
    by (by rewrite (Permutation_length Hpb)).
  exists x, pool, g1, (dealt 6 red_tiles blue_tiles), g2.
  cbn [mbind outcome_bind].
  split; [done |]. split; [done |]. split; [by rewrite <- Hsh |].
  split; [exact Hrun |]. split; [apply dealt_length |]. split.
  - apply dealt_colors; [| | lia | lia].
    + rewrite Hpr. apply filter_Forall.
    + rewrite Hpb. apply filter_Forall.
  - by apply (dealt_all_tiles pool).
Qed.

(** * Further properties of the code *)

(** *** What a pass of [rebalance_slices] keeps *)

Lemma call_Ok {A : Type} (i : nat)
  (method : Slice.t -> outcome (A * Slice.t)) (l l' : list Slice.t) (a : A) :
  call i method l = Ok (a, l') ->
  exists s s', l !! i = Some s /\ method s = Ok (a, s') /\ l' = <[i := s']> l.
Proof.
  unfold call, slice_at. destruct (l !! i) as [s |]; cbn; [| done].
  destruct (method s) as [[a' s'] | |] eqn:Hm; cbn; [| done | done].
  intros [= -> <-]. by exists s, s'.
Qed.

Lemma all_tiles_insert (l : list Slice.t) (i : nat) (s : Slice.t) :
  l !! i = Some s ->
  exists rest,
    all_tiles l ≡ₚ Slice.tiles s ++ rest /\
    forall s', all_tiles (<[i := s']> l) ≡ₚ Slice.tiles s' ++ rest.
Proof.
  unfold all_tiles. revert i.
  induction l as [| x l IH]; intros [| i] Hi; simplify_eq/=.
  - by exists (concat (Slice.tiles <$> l)).
  - destruct (IH i Hi) as (rest & H1 & H2).
    exists (Slice.tiles x ++ rest). split.
    + rewrite H1. apply Permutation_app_swap_app.
    + intros s'. rewrite H2. apply Permutation_app_swap_app.
Qed.

Lemma all_tiles_remove (l : list Slice.t) (i : nat) (s s' : Slice.t)
  (x : Tile.t) :
  l !! i = Some s -> Slice.tiles s ≡ₚ x :: Slice.tiles s' ->
  all_tiles l ≡ₚ x :: all_tiles (<[i := s']> l).
Proof.
  intros Hi Hx. destruct (all_tiles_insert l i s Hi) as (rest & H1 & H2).
  by rewrite H1, H2, Hx.
Qed.

Lemma all_tiles_add (l : list Slice.t) (i : nat) (s : Slice.t) (x : Tile.t) :
  l !! i = Some s ->
  all_tiles (<[i := Slice.add x s]> l) ≡ₚ x :: all_tiles l.
Proof.
  intros Hi. destruct (all_tiles_insert l i s Hi) as (rest & H1 & H2).
  rewrite H1, H2, add_tiles. rewrite <- app_assoc. cbn [app].
  by rewrite <- Permutation_middle.
Qed.

Lemma sizes_insert (l : list Slice.t) (i : nat) (s : Slice.t) :
  sizes (<[i := s]> l) = <[i := length (Slice.tiles s)]> (sizes l).
Proof. unfold sizes. by rewrite list_fmap_insert. Qed.

Lemma sizes_lookup (l : list Slice.t) (i : nat) (s : Slice.t) :
  l !! i = Some s -> sizes l !! i = Some (length (Slice.tiles s)).
Proof. intros Hi. unfold sizes. by rewrite list_lookup_fmap, Hi. Qed.

(** Two cells lose a tile each, then gain one each: every cell has as
    many tiles as before.  [a] and [b] are the two cells, in the order
    in which they gain. *)
Lemma exchange_sizes (v : list nat) (i j a b n1 n2 m3 m4 : nat) :
  (a = i /\ b = j) \/ (a = j /\ b = i) ->
  v !! i = Some (S n1) ->
  <[i := n1]> v !! j = Some (S n2) ->
  <[j := n2]> (<[i := n1]> v) !! a = Some m3 ->
  <[a := S m3]> (<[j := n2]> (<[i := n1]> v)) !! b = Some m4 ->
  <[b := S m4]> (<[a := S m3]> (<[j := n2]> (<[i := n1]> v))) = v.
Proof.
  intros Hab H1 H2 H3 H4.
  pose proof (lookup_lt_Some _ _ _ H1) as Hi.
  pose proof (lookup_lt_Some _ _ _ H2) as Hj. rewrite length_insert in Hj.
  apply list_eq. intros k.
  destruct (decide (i = j)) as [-> | Hij].
  - assert (a = j /\ b = j) as [-> ->] by (destruct Hab as [[] | []]; by subst).
    rewrite list_lookup_insert_eq in H2 by done. injection H2 as ->.
    rewrite list_lookup_insert_eq in H3 by (by rewrite !length_insert).
    injection H3 as <-.
    rewrite list_lookup_insert_eq in H4 by (by rewrite !length_insert).
    injection H4 as <-.
    destruct (decide (k = j)) as [-> | Hk].
    + rewrite list_lookup_insert_eq by (by rewrite !length_insert). done.
    + by rewrite !list_lookup_insert_ne by done.
  - rewrite list_lookup_insert_ne in H2 by done.
    destruct Hab as [[-> ->] | [-> ->]].
    + rewrite list_lookup_insert_ne in H3 by done.
      rewrite list_lookup_insert_eq in H3 by done. injection H3 as <-.
      rewrite list_lookup_insert_ne in H4 by done.
      rewrite list_lookup_insert_eq in H4 by (by rewrite !length_insert).
      injection H4 as <-.
      destruct (decide (k = j)) as [-> | Hkj].
      * rewrite list_lookup_insert_eq by (by rewrite !length_insert). done.
      * rewrite list_lookup_insert_ne by done.
        destruct (decide (k = i)) as [-> | Hki].
        -- rewrite list_lookup_insert_eq by (by rewrite !length_insert). done.
        -- by rewrite !list_lookup_insert_ne by done.
    + rewrite list_lookup_insert_eq in H3 by (by rewrite !length_insert).
      injection H3 as <-.
      rewrite !list_lookup_insert_ne in H4 by done.
      rewrite list_lookup_insert_eq in H4 by done. injection H4 as <-.
      destruct (decide (k = i)) as [-> | Hki].
      * rewrite list_lookup_insert_eq by (by rewrite !length_insert). done.
      * rewrite list_lookup_insert_ne by done.
        destruct (decide (k = j)) as [-> | Hkj].
        -- rewrite list_lookup_insert_eq by (by rewrite !length_insert). done.
        -- by rewrite !list_lookup_insert_ne by done.
Qed.

Lemma exchange_keeps (l0 : list Slice.t) (i j a b : nat)
  (s0 s1 s0' s2 s2' s3' : Slice.t) (x y ya yb : Tile.t) :
  (a = i /\ b = j) \/ (a = j /\ b = i) ->
  [ya; yb] ≡ₚ [x; y] ->
  l0 !! i = Some s0 ->
  Slice.tiles s0 ≡ₚ x :: Slice.tiles s1 ->
  <[i := s1]> l0 !! j = Some s0' ->
  Slice.tiles s0' ≡ₚ y :: Slice.tiles s2 ->
  <[j := s2]> (<[i := s1]> l0) !! a = Some s2' ->
  <[a := Slice.add ya s2']> (<[j := s2]> (<[i := s1]> l0)) !! b = Some s3' ->
  let l4 := <[b := Slice.add yb s3']>
              (<[a := Slice.add ya s2']> (<[j := s2]> (<[i := s1]> l0))) in
  length l4 = length l0 /\
  all_tiles l4 ≡ₚ all_tiles l0 /\
  sizes l4 = sizes l0 /\
  (Forall aggregates_current l0 -> Forall aggregates_current l4).
Proof.
  intros Hab Hxy H0 Hx H1 Hy H2 H3 l4. unfold l4.
  split; [by rewrite !length_insert |]. split; [| split].
  - rewrite (all_tiles_add _ _ _ yb H3), (all_tiles_add _ _ _ ya H2).
    rewrite (all_tiles_remove _ _ _ _ x H0 Hx).
    rewrite (all_tiles_remove _ _ _ _ y H1 Hy).
    apply (Permutation_app_tail (l := [yb; ya]) (l' := [x; y])).
    etransitivity; [apply Permutation_swap | exact Hxy].
  - rewrite !sizes_insert, !add_tiles, !length_app. cbn [length].
    rewrite !Nat.add_1_r.
    apply (exchange_sizes (sizes l0) i j a b); [done | | | |].
    + rewrite (sizes_lookup _ _ _ H0), (Permutation_length Hx). done.
    + rewrite <- sizes_insert. rewrite (sizes_lookup _ _ _ H1).
      by rewrite (Permutation_length Hy).
    + rewrite <- !sizes_insert. by rewrite (sizes_lookup _ _ _ H2).
    + replace (S (length (Slice.tiles s2')))
        with (length (Slice.tiles (Slice.add ya s2')))
        by (rewrite add_tiles, length_app; cbn; lia).
      rewrite <- !sizes_insert. by rewrite (sizes_lookup _ _ _ H3).
  - intros Hcur. apply Forall_lookup_2. intros k s Hk.
    apply list_lookup_insert_Some in Hk as [(-> & <- & _) | [Hbk Hk]];
      [apply update_values_current |].
    apply list_lookup_insert_Some in Hk as [(-> & <- & _) | [Hak Hk]];
      [apply update_values_current |].
    assert (k <> i /\ k <> j) as [Hki Hkj]
      by (destruct Hab as [[-> ->] | [-> ->]]; done).
    rewrite !list_lookup_insert_ne in Hk by done.
    by eapply Forall_lookup_1.
Qed.

Lemma sizes_Permutation (l l' : list Slice.t) :
  l ≡ₚ l' -> sizes l ≡ₚ sizes l'.
Proof. intros H. unfold sizes. by rewrite H. Qed.

Lemma keeps_refl (l : list Slice.t) : keeps l l.
Proof. by unfold keeps. Qed.

Lemma keeps_trans (l1 l2 l3 : list Slice.t) :
  keeps l1 l2 -> keeps l2 l3 -> keeps l1 l3.
Proof.
  intros (A1 & A2 & A3 & A4) (B1 & B2 & B3 & B4). unfold keeps.
  split; [congruence |]. split; [by rewrite B2 |].
  split; [by rewrite B3 | auto].
Qed.

Lemma keeps_Permutation (l l' : list Slice.t) : l' ≡ₚ l -> keeps l l'.
Proof.
  intros H. unfold keeps. split; [by rewrite H |].
  split; [by apply all_tiles_Permutation |].
  split; [by apply sizes_Permutation | by rewrite H].
Qed.

Lemma keeps_exchange (l0 l4 : list Slice.t) :
  length l4 = length l0 /\
  all_tiles l4 ≡ₚ all_tiles l0 /\
  sizes l4 = sizes l0 /\
  (Forall aggregates_current l0 -> Forall aggregates_current l4) ->
  keeps l0 l4.
Proof. intros (H1 & H2 & H3 & H4). unfold keeps. by rewrite H3. Qed.

Lemma remove_best_tile_Some (c : string) (s s' : Slice.t) (x : Tile.t) :
  Slice.remove_best_tile c s = (Some x, s') ->
  Slice.tiles s ≡ₚ x :: Slice.tiles s' /\ Tile.color x = c.
Proof.
  unfold Slice.remove_best_tile.
  destruct (pop_first _ _) as [r l] eqn:Hpop. intros [= -> <-].
  apply pop_first_Some in Hpop as (l1 & l2 & Hsplit & -> & Hc & _).
  split; [| by apply has_color_eq]. cbn [Slice.tiles Slice.with_tiles].
  rewrite Permutation_middle, <- Hsplit. by rewrite sort_by_Permutation.
Qed.

Lemma remove_worst_tile_Some (c : string) (s s' : Slice.t) (x : Tile.t) :
  Slice.remove_worst_tile c s = (Some x, s') ->
  Slice.tiles s ≡ₚ x :: Slice.tiles s' /\ Tile.color x = c.
Proof.
  unfold Slice.remove_worst_tile.
  destruct (pop_first _ _) as [r l] eqn:Hpop. intros [= -> <-].
  apply pop_first_Some in Hpop as (l1 & l2 & Hsplit & -> & Hc & _).
  split; [| by apply has_color_eq]. cbn [Slice.tiles Slice.with_tiles].
  rewrite Permutation_middle, <- Hsplit. by rewrite sort_by_Permutation.
Qed.

Lemma remove_excessive_tile_Ok (s s' : Slice.t) (x : Tile.t) :
  Slice.remove_excessive_tile s = Ok (x, s') ->
  Slice.tiles s ≡ₚ x :: Slice.tiles s'.
Proof.
  unfold Slice.remove_excessive_tile. intros H.
  apply bind_Ok in H as ([y l] & Hpop & [= -> <-]).
  cbn [Slice.tiles Slice.with_tiles].
  destruct (sort_by _ _) as [| z l'] eqn:Hsort; cbn in Hpop; [done |].
  injection Hpop as -> ->. rewrite <- Hsort. by rewrite sort_by_Permutation.
Qed.

Lemma add_method_Ok (o : option Tile.t) (s s' : Slice.t) (u : unit) :
  add_method o s = Ok (u, s') -> exists x, o = Some x /\ s' = Slice.add x s.
Proof. destruct o as [x |]; cbn; [| done]. intros [= _ <-]. by exists x. Qed.

Lemma rebalance_best_worst_keeps (slices after : list Slice.t) :
  rebalance_best_worst slices = Ok after -> keeps slices after.
Proof.
  unfold rebalance_best_worst.
  pose proof (sort_by_Permutation Slice.lt slices) as Hperm.
  set (sorted := sort_by Slice.lt slices) in *. cbv zeta. intros H.
  apply keeps_trans with sorted; [by apply keeps_Permutation |].
  apply bind_Ok in H as (worst_slice & _ & H).
  apply bind_Ok in H as (best_slice & _ & H).
  apply bind_Ok in H as ([|] & _ & H);
    [| injection H as <-; apply keeps_refl].
  apply bind_Ok in H as ([best_tile l1] & Hc1 & H).
  apply bind_Ok in H as (bt & Hbt & H).
  destruct best_tile as [bt' |]; [| done]. injection Hbt as ->.
  apply bind_Ok in H as ([worst_tile l2] & Hc2 & H).
  apply bind_Ok in H as ([[] l3] & Hc3 & H).
  apply bind_Ok in H as ([[] l4] & Hc4 & [= <-]).
  apply call_Ok in Hc1 as (s0 & s1 & H0 & [= Hrb] & ->).
  apply call_Ok in Hc2 as (s0' & s2 & H1 & [= Hrw] & ->).
  apply call_Ok in Hc3 as (s2' & s3 & H2 & (wt & -> & ->)%add_method_Ok & ->).
  apply call_Ok in Hc4 as (s3' & s4 & H3 & (x & [= <-] & ->)%add_method_Ok & ->).
  apply remove_best_tile_Some in Hrb as [Hrb _].
  apply remove_worst_tile_Some in Hrw as [Hrw _].
  apply keeps_exchange.
  eapply (exchange_keeps sorted _ _ _ _ s0 s1 s0' s2 s2' s3' bt wt wt bt);
    [by left | apply Permutation_swap | done..].
Qed.

Lemma rebalance_res_inf_keeps (slices final : list Slice.t) :
  rebalance_res_inf slices = Ok final -> keeps slices final.
Proof.
  unfold rebalance_res_inf, sort_by_ratio. intros H.
  apply bind_Ok in H as (sorted & Hs & H).
  apply bind_Ok in Hs as (keyed & Hk & [= <-]).
  apply with_keys_Ok in Hk.
  assert (Hperm : snd <$> sort_by key_lt keyed ≡ₚ slices)
    by (by rewrite sort_by_Permutation, Hk).
  set (sorted := snd <$> sort_by key_lt keyed) in *.
  apply keeps_trans with sorted; [by apply keeps_Permutation |].
  apply bind_Ok in H as (w & _ & H).
  apply bind_Ok in H as (b & _ & H).
  destruct (_ || _); [| injection H as <-; apply keeps_refl].
  apply bind_Ok in H as ([x l1] & Hc1 & H).
  apply bind_Ok in H as ([y l2] & Hc2 & H).
  apply bind_Ok in H as ([[] l3] & Hc3 & H).
  apply bind_Ok in H as ([[] l4] & Hc4 & [= <-]).
  apply call_Ok in Hc1 as (s0 & s1 & H0 & Hrx & ->).
  apply call_Ok in Hc2 as (s0' & s2 & H1 & Hry & ->).
  apply call_Ok in Hc3 as (s2' & s3 & H2 & (x' & [= <-] & ->)%add_method_Ok & ->).
  apply call_Ok in Hc4 as (s3' & s4 & H3 & (y' & [= <-] & ->)%add_method_Ok & ->).
  apply remove_excessive_tile_Ok in Hrx, Hry.
  apply keeps_exchange.
  eapply (exchange_keeps sorted _ _ _ _ s0 s1 s0' s2 s2' s3' x y x y);
    [by right | done..].
Qed.

Lemma rebalance_slices_keeps (slices final : list Slice.t) :
  rebalance_slices slices = Ok final -> keeps slices final.
Proof.
  unfold rebalance_slices. intros H.
  apply bind_Ok in H as (after & Ha & Hf).
  eapply keeps_trans;
    [by apply rebalance_best_worst_keeps | by apply rebalance_res_inf_keeps].
Qed.

Lemma sizes_five (l : list Slice.t) :
  Forall five_tiles l <-> Forall (fun n => n = 5%nat) (sizes l).
Proof. unfold sizes. by rewrite Forall_fmap. Qed.

(** X1: a pass of [rebalance_slices] that returns has moved tiles
    between slices and reordered the slices, nothing more: the number of
    slices, the tiles held by all the slices together and the numbers of
    tiles of the slices are those of the start, slices of five tiles stay
    slices of five tiles, and aggregates that were those of the members
    are so again. *)
Theorem rebalance_slices_invariants (slices final : list Slice.t) :
  rebalance_slices slices = Ok final ->
  keeps slices final /\
  (Forall five_tiles slices -> Forall five_tiles final).
Proof.
  intros H. pose proof (rebalance_slices_keeps slices final H) as Hk.
  split; [exact Hk |]. destruct Hk as (_ & _ & Hsizes & _).
  rewrite !sizes_five. by rewrite Hsizes.
Qed.

Lemma rebalance_slices_invariants_witness :
  exists final,
    rebalance_slices [sample_influence_slice; sample_resources_slice]
    = Ok final /\
    keeps [sample_influence_slice; sample_resources_slice] final /\
    Forall five_tiles final.
Proof.
  destruct (rebalance_slices
              [sample_influence_slice; sample_resources_slice])
    as [final | |] eqn:Hrun; [| by vm_compute in Hrun..].
  exists final. split; [done |].
  destruct (rebalance_slices_invariants _ _ Hrun) as [Hk H5].
  split; [exact Hk |]. apply H5. by repeat constructor.
Defined.

(** *** What the balance loop returns *)

Lemma check_slice_balance_true (slices : list Slice.t) :
  check_slice_balance slices = Ok true ->
  (Forall small slices ->
   forall s s', s ∈ slices -> s' ∈ slices ->
     2 * Slice.absolute_value s < 3 * Slice.absolute_value s') /\
  (forall s, s ∈ slices -> ~ skewed s).
Proof.
  destruct slices as [| x l]; [done |]. intros Hcheck. split.
  - intros Hsmall s s' Hs Hs'.
    destruct (check_slice_balance_small x l Hsmall)
      as (best & worst & [_ Hmax] & [_ Hmin] & Heq).
    rewrite Heq in Hcheck.
    injection Hcheck as [Hspread _]%andb_true_iff.
    apply negb_true_iff, Z.leb_gt in Hspread.
    assert (Slice.absolute_value s <= Slice.absolute_value best)
      by (by apply Hmax, list_elem_of_fmap_2).
    assert (Slice.absolute_value worst <= Slice.absolute_value s')
      by (by apply Hmin, list_elem_of_fmap_2).
    lia.
  - intros s Hs Hsk. by apply (check_slice_balance_skewed (x :: l) s).
Qed.

Lemma balance_keeps (fuel : nat) (slices final : list Slice.t) :
  balance fuel slices = Ok final ->
  check_slice_balance final = Ok true /\ keeps slices final.
Proof.
  revert slices. induction fuel as [| fuel IH]; intros slices; [done |].
  cbn [balance]. intros H.
  apply bind_Ok in H as ([|] & Hcheck & H).
  - injection H as <-. split; [done | apply keeps_refl].
  - apply bind_Ok in H as (slices' & Hpass & H).
    destruct (IH slices' H) as [Hfinal Hk]. split; [done |].
    eapply keeps_trans; [by apply rebalance_slices_keeps | done].
Qed.

(** X2: when the loop of [prepare_slices] ends without an exception,
    the slices it leaves pass [check_slice_balance] and none is skewed;
    when their absolute values are in the range where the float product
    by 1.5 is exact, any two of them are within a factor 1.5 of each
    other.  They are the slices of the start up to the order and to
    exchanges of tiles. *)
Theorem balance_returns_balanced (fuel : nat) (slices final : list Slice.t) :
  balance fuel slices = Ok final ->
  check_slice_balance final = Ok true /\
  (Forall small final ->
   forall s s', s ∈ final -> s' ∈ final ->
     2 * Slice.absolute_value s < 3 * Slice.absolute_value s') /\
  (forall s, s ∈ final -> ~ skewed s) /\
  keeps slices final.
Proof.
  intros H. destruct (balance_keeps fuel slices final H) as [Hcheck Hk].
  destruct (check_slice_balance_true final Hcheck) as [Hspread Hskew].
  done.
Qed.

Lemma balance_returns_balanced_witness :
  exists final,
    balance 3 [sample_slice; sample_rich_slice] = Ok final /\
    check_slice_balance final = Ok true /\
    keeps [sample_slice; sample_rich_slice] final.
Proof.
  destruct (balance 3 [sample_slice; sample_rich_slice])
    as [final | |] eqn:Hrun; [| by vm_compute in Hrun..].
  exists final. split; [done |].
  destruct (balance_returns_balanced _ _ _ Hrun) as (H1 & _ & _ & H4).
  by split.
Defined.

(** *** [place_tiles] on any slice *)

Lemma bind_assoc {A B C : Type} (m : outcome A) (f : A -> outcome B)
  (k : B -> outcome C) :
  (m ≫= f) ≫= k = m ≫= (fun a => f a ≫= k).
Proof. by destruct m. Qed.

Lemma red_loop_short (l : list Tile.t) (result : list (option Tile.t))
  (positions : list nat) (g : Random) :
  (length positions < length l)%nat ->
  Slice.red_loop l (result, positions, g) = Raise IndexError.
Proof.
  revert result positions.
  induction l as [| x l IH]; intros result positions Hlen; cbn in Hlen;
    [lia |].
  cbn [Slice.red_loop Slice.put].
  destruct positions as [| p ps]; cbn [pop0 mbind outcome_bind]; [done |].
  apply IH. cbn in Hlen. lia.
Qed.

Lemma fill_take (l : list Tile.t) (positions : list nat)
  (r : list (option Tile.t)) :
  fill r positions l = fill r (take (length l) positions) l.
Proof.
  revert positions r. induction l as [| x l IH]; intros positions r; [done |].
  destruct positions as [| p ps]; [done |]. cbn [fill length take]. apply IH.
Qed.

Lemma elem_of_take_inv {A : Type} (x : A) (n : nat) (l : list A) :
  x ∈ take n l -> x ∈ l.
Proof.
  intros (i & Hi & _)%elem_of_take. by eapply list_elem_of_lookup_2.
Qed.

Lemma fill_spec_le (l : list Tile.t) (positions : list nat)
  (r : list (option Tile.t)) :
  (length l <= length positions)%nat ->
  NoDup positions ->
  (forall p, p ∈ positions -> r !! p = Some None) ->
  filled (fill r positions l) ≡ₚ l ++ filled r /\
  length (fill r positions l) = length r /\
  (forall q, q ∉ take (length l) positions ->
             fill r positions l !! q = r !! q).
Proof.
  intros Hlen Hnd Hfree. rewrite fill_take. apply fill_spec.
  - rewrite length_take. lia.
  - eapply sublist_NoDup; [done | apply sublist_take].
  - intros p Hp. apply Hfree. by eapply elem_of_take_inv.
Qed.

Lemma fill_first (l : list Tile.t) (p : nat) (ps : list nat) (x : Tile.t)
  (r : list (option Tile.t)) :
  (length l <= length ps)%nat ->
  NoDup (p :: ps) ->
  (p < length r)%nat ->
  (forall q, q ∈ ps -> r !! q = Some None) ->
  fill r (p :: ps) (x :: l) !! p = Some (Some x).
Proof.
  intros Hlen [Hp Hnd]%NoDup_cons Hlt Hfree. cbn [fill].
  destruct (fill_spec_le l ps (<[p := Some x]> r)) as (_ & _ & Hother);
    [done | done | |].
  - intros q Hq. rewrite list_lookup_insert_ne by (intros ->; done).
    by apply Hfree.
  - rewrite Hother; [by apply list_lookup_insert_eq |].
    intros Hin. apply Hp. by eapply elem_of_take_inv.
Qed.

Lemma put_blue_first_hub (m : bool) (x : Tile.t)
  (result : list (option Tile.t)) (na : list nat) (g : Random) :
  length na = 4%nat ->
  exists (k : nat) (g' : Random),
    (k <= 3)%nat /\ (m = true -> k = 0%nat) /\
    Slice.put_blue m 0 x (result, na, g)
    = Slice.put x (result, Slice.insert_at k 0%nat na, g').
Proof.
  intros Hna. unfold Slice.put_blue. cbn [Nat.eqb andb].
  destruct m.
  - exists 0%nat, g. split; [lia | done].
  - rewrite Hna. unfold randint.
    change (Z.of_nat 4 - 1 - 0 + 1 <=? 0) with false. cbv iota.
    change (Z.to_nat (Z.of_nat 4 - 1 - 0 + 1)) with 4%nat.
    unfold randbelow. cbn [mbind outcome_bind].
    exists (Z.to_nat (0 + Z.of_nat (draws g (cursor g) `mod` 4))),
      (mkRandom (draws g) (S (cursor g))).
    split; [| done].
    pose proof (Nat.mod_upper_bound (draws g (cursor g)) 4). lia.
Qed.

(** What [place_tiles] does: the blue tiles of the shuffled slice, then
    the red ones, go to the candidate positions in their order; slot 0
    is a candidate only when there is a blue tile. *)
Lemma place_tiles_fill (s : Slice.t) (g : Random) :
  exists (ts : list Tile.t) (positions : list nat) (g' : Random),
    ts ≡ₚ Slice.tiles s /\
    NoDup positions /\
    (forall p, p ∈ positions -> p ∈ [0; 1; 3; 5; 6]%nat) /\
    length positions
    = (if List.filter (Tile.has_color "blue") ts is [] then 4 else 5)%nat /\
    ((1 < length (List.filter Tile.has_anomalies ts))%nat ->
     List.filter (Tile.has_color "blue") ts <> [] ->
     head positions = Some 0%nat) /\
    Slice.place_tiles s g
    = Slice.red_loop
        (List.filter (Tile.has_color "blue") ts
         ++ List.filter (Tile.has_color "red") ts)
        (replicate 7 None, positions, g')
      ≫= fun '(result, _, g3) => Ok (result, g3).
Proof.
  unfold Slice.place_tiles.
  pose proof (shuffle_Permutation (Slice.tiles s) g) as Hts.
  destruct (shuffle (Slice.tiles s) g) as [ts g1]. cbn [fst] in Hts.
  pose proof (shuffle_Permutation [1; 3; 5; 6]%nat g1) as Hna.
  destruct (shuffle [1; 3; 5; 6]%nat g1) as [na g2]. cbn [fst] in Hna.
  rewrite !filter_tiles_color by done.
  set (m := (1 <? length (List.filter Tile.has_anomalies ts))%nat).
  assert (Hna4 : length na = 4%nat) by (by rewrite (Permutation_length Hna)).
  assert (Hnd : NoDup [0; 1; 3; 5; 6]%nat)
    by (repeat (apply NoDup_cons; split; [members |]); apply NoDup_nil_2).
  destruct (List.filter (Tile.has_color "blue") ts) as [| b bs] eqn:Hb.
  - exists ts, na, g2. rewrite Hb. split; [done |].
    split; [rewrite Hna; by apply NoDup_cons in Hnd as [_ Hnd] |].
    split; [intros p Hp; rewrite Hna in Hp; by right |].
    split; [done |]. split; [done |]. done.
  - cbn [Slice.blue_loop].
    destruct (put_blue_first_hub m b (replicate 7 None) na g2 Hna4)
      as (k & g3 & Hk & Hm & ->).
    exists ts, (Slice.insert_at k 0%nat na), g3. rewrite Hb.
    split; [done |].
    assert (Hpos : Slice.insert_at k 0%nat na ≡ₚ [0; 1; 3; 5; 6]%nat)
      by (by rewrite insert_at_Permutation, Hna).
    split; [by rewrite Hpos |]. split; [intros p Hp; by rewrite <- Hpos |].
    split; [by rewrite (Permutation_length Hpos) |]. split.
    + intros Hmany _. rewrite Hm; [done |]. by apply Nat.ltb_lt.
    + rewrite red_loop_app, bind_assoc. cbn [Slice.red_loop].
      rewrite bind_assoc.
      destruct (Slice.put b _) as [st' | e |]; cbn [mbind outcome_bind];
        [| done | done].
      by rewrite blue_loop_later.
Qed.

Lemma filter_nil_Permutation {A : Type} (l l' : list A) :
  l ≡ₚ l' -> (if l is [] then 4 else 5)%nat = (if l' is [] then 4 else 5)%nat.
Proof.
  intros H. destruct l, l'; try done.
  - by apply Permutation_nil_cons in H.
  - symmetry in H. by apply Permutation_nil_cons in H.
Qed.

Lemma place_tiles_cases (s : Slice.t) (g : Random) :
  ((length (blue_tiles s) + length (red_tiles s) <= room s)%nat /\
   exists result g',
     Slice.place_tiles s g = Ok (result, g') /\
     placement_of (blue_tiles s ++ red_tiles s) result)
  \/ ((room s < length (blue_tiles s) + length (red_tiles s))%nat /\
      Slice.place_tiles s g = Raise IndexError).
Proof.
  destruct (place_tiles_fill s g)
    as (ts & positions & g' & Hts & Hnd & Hpos & Hlen & _ & ->).
  pose proof (filter_Permutation (Tile.has_color "blue") _ _ Hts) as Hfb.
  pose proof (filter_Permutation (Tile.has_color "red") _ _ Hts) as Hfr.
  rewrite (filter_nil_Permutation _ _ Hfb) in Hlen. fold (blue_tiles s) in *.
  fold (red_tiles s) in *. fold (room s) in Hlen.
  set (l := List.filter (Tile.has_color "blue") ts
            ++ List.filter (Tile.has_color "red") ts).
  assert (Hl : l ≡ₚ blue_tiles s ++ red_tiles s)
    by (unfold l; by rewrite Hfb, Hfr).
  rewrite <- length_app, <- (Permutation_length Hl), <- Hlen.
  destruct (Nat.le_gt_cases (length l) (length positions)) as [Hle | Hgt].
  - left. split; [done |]. rewrite red_loop_fill by done.
    cbn [mbind outcome_bind]. eexists _, _. split; [done |].
    destruct (fill_spec_le l positions (replicate 7 None))
      as (Hperm & Hlength & Hother); [done | done | |].
    { intros p Hp. apply Hpos in Hp. apply lookup_replicate_2.
      rewrite !elem_of_cons, elem_of_nil in Hp. lia. }
    unfold placement_of. rewrite Hlength, length_replicate.
    split; [done |].
    assert (Hfree : forall q, q ∉ [0; 1; 3; 5; 6]%nat ->
                              q ∉ take (length l) positions)
      by (intros q Hq Hin; by apply Hq, Hpos, (elem_of_take_inv _ _ _ Hin)).
    split; [rewrite Hother; [done | apply Hfree; members] |].
    split; [rewrite Hother; [done | apply Hfree; members] |].
    rewrite Hperm. change (filled (replicate 7 None)) with (@nil Tile.t).
    by rewrite app_nil_r.
  - right. split; [done |]. by rewrite red_loop_short.
Qed.

(** X3: [place_tiles] places the blue and the red tiles of a slice, and
    only those; it has five positions for them when the slice has a blue
    tile and four otherwise.  When they fit it returns seven slots, slots
    2 and 4 empty, that hold exactly these tiles; when they do not it
    raises [IndexError]. *)
Theorem place_tiles_outcome (s : Slice.t) (g : Random) :
  ((length (blue_tiles s) + length (red_tiles s) <= room s)%nat ->
   exists result g',
     Slice.place_tiles s g = Ok (result, g') /\
     placement_of (blue_tiles s ++ red_tiles s) result) /\
  ((room s < length (blue_tiles s) + length (red_tiles s))%nat ->
   Slice.place_tiles s g = Raise IndexError).
Proof.
  destruct (place_tiles_cases s g) as [[Hfit Hok] | [Hover Hraise]].
  - split; [done | lia].
  - split; [lia | done].
Qed.

Lemma place_tiles_outcome_witness :
  exists result g',
    Slice.place_tiles
      (Slice.init [sample_tile 1 "red" 1 1; sample_tile 2 "green" 1 1;
                   sample_tile 3 "blue" 1 1])
      sample_random = Ok (result, g') /\
    placement_of [sample_tile 3 "blue" 1 1; sample_tile 1 "red" 1 1] result.
Proof.
  destruct (place_tiles_outcome
              (Slice.init [sample_tile 1 "red" 1 1; sample_tile 2 "green" 1 1;
                           sample_tile 3 "blue" 1 1]) sample_random)
    as [H _].
  apply H. vm_compute. lia.
Defined.

(** X4: when two or more tiles of a slice carry anomalies and the slice
    has a blue tile, [place_tiles] puts a blue tile of the slice in slot
    0, provided the tiles fit. *)
Theorem place_tiles_hub_is_blue (s : Slice.t) (g : Random) :
  (1 < length (List.filter Tile.has_anomalies (Slice.tiles s)))%nat ->
  blue_tiles s <> [] ->
  (length (blue_tiles s) + length (red_tiles s) <= 5)%nat ->
  exists result g' x,
    Slice.place_tiles s g = Ok (result, g') /\
    result !! 0%nat = Some (Some x) /\
    x ∈ Slice.tiles s /\
    Tile.color x = "blue"%string.
Proof.
  intros Hmany Hblue Hfit.
  destruct (place_tiles_fill s g)
    as (ts & positions & g' & Hts & Hnd & Hpos & Hlen & Hhub & ->).
  pose proof (filter_Permutation (Tile.has_color "blue") _ _ Hts) as Hfb.
  pose proof (filter_Permutation (Tile.has_color "red") _ _ Hts) as Hfr.
  pose proof (filter_Permutation Tile.has_anomalies _ _ Hts) as Hfa.
  fold (blue_tiles s) in Hfb. fold (red_tiles s) in Hfr.
  rewrite <- (Permutation_length Hfa) in Hmany.
  rewrite <- (Permutation_length Hfb), <- (Permutation_length Hfr) in Hfit.
  assert (Hb : List.filter (Tile.has_color "blue") ts <> []).
  { intros Hnil. apply Hblue. rewrite Hnil in Hfb.
    symmetry. by apply Permutation_nil_l. }
  specialize (Hhub Hmany Hb).
  destruct (List.filter (Tile.has_color "blue") ts) as [| b bs] eqn:Hfilter;
    [done |].
  destruct positions as [| p ps]; [done |]. injection Hhub as ->.
  cbn [length] in Hlen, Hfit. rewrite <- app_comm_cons.
  rewrite red_loop_fill by (cbn [length]; rewrite length_app; lia).
  cbn [mbind outcome_bind]. eexists _, _, b. split; [done |].
  assert (Hbin : In b (List.filter (Tile.has_color "blue") ts))
    by (rewrite Hfilter; by left).
  apply List.filter_In in Hbin as [Hbin Hbc].
  split; [| split; [rewrite <- Hts; by apply list_elem_of_In
                   | by apply has_color_eq]].
  apply fill_first; [rewrite length_app; lia | done | | ].
  - rewrite length_replicate. lia.
  - intros q Hq. apply lookup_replicate_2.
    assert (Hq' : q ∈ [0; 1; 3; 5; 6]%nat) by (apply Hpos; by right).
    rewrite !elem_of_cons, elem_of_nil in Hq'. lia.
Qed.

Lemma place_tiles_hub_is_blue_witness :
  exists result g' x,
    Slice.place_tiles sample_anomaly_slice sample_random = Ok (result, g') /\
    result !! 0%nat = Some (Some x) /\
    x ∈ Slice.tiles sample_anomaly_slice /\
    Tile.color x = "blue"%string.
Proof.
  apply (place_tiles_hub_is_blue sample_anomaly_slice sample_random).
  - vm_compute. lia.
  - by vm_compute.
  - vm_compute. lia.
Defined.

(** *** A slice that cannot be placed *)

Lemma place_tiles_five_red (s : Slice.t) (g : Random) :
  five_tiles s ->
  Forall (fun x => Tile.color x = "red"%string) (Slice.tiles s) ->
  Slice.place_tiles s g = Raise IndexError.
Proof.
  intros H5 Hred.
  assert (Hr : red_tiles s = Slice.tiles s).
  { apply filter_all. eapply Forall_impl; [exact Hred |].
    intros x Hx. by apply has_color_eq. }
  assert (Hb : blue_tiles s = []).
  { apply filter_none. eapply Forall_impl; [exact Hred |].
    intros x Hx. by apply red_not_blue, has_color_eq. }
  destruct (place_tiles_cases s g) as [[Hfit _] | [_ Hraise]]; [| done].
  unfold room in Hfit. rewrite Hb, Hr in Hfit. unfold five_tiles in H5.
  rewrite H5 in Hfit. cbn in Hfit. lia.
Qed.

(** C6, on the code: the pipeline builds a slice that [place_tiles]
    cannot place.  From [sample_unplaceable_catalog], 12 red and 19 blue
    tiles, [generate_slices] deals six slices of two red and three blue
    tiles.  The second half of [rebalance_slices] exchanges tiles
    whatever their colours: after three passes one slice holds five red
    tiles, the check passes and the loop ends.  [place_tiles] has four
    positions for these five tiles, slot 0 being added only when a blue
    tile is placed, and raises [IndexError]; so does the pipeline. *)
Theorem place_tiles_unplaceable_slice :
  exists (pool : list Tile.t) (g1 : Random) (slices : list Slice.t)
         (g2 : Random) (balanced : list Slice.t) (s : Slice.t),
    draw_all_tiles 100 sample_unplaceable_catalog 6 sample_random
    = Ok (pool, g1) /\
    generate_slices pool 6 g1 = Ok (slices, g2) /\
    Forall two_red_three_blue slices /\
    balance 100 slices = Ok balanced /\
    s ∈ balanced /\
    five_tiles s /\
    Forall (fun x => Tile.color x = "red"%string) (Slice.tiles s) /\
    (forall g : Random, Slice.place_tiles s g = Raise IndexError) /\
    prepare_slices 100 sample_unplaceable_catalog sample_random
    = Raise IndexError.
Proof.
  eexists _, _, _, _, _, _.
  split; [vm_compute; reflexivity |].
  split; [vm_compute; reflexivity |].
  split; [repeat (apply Forall_cons; split;
                  [vm_compute; repeat split; reflexivity |]);
          apply Forall_nil; exact I |].
  split; [vm_compute; reflexivity |].
  split; [left |].
  split; [vm_compute; reflexivity |].
  split; [repeat (apply Forall_cons; split; [vm_compute; reflexivity |]);
          apply Forall_nil; exact I |].
  split; [| vm_compute; reflexivity].
  intros g. apply place_tiles_five_red.
  - vm_compute; reflexivity.
  - repeat (apply Forall_cons; split; [vm_compute; reflexivity |]).
    apply Forall_nil; exact I.
Qed.

(** *** [generate_slices] on any pool *)

Lemma pop_n_short {A : Type} (n : nat) (acc l : list A) :
  (length l < n)%nat -> pop_n n acc l = Raise IndexError.
Proof.
  revert acc l. induction n as [| n IH]; intros acc l Hlen; [lia |].
  cbn [pop_n]. destruct l as [| x l]; cbn [pop0 mbind outcome_bind]; [done |].
  apply IH. cbn in Hlen. lia.
Qed.

Lemma deal_short (k : nat) (slices : list Slice.t)
  (red blue : list Tile.t) :
  (length red < 2 * k)%nat \/ (length blue < 3 * k)%nat ->
  deal k slices red blue = Raise IndexError.
Proof.
  revert slices red blue.
  induction k as [| k IH]; intros slices red blue Hshort; [lia |].
  cbn [deal].
  destruct (Nat.le_gt_cases 2 (length red)) as [Hr | Hr];
    [| by rewrite pop_n_short].
  rewrite (pop_n_enough 2) by done. cbn [mbind outcome_bind].
  destruct (Nat.le_gt_cases 3 (length blue)) as [Hb | Hb];
    [| by rewrite pop_n_short].
  rewrite (pop_n_enough 3) by done. cbn [mbind outcome_bind].
  apply IH. rewrite !length_drop. lia.
Qed.

Lemma red_blue_submseteq (pool : list Tile.t) :
  List.filter (Tile.has_color "red") pool
  ++ List.filter (Tile.has_color "blue") pool ⊆+ pool.
Proof.
  induction pool as [| x l IH]; cbn [List.filter]; [done |].
  destruct (Tile.has_color "red" x) eqn:Hr.
  - rewrite (red_not_blue x Hr). cbn [app]. by apply submseteq_skip.
  - destruct (Tile.has_color "blue" x).
    + rewrite <- Permutation_middle. by apply submseteq_skip.
    + by apply submseteq_cons.
Qed.

Lemma dealt_current (k : nat) (red blue : list Tile.t) :
  Forall aggregates_current (dealt k red blue).
Proof.
  revert red blue. induction k as [| k IH]; intros red blue; cbn [dealt];
    constructor; [apply update_values_current | apply IH].
Qed.

Lemma generate_slices_cases (pool : list Tile.t) (g : Random) :
  (((length (List.filter (Tile.has_color "red") pool) < 12)%nat
    \/ (length (List.filter (Tile.has_color "blue") pool) < 18)%nat) /\
   generate_slices pool 6 g = Raise IndexError)
  \/ ((12 <= length (List.filter (Tile.has_color "red") pool))%nat /\
      (18 <= length (List.filter (Tile.has_color "blue") pool))%nat /\
      exists slices g',
        generate_slices pool 6 g = Ok (slices, g') /\
        length slices = 6%nat /\
        Forall two_red_three_blue slices /\
        Forall aggregates_current slices /\
        all_tiles slices ⊆+ pool).
Proof.
  unfold generate_slices.
  change (negb (6 =? 6)) with false. cbv iota.
  change (Z.to_nat 6) with 6%nat.
  pose proof (shuffle_Permutation
                (List.filter (Tile.has_color "red") pool) g) as Hpr.
  destruct (shuffle (List.filter (Tile.has_color "red") pool) g)
    as [red g1].
  pose proof (shuffle_Permutation
                (List.filter (Tile.has_color "blue") pool) g1) as Hpb.
  destruct (shuffle (List.filter (Tile.has_color "blue") pool) g1)
    as [blue g2].
  cbn [fst] in Hpr, Hpb.
  rewrite <- (Permutation_length Hpr), <- (Permutation_length Hpb).
  destruct (Nat.le_gt_cases 12 (length red)) as [Hr | Hr];
    [| left; split; [by left | by rewrite deal_short by lia]].
  destruct (Nat.le_gt_cases 18 (length blue)) as [Hb | Hb];
    [| left; split; [by right | by rewrite deal_short by lia]].
  right. split; [done |]. split; [done |].
  rewrite deal_enough by lia. cbn [mbind outcome_bind app].
  exists (dealt 6 red blue), g2.
  split; [done |]. split; [apply dealt_length |]. split; [| split].
  - apply dealt_colors; [| | lia | lia].
    + rewrite Hpr. apply filter_Forall.
    + rewrite Hpb. apply filter_Forall.
  - apply dealt_current.
  - unfold all_tiles. rewrite dealt_tiles by lia.
    etransitivity; [| apply red_blue_submseteq].
    rewrite <- Hpr, <- Hpb.
    apply submseteq_app; apply submseteq_take.
Qed.

(** X5: [generate_slices] raises [IndexError] exactly when the pool has
    fewer than 12 red or fewer than 18 blue tiles.  Otherwise it returns
    six slices of two red and three blue tiles with their aggregates
    computed; their tiles are tiles of the pool, none taken twice; tiles
    in excess and tiles of another colour stay out. *)
Theorem generate_slices_outcome (pool : list Tile.t) (g : Random) :
  (generate_slices pool 6 g = Raise IndexError <->
   (length (List.filter (Tile.has_color "red") pool) < 12)%nat
   \/ (length (List.filter (Tile.has_color "blue") pool) < 18)%nat) /\
  ((12 <= length (List.filter (Tile.has_color "red") pool))%nat ->
   (18 <= length (List.filter (Tile.has_color "blue") pool))%nat ->
   exists slices g',
     generate_slices pool 6 g = Ok (slices, g') /\
     length slices = 6%nat /\
     Forall two_red_three_blue slices /\
     Forall aggregates_current slices /\
     all_tiles slices ⊆+ pool).
Proof.
  destruct (generate_slices_cases pool g)
    as [[Hshort Hraise] | (Hr & Hb & slices & g' & Hok & Hrest)].
  - split; [by split | intros; lia].
  - split; [| intros _ _; by exists slices, g'].
    rewrite Hok. split; [done | lia].
Qed.

Lemma generate_slices_outcome_witness :
  exists slices g',
    generate_slices (sample_tile 99 "green" 1 1 :: sample_catalog) 6
      sample_random = Ok (slices, g') /\
    length slices = 6%nat /\
    Forall two_red_three_blue slices /\
    Forall aggregates_current slices /\
    all_tiles slices ⊆+ sample_tile 99 "green" 1 1 :: sample_catalog.
Proof.
  destruct (generate_slices_outcome
              (sample_tile 99 "green" 1 1 :: sample_catalog) sample_random)
    as [_ H].
  apply H; vm_compute; lia.
Defined.

(** *** [draw_all_tiles] on any list of tiles *)

Lemma exclude_tile_all_red (fuel : nat) (l : list Tile.t) :
  l <> [] ->
  Forall (fun x => Tile.has_color "red" x = true) l ->
  exclude_tile fuel l = Diverge.
Proof.
  revert l. induction fuel as [| fuel IH]; intros l Hne Hred; [done |].
  destruct l as [| x rest]; [done |].
  apply Forall_cons in Hred as [Hx Hrest].
  cbn [exclude_tile pop0 mbind outcome_bind].
  unfold Tile.has_color in Hx. rewrite Hx. apply IH.
  - by destruct rest.
  - apply Forall_app. split; [done |]. by apply Forall_singleton.
Qed.

Lemma exclude_tile_Ok (fuel : nat) (l rest : list Tile.t) :
  exclude_tile fuel l = Ok rest ->
  exists x, l ≡ₚ x :: rest /\ Tile.has_color "red" x = false.
Proof.
  revert l. induction fuel as [| fuel IH]; intros l; [done |].
  destruct l as [| x l']; [done |].
  cbn [exclude_tile pop0 mbind outcome_bind].
  destruct (String.eqb (Tile.color x) "red") eqn:Hx.
  - intros H. destruct (IH _ H) as (y & Hperm & Hy). exists y.
    split; [| done]. by rewrite <- Hperm, Permutation_app_comm.
  - intros [= <-]. by exists x.
Qed.

Lemma draw_all_tiles_Ok (fuel : nat) (tiles pool : list Tile.t)
  (g g' : Random) :
  draw_all_tiles fuel tiles 6 g = Ok (pool, g') ->
  exists x, tiles ≡ₚ x :: pool /\ Tile.has_color "red" x = false.
Proof.
  unfold draw_all_tiles. change (negb (6 =? 6)) with false. cbv iota.
  pose proof (shuffle_Permutation tiles g) as Hsh.
  destruct (shuffle tiles g) as [shuffled g1]. cbn [fst] in Hsh.
  intros H. apply bind_Ok in H as (rest & Hex & [= <- <-]).
  destruct (exclude_tile_Ok _ _ _ Hex) as (x & Hperm & Hx).
  exists x. by rewrite <- Hsh.
Qed.

(** X6: when some tile is not red, [draw_all_tiles] returns within as
    many rounds of its loop as there are tiles; it leaves out one tile,
    which is not red, and keeps all the others.  Whenever it returns,
    that is what it has done. *)
Theorem draw_all_tiles_excludes_one (tiles : list Tile.t) (g : Random) :
  (Exists (fun x => Tile.color x <> "red"%string) tiles ->
   forall fuel, (length tiles <= fuel)%nat ->
     exists excluded pool g',
       draw_all_tiles fuel tiles 6 g = Ok (pool, g') /\
       tiles ≡ₚ excluded :: pool /\
       Tile.color excluded <> "red"%string) /\
  (forall fuel pool g',
     draw_all_tiles fuel tiles 6 g = Ok (pool, g') ->
     exists excluded,
       tiles ≡ₚ excluded :: pool /\ Tile.color excluded <> "red"%string).
Proof.
  assert (Hcol : forall x, Tile.has_color "red" x = false
                           <-> Tile.color x <> "red"%string).
  { intros x. rewrite <- has_color_eq. by destruct (Tile.has_color "red" x). }
  split.
  - intros Hex fuel Hfuel.
    assert (Hrun : finished (draw_all_tiles (length tiles) tiles 6 g) /\
                   exists pool g',
                     draw_all_tiles (length tiles) tiles 6 g = Ok (pool, g')).
    { unfold draw_all_tiles. change (negb (6 =? 6)) with false. cbv iota.
      pose proof (shuffle_Permutation tiles g) as Hsh.
      destruct (shuffle tiles g) as [shuffled g1]. cbn [fst] in Hsh.
      rewrite <- (Permutation_length Hsh), <- Hsh in *.
      destruct (exclude_tile_enough shuffled) as (x & pool & -> & _).
      - eapply Exists_impl; [exact Hex |]. intros x. apply Hcol.
      - split; [done | by exists pool, g1]. }
    destruct Hrun as (Hfin & pool & g' & Hrun).
    rewrite <- (draw_all_tiles_mono (length tiles) fuel) in Hrun by done.
    destruct (draw_all_tiles_Ok _ _ _ _ _ Hrun) as (x & Hperm & Hx).
    exists x, pool, g'. split; [done |]. split; [done | by apply Hcol].
  - intros fuel pool g' Hrun.
    destruct (draw_all_tiles_Ok _ _ _ _ _ Hrun) as (x & Hperm & Hx).
    exists x. split; [done | by apply Hcol].
Qed.

Lemma draw_all_tiles_excludes_one_witness :
  exists excluded pool g',
    draw_all_tiles 40 sample_catalog 6 sample_random = Ok (pool, g') /\
    sample_catalog ≡ₚ excluded :: pool /\
    Tile.color excluded <> "red"%string.
Proof.
  destruct (draw_all_tiles_excludes_one sample_catalog sample_random)
    as [H _].
  apply H.
  - unfold sample_catalog. apply Exists_app. right. by left.
  - vm_compute. lia.
Defined.

(** X7: [draw_all_tiles] has nothing to leave out of an empty list,
    where it raises [IndexError], and of a list of red tiles only, where
    its loop turns the list round for ever. *)
Theorem draw_all_tiles_nothing_to_exclude :
  (forall (fuel : nat) (g : Random),
     draw_all_tiles (S fuel) [] 6 g = Raise IndexError) /\
  (forall (tiles : list Tile.t) (fuel : nat) (g : Random),
     tiles <> [] ->
     Forall (fun x => Tile.color x = "red"%string) tiles ->
     draw_all_tiles fuel tiles 6 g = Diverge).
Proof.
  split; [done |]. intros tiles fuel g Hne Hred. unfold draw_all_tiles.
  change (negb (6 =? 6)) with false. cbv iota.
  pose proof (shuffle_Permutation tiles g) as Hsh.
  destruct (shuffle tiles g) as [shuffled g1]. cbn [fst] in Hsh.
  rewrite exclude_tile_all_red; [done | |].
  - intros ->. apply Hne. symmetry. by apply Permutation_nil_l.
  - rewrite Hsh. eapply Forall_impl; [exact Hred |].
    intros x. apply has_color_eq.
Qed.

Lemma draw_all_tiles_nothing_to_exclude_witness :
  draw_all_tiles 1000 (sample_tiles 0 3 "red" 1 1) 6 sample_random = Diverge.
Proof.
  destruct draw_all_tiles_nothing_to_exclude as [_ H].
  apply H; [done |]. apply Forall_fmap, Forall_forall. by intros k _.
Defined.

(** *** What [prepare_slices] returns *)

Lemma red_blue_count (l : list Tile.t) :
  (length (List.filter (Tile.has_color "red") l)
   + length (List.filter (Tile.has_color "blue") l) <= length l)%nat /\
  ((length (List.filter (Tile.has_color "red") l)
    + length (List.filter (Tile.has_color "blue") l))%nat = length l ->
   Forall red_or_blue l).
Proof.
  induction l as [| x l [IHle IHeq]]; cbn [List.filter length];
    [by split |].
  destruct (Tile.has_color "red" x) eqn:Hr.
  - rewrite (red_not_blue x Hr). cbn [length]. split; [lia |].
    intros H. constructor; [left; by apply has_color_eq | apply IHeq; lia].
  - destruct (Tile.has_color "blue" x) eqn:Hb; cbn [length].
    + split; [lia |]. intros H.
      constructor; [right; by apply has_color_eq | apply IHeq; lia].
    + split; [lia |]. intros H. lia.
Qed.

Lemma two_red_three_blue_colours (s : Slice.t) :
  two_red_three_blue s -> Forall red_or_blue (Slice.tiles s).
Proof.
  intros (Hr & Hb & Hlen). apply red_blue_count. lia.
Qed.

Lemma all_tiles_Forall (P : Tile.t -> Prop) (l : list Slice.t) :
  Forall P (all_tiles l) <-> Forall (fun s => Forall P (Slice.tiles s)) l.
Proof.
  unfold all_tiles. induction l as [| s l IH]; cbn.
  - split; constructor.
  - rewrite Forall_app, Forall_cons, IH. done.
Qed.

Lemma place_all_Ok (l : list Slice.t) (g g' : Random) (res : list placed) :
  place_all l g = Ok (res, g') ->
  slice <$> res = l /\
  Forall (fun p => exists g0 g1,
            Slice.place_tiles (slice p) g0 = Ok (slots p, g1)) res.
Proof.
  revert g g' res.
  induction l as [| s l IH]; intros g g' res; cbn [place_all].
  - intros [= <- _]. by split.
  - intros H. apply bind_Ok in H as ([r g1] & Hplace & H).
    apply bind_Ok in H as ([rest g2] & Hrest & [= <- _]).
    destruct (IH _ _ _ Hrest) as [Hslices Hall]. split.
    + cbn. by rewrite Hslices.
    + constructor; [by exists g, g1 | done].
Qed.

Lemma place_tiles_Ok (s : Slice.t) (g g' : Random)
  (result : list (option Tile.t)) :
  Forall red_or_blue (Slice.tiles s) ->
  Slice.place_tiles s g = Ok (result, g') ->
  placement_of (Slice.tiles s) result.
Proof.
  intros Hcol Hrun.
  destruct (place_tiles_cases s g)
    as [(_ & r & g1 & Hok & Hp) | [_ Hraise]]; [| congruence].
  rewrite Hok in Hrun. injection Hrun as -> _.
  destruct Hp as (H1 & H2 & H3 & H4). unfold placement_of.
  split; [done |]. split; [done |]. split; [done |].
  rewrite H4, Permutation_app_comm. by apply red_blue_split.
Qed.

Lemma modest_sum (l : list Tile.t) :
  Forall modest l ->
  Z.abs (sum_all (Tile.absolute_value <$> l)) <= Z.of_nat (length l) * 2 ^ 49.
Proof.
  induction 1 as [| x l Hx _ IH]; [done |]. unfold modest in Hx.
  cbn [fmap list_fmap sum_all foldr length].
  fold (sum_all (Tile.absolute_value <$> l)). lia.
Qed.

(** Five modest tiles make a slice in the exact range. *)
Lemma modest_small (s : Slice.t) :
  five_tiles s -> aggregates_current s -> Forall modest (Slice.tiles s) ->
  small s.
Proof.
  intros H5 (_ & _ & _ & _ & Ha) Hm. apply modest_sum in Hm.
  unfold five_tiles in H5. rewrite H5, <- Ha in Hm.
  unfold small, in_exact_range. lia.
Qed.

(** X8: whenever [prepare_slices] returns, it returns six slices.  Each
    has five tiles, aggregate fields that are those of its tiles, no
    skew, and a placement of exactly its tiles in seven slots with slots
    2 and 4 empty; when every tile given is worth less than [2^49], any
    two of the slices are within a factor 1.5 of each other in absolute
    value.  The tiles of the slices, one tile left out that is not red
    and the tiles that were not needed are together the tiles given: no
    tile is in two slices and none appears from nowhere. *)
Theorem prepare_slices_result (fuel : nat) (tiles : list Tile.t) (g : Random)
  (result : list placed) :
  prepare_slices fuel tiles g = Ok result ->
  length result = 6%nat /\
  Forall (fun p => five_tiles (slice p) /\
                   aggregates_current (slice p) /\
                   ~ skewed (slice p) /\
                   placement_of (Slice.tiles (slice p)) (slots p)) result /\
  (Forall modest tiles ->
   forall p q, p ∈ result -> q ∈ result ->
     2 * Slice.absolute_value (slice p) < 3 * Slice.absolute_value (slice q)) /\
  (exists excluded unused,
     Tile.color excluded <> "red"%string /\
     tiles ≡ₚ excluded :: all_tiles (slice <$> result) ++ unused).
Proof.
  unfold prepare_slices. intros H.
  apply bind_Ok in H as ([pool g1] & Hdraw & H).
  apply bind_Ok in H as ([slices g2] & Hgen & H).
  apply bind_Ok in H as (balanced & Hbal & H).
  apply bind_Ok in H as ([res g3] & Hplace & [= <-]).
  destruct (draw_all_tiles_Ok _ _ _ _ _ Hdraw) as (x & Hx & Hxc).
  destruct (generate_slices_cases pool g1)
    as [[_ Hraise] | (_ & _ & sl & g' & Hok & Hsix & Hshape & Hcur & Hsub)];
    [congruence |].
  rewrite Hok in Hgen. injection Hgen as -> ->.
  destruct (balance_keeps _ _ _ Hbal) as [Hcheck (Hlen & Hall & Hsizes & Hc)].
  destruct (check_slice_balance_true _ Hcheck) as [Hspread Hskew].
  destruct (place_all_Ok _ _ _ _ Hplace) as [Hslices Hplaced].
  assert (Hfive : Forall five_tiles balanced).
  { apply sizes_five. rewrite Hsizes. apply sizes_five.
    eapply Forall_impl; [exact Hshape |]. by intros s (_ & _ & H5). }
  assert (Hcol : Forall (fun s => Forall red_or_blue (Slice.tiles s)) balanced).
  { apply all_tiles_Forall. rewrite Hall. apply all_tiles_Forall.
    eapply Forall_impl; [exact Hshape |]. apply two_red_three_blue_colours. }
  specialize (Hc Hcur).
  split; [by rewrite <- (length_fmap slice), Hslices, Hlen |].
  split; [| split].
  - rewrite Forall_forall in Hplaced. rewrite Forall_forall in Hfive.
    rewrite Forall_forall in Hc. rewrite Forall_forall in Hcol.
    apply Forall_forall. intros p Hp.
    assert (Hin : slice p ∈ balanced)
      by (rewrite <- Hslices; by apply list_elem_of_fmap_2).
    split; [by apply Hfive |]. split; [by apply Hc |].
    split; [by apply Hskew |].
    destruct (Hplaced p Hp) as (g0 & g4 & Hrun).
    eapply place_tiles_Ok; [by apply Hcol | exact Hrun].
  - intros Hmodest p q Hp Hq.
    apply Hspread; [| rewrite <- Hslices; by apply list_elem_of_fmap_2..].
    assert (Hm : Forall (fun s => Forall modest (Slice.tiles s)) balanced).
    { apply all_tiles_Forall. rewrite Hall. rewrite Hx in Hmodest.
      apply Forall_cons in Hmodest as [_ Hpool].
      apply Forall_forall. intros y Hy. rewrite Forall_forall in Hpool.
      apply Hpool. by eapply elem_of_submseteq. }
    rewrite Forall_forall in Hm. rewrite Forall_forall in Hfive.
    rewrite Forall_forall in Hc. apply Forall_forall. intros s Hs.
    apply modest_small; [by apply Hfive | by apply Hc | by apply Hm].
  - apply submseteq_Permutation in Hsub as [unused Hunused].
    exists x, unused. split.
    + rewrite <- has_color_eq. by destruct (Tile.has_color "red" x).
    + by rewrite Hslices, Hall, Hx, Hunused.
Qed.

Lemma prepare_slices_result_witness :
  exists result,
    prepare_slices 40 sample_catalog sample_random = Ok result /\
    length result = 6%nat /\
    Forall (fun p => placement_of (Slice.tiles (slice p)) (slots p)) result.
Proof.
  destruct (prepare_slices 40 sample_catalog sample_random)
    as [result | |] eqn:Hrun; [| by vm_compute in Hrun..].
  exists result. split; [done |].
  destruct (prepare_slices_result _ _ _ _ Hrun) as (H6 & Hall & _).
  split; [done |]. eapply Forall_impl; [exact Hall |].
  by intros p (_ & _ & _ & Hp).
Defined.

(** *** The tile that [remove_excessive_tile] takes *)

Lemma sort_descending_head {A : Type} (key : A -> Z) (l rest : list A)
  (x : A) :
  sort_by (fun y x => key x <? key y) l = x :: rest ->
  forall y, y ∈ l -> key y <= key x.
Proof.
  intros Hsort y Hy.
  assert (Hsorted : StronglySorted (fun a b => key b <= key a)
                      (sort_by (fun y x => key x <? key y) l)).
  { apply sort_by_sorted.
    - intros a b c. lia.
    - intros b a H%Z.ltb_lt. lia.
    - intros b a H%Z.ltb_ge. lia. }
  rewrite <- (sort_by_Permutation (fun y x => key x <? key y) l) in Hy.
  rewrite Hsort in Hy, Hsorted.
  apply StronglySorted_inv in Hsorted as [_ Hall].
  apply elem_of_cons in Hy as [-> | Hy]; [lia |].
  rewrite Forall_forall in Hall. by apply Hall.
Qed.

(** X9: [remove_excessive_tile] raises [IndexError] on a slice without
    tiles.  Otherwise it takes one tile out and keeps the others: a tile
    of greatest resources when the resources of the slice exceed its
    influence, a tile of greatest influence when they do not. *)
Theorem remove_excessive_tile_outcome (s : Slice.t) :
  (Slice.tiles s = [] -> Slice.remove_excessive_tile s = Raise IndexError) /\
  (Slice.tiles s <> [] ->
   exists x s',
     Slice.remove_excessive_tile s = Ok (x, s') /\
     Slice.tiles s ≡ₚ x :: Slice.tiles s' /\
     (Slice.influence s < Slice.resources s ->
      forall y, y ∈ Slice.tiles s -> Tile.resources y <= Tile.resources x) /\
     (Slice.resources s <= Slice.influence s ->
      forall y, y ∈ Slice.tiles s -> Tile.influence y <= Tile.influence x)).
Proof.
  split.
  - intros Hnil. unfold Slice.remove_excessive_tile. by rewrite Hnil.
  - intros Hne. unfold Slice.remove_excessive_tile.
    destruct (Z.gtb_spec (Slice.resources s) (Slice.influence s)) as [Hgt | Hle].
    + destruct (sort_by _ (Slice.tiles s)) as [| x rest] eqn:Hsort.
      { pose proof (sort_by_Permutation
                      (fun y x => Tile.resources x <? Tile.resources y)
                      (Slice.tiles s)) as Hperm.
        rewrite Hsort in Hperm. symmetry in Hperm.
        by apply Permutation_nil_r in Hperm. }
      exists x, (Slice.with_tiles s rest). split; [done |]. split; [| split].
      * cbn [Slice.tiles Slice.with_tiles]. rewrite <- Hsort.
        by rewrite sort_by_Permutation.
      * intros _. by apply (sort_descending_head Tile.resources _ rest).
      * lia.
    + destruct (sort_by _ (Slice.tiles s)) as [| x rest] eqn:Hsort.
      { pose proof (sort_by_Permutation
                      (fun y x => Tile.influence x <? Tile.influence y)
                      (Slice.tiles s)) as Hperm.
        rewrite Hsort in Hperm. symmetry in Hperm.
        by apply Permutation_nil_r in Hperm. }
      exists x, (Slice.with_tiles s rest). split; [done |]. split; [| split].
      * cbn [Slice.tiles Slice.with_tiles]. rewrite <- Hsort.
        by rewrite sort_by_Permutation.
      * lia.
      * intros _. by apply (sort_descending_head Tile.influence _ rest).
Qed.

Lemma remove_excessive_tile_outcome_witness :
  exists x s',
    Slice.remove_excessive_tile sample_resources_slice = Ok (x, s') /\
    Slice.tiles sample_resources_slice ≡ₚ x :: Slice.tiles s' /\
    forall y, y ∈ Slice.tiles sample_resources_slice ->
              Tile.resources y <= Tile.resources x.
Proof.
  destruct (remove_excessive_tile_outcome sample_resources_slice) as [_ H].
  destruct H as (x & s' & Hrun & Hperm & Hres & _); [done |].
  exists x, s'. split; [done |]. split; [done |]. apply Hres.
  by vm_compute.
Defined.

(** *** Removing a tile of a colour that the slice may lack *)

Lemma pop_first_none {A : Type} (p : A -> bool) (l : list A) :
  Forall (fun y => p y = false) l -> pop_first p l = (None, l).
Proof.
  induction 1 as [| y l Hy _ IH]; cbn [pop_first]; [done |].
  by rewrite Hy, IH.
Qed.

Lemma has_tile_of_color_dec (c : string) (s : Slice.t) :
  has_tile_of_color c s \/ ~ has_tile_of_color c s.
Proof.
  unfold has_tile_of_color.
  destruct (decide (Exists (fun x => Tile.color x = c) (Slice.tiles s)))
    as [H | H]; rewrite Exists_exists in H; [by left | by right].
Qed.

Lemma no_tile_of_color (c : string) (s : Slice.t) (l : list Tile.t) :
  ~ has_tile_of_color c s -> l ≡ₚ Slice.tiles s ->
  Forall (fun y => Tile.has_color c y = false) l.
Proof.
  intros Hno Hperm. apply Forall_forall. intros y Hy.
  destruct (Tile.has_color c y) eqn:Hc; [| done].
  exfalso. apply Hno. exists y. split; [by rewrite <- Hperm |].
  by apply has_color_eq.
Qed.

Lemma remove_best_tile_none (c : string) (s : Slice.t) :
  ~ has_tile_of_color c s ->
  Slice.remove_best_tile c s
  = (None, Slice.with_tiles s
             (sort_by (fun y x => Tile.lt x y) (Slice.tiles s))).
Proof.
  intros Hno. unfold Slice.remove_best_tile.
  rewrite pop_first_none; [done |].
  eapply no_tile_of_color; [done | apply sort_by_Permutation].
Qed.

Lemma remove_worst_tile_none (c : string) (s : Slice.t) :
  ~ has_tile_of_color c s ->
  Slice.remove_worst_tile c s
  = (None, Slice.with_tiles s (sort_by Tile.lt (Slice.tiles s))).
Proof.
  intros Hno. unfold Slice.remove_worst_tile.
  rewrite pop_first_none; [done |].
  eapply no_tile_of_color; [done | apply sort_by_Permutation].
Qed.

(** X10: [remove_best_tile] and [remove_worst_tile] return [None]
    exactly when the slice has no tile of the colour asked for; the slice
    then keeps all its tiles. *)
Theorem remove_tile_of_missing_colour (c : string) (s : Slice.t) :
  ((Slice.remove_best_tile c s).1 = None <-> ~ has_tile_of_color c s) /\
  ((Slice.remove_worst_tile c s).1 = None <-> ~ has_tile_of_color c s) /\
  (~ has_tile_of_color c s ->
   Slice.tiles (Slice.remove_best_tile c s).2 ≡ₚ Slice.tiles s /\
   Slice.tiles (Slice.remove_worst_tile c s).2 ≡ₚ Slice.tiles s).
Proof.
  split; [| split].
  - split.
    + intros Hnone Hhas.
      destruct (remove_best_tile_spec c s Hhas) as (x & rest & Hrun & _).
      by rewrite Hrun in Hnone.
    + intros Hno. by rewrite remove_best_tile_none.
  - split.
    + intros Hnone Hhas.
      destruct (remove_worst_tile_spec c s Hhas) as (x & rest & Hrun & _).
      by rewrite Hrun in Hnone.
    + intros Hno. by rewrite remove_worst_tile_none.
  - intros Hno. rewrite remove_best_tile_none, remove_worst_tile_none by done.
    cbn [snd Slice.tiles Slice.with_tiles].
    by rewrite !sort_by_Permutation.
Qed.

Lemma remove_tile_of_missing_colour_witness :
  Slice.tiles (Slice.remove_best_tile "green" sample_slice).2
  ≡ₚ Slice.tiles sample_slice.
Proof.
  destruct (remove_tile_of_missing_colour "green" sample_slice)
    as (_ & _ & H).
  apply H. intros (x & Hx & Hc).
  unfold sample_slice in Hx. rewrite init_tiles in Hx.
  apply elem_of_app in Hx as [Hx | Hx];
    apply list_elem_of_fmap in Hx as (k & -> & _); discriminate Hc.
Defined.

(** *** A pass when a slice lacks a blue tile *)

Lemma rebalance_best_worst_no_blue (slices mid : list Slice.t)
  (worst best : Slice.t) :
  sort_by Slice.lt slices = worst :: mid ++ [best] ->
  ge_one_and_a_half (Slice.absolute_value best) (Slice.absolute_value worst)
  = Ok true ->
  ~ has_tile_of_color "blue" best \/ ~ has_tile_of_color "blue" worst ->
  rebalance_best_worst slices = Raise AttributeError.
Proof.
  intros Hsorted Hge Hno.
  unfold rebalance_best_worst. rewrite Hsorted, last_index.
  rewrite slice_at_first, slice_at_last. cbn [mbind outcome_bind].
  rewrite Hge. cbn [mbind outcome_bind].
  destruct (has_tile_of_color_dec "blue" best) as [Hb | Hb].
  - destruct Hno as [Hno | Hw]; [done |].
    destruct (remove_best_tile_spec "blue" best Hb)
      as (bt & rb & Hrb & _ & _ & Hbc & _).
    rewrite (call_last _ worst best _ mid (Some bt)) by (by rewrite Hrb).
    cbn [mbind outcome_bind attr]. rewrite Hbc.
    rewrite (call_first _ worst _ _ None)
      by (by rewrite (remove_worst_tile_none "blue" worst Hw)).
    cbn [mbind outcome_bind]. unfold call. rewrite slice_at_last.
    done.
  - rewrite (call_last _ worst best _ mid None)
      by (by rewrite (remove_best_tile_none "blue" best Hb)).
    done.
Qed.

(** X11: in a pass over at least two slices in which the best slice is
    worth at least 1.5 times the worst, whose value is in the range
    where the float product by 1.5 is exact, [rebalance_slices] raises
    [AttributeError] exactly when the best or the worst slice has no blue
    tile: the removal returns [None] and the pass goes on with it. *)
Theorem rebalance_slices_without_blue (slices mid : list Slice.t)
  (worst best : Slice.t) :
  sort_by Slice.lt slices = worst :: mid ++ [best] ->
  small worst ->
  ((3 # 2) * inject_Z (Slice.absolute_value worst)
   <= inject_Z (Slice.absolute_value best))%Q ->
  rebalance_slices slices = Raise AttributeError
  <-> ~ has_tile_of_color "blue" best \/ ~ has_tile_of_color "blue" worst.
Proof.
  intros Hsorted Hsmall Hexact.
  assert (Hge : ge_one_and_a_half (Slice.absolute_value best)
                  (Slice.absolute_value worst) = Ok true).
  { rewrite ge_one_and_a_half_exact by done. f_equal. apply Z.leb_le.
    unfold Qle in Hexact. cbn in Hexact. lia. }
  split.
  - intros Hraise.
    destruct (has_tile_of_color_dec "blue" best) as [Hb | Hb]; [| by left].
    destruct (has_tile_of_color_dec "blue" worst) as [Hw | Hw]; [| by right].
    exfalso.
    destruct (rebalance_best_worst_fires slices mid worst best
                Hsorted Hge Hb Hw) as (bt & wt & rb & rw & _ & _ & _ & _ & Hrun).
    unfold rebalance_slices in Hraise. rewrite Hrun in Hraise.
    cbn [mbind outcome_bind] in Hraise.
    apply rebalance_res_inf_Raise in Hraise as [[? _] | [? | ?]]; done.
  - intros Hno. unfold rebalance_slices.
    by rewrite (rebalance_best_worst_no_blue slices mid worst best).
Qed.

Lemma rebalance_slices_without_blue_witness :
  rebalance_slices
    [Slice.init (sample_tiles 0 5 "red" 1 1); sample_rich_slice]
  = Raise AttributeError.
Proof.
  apply (rebalance_slices_without_blue
           [Slice.init (sample_tiles 0 5 "red" 1 1); sample_rich_slice] []
           (Slice.init (sample_tiles 0 5 "red" 1 1)) sample_rich_slice).
  - reflexivity.
  - reflexivity.
  - apply Qle_bool_iff. reflexivity.
  - right. intros (x & Hx & Hc). rewrite init_tiles in Hx.
    apply list_elem_of_fmap in Hx as (k & -> & _). discriminate Hc.
Defined.

(** *** The helper [adjacent] *)

(** X12: [adjacent] is symmetric and holds whenever one position is the
    hub 0.  Between two positions of the ring 1..6 it holds for the pairs
    1-2, 2-3, 3-4, 4-5 and 6-1 only: positions 5 and 6 are not adjacent,
    the successor of 5 being computed as 0. *)
Theorem adjacent_ring :
  (forall a b : Z, Slice.adjacent a b = Slice.adjacent b a) /\
  (forall b : Z, Slice.adjacent 0 b = true) /\
  (forall a b : Z, 1 <= a <= 6 -> 1 <= b <= 6 ->
     Slice.adjacent a b = true
     <-> (a <= 4 /\ b = a + 1) \/ (b <= 4 /\ a = b + 1)
         \/ (a = 6 /\ b = 1) \/ (a = 1 /\ b = 6)).
Proof.
  split; [| split].
  - intros a b. unfold Slice.adjacent.
    destruct (a =? 0), (b =? 0), ((a + 1) mod 6 =? b), ((b + 1) mod 6 =? a);
      reflexivity.
  - intros b. reflexivity.
  - intros a b Ha Hb. unfold Slice.adjacent.
    assert (a = 1 \/ a = 2 \/ a = 3 \/ a = 4 \/ a = 5 \/ a = 6) as Hcase by lia.
    assert (b = 1 \/ b = 2 \/ b = 3 \/ b = 4 \/ b = 5 \/ b = 6) as Hcase' by lia.
    destruct Hcase as [-> | [-> | [-> | [-> | [-> | ->]]]]];
      destruct Hcase' as [-> | [-> | [-> | [-> | [-> | ->]]]]];
      cbn; split; (done || lia).
Qed.

Lemma adjacent_ring_witness :
  Slice.adjacent 5 6 = true
  <-> (5 <= 4 /\ 6 = 5 + 1) \/ (6 <= 4 /\ 5 = 6 + 1)
      \/ (5 = 6 /\ 6 = 1) \/ (5 = 1 /\ 6 = 6).
Proof.
  destruct adjacent_ring as (_ & _ & H). apply H; lia.
Defined.

(** *** The derived fields of a tile *)

Lemma fold_add_planet (ps : list Tile.planet_row) (r i : Z) (tech : string) :
  fold_left Tile.add_planet ps (r, i, tech)
  = (r + sum_all (Tile.row_resources <$> ps),
     i + sum_all (Tile.row_influence <$> ps),
     tech +:+ concat_all (Tile.row_technology <$> ps)).
Proof.
  revert r i tech. induction ps as [| p ps IH]; intros r i tech.
  - cbn. by rewrite !Z.add_0_r, append_empty_r.
  - cbn [fold_left Tile.add_planet]. rewrite IH.
    cbn [fmap list_fmap sum_all concat_all foldr].
    by rewrite !Z.add_assoc, append_assoc.
Qed.

(** X13: a tile holds the sums of the resources and of the influence of
    its planet rows and the concatenation of their technologies, whatever
    its anomalies; its absolute value is at least their total plus twice
    the number of technology characters, and at most one more. *)
Theorem tile_totals (id : Z) (c : string) (ps : list Tile.planet_row)
  (ans : option (list string)) :
  let x := Tile.post_init id c ps ans in
  Tile.resources x = sum_all (Tile.row_resources <$> ps) /\
  Tile.influence x = sum_all (Tile.row_influence <$> ps) /\
  Tile.technology x = concat_all (Tile.row_technology <$> ps) /\
  0 <= Tile.absolute_value x
       - (Tile.resources x + Tile.influence x
          + 2 * Z.of_nat (String.length (Tile.technology x))) <= 1.
Proof.
  unfold Tile.post_init. rewrite fold_add_planet.
  cbn [Tile.resources Tile.influence Tile.technology Tile.absolute_value].
  rewrite append_nil_l. split; [lia |]. split; [lia |]. split; [done |].
  rewrite wormhole_bonus_spec. destruct (decide _); lia.
Qed.

(** *** Collections without a slice *)

(** X14: [check_slice_balance] raises [ValueError] on the empty
    collection and on no other.  On a collection that is not empty it
    returns a boolean, or raises [OverflowError] when the least value is
    past the floats, which no value in the exact range is.
    [rebalance_slices] raises [IndexError] on the empty collection. *)
Theorem empty_collection_errors :
  (forall slices : list Slice.t,
     check_slice_balance slices = Raise ValueError <-> slices = []) /\
  (forall (slices : list Slice.t) (e : exn),
     slices <> [] -> check_slice_balance slices = Raise e ->
     e = OverflowError /\ ~ Forall small slices) /\
  (forall slices : list Slice.t,
     check_slice_balance slices <> Diverge) /\
  rebalance_slices [] = Raise IndexError.
Proof.
  assert (Hcons : forall (x : Slice.t) (l : list Slice.t) (e : exn),
             check_slice_balance (x :: l) = Raise e -> e = OverflowError).
  { intros x l e.
    destruct (check_slice_balance_cons x l) as (b & w & _ & _ & ->).
    destruct (ge_one_and_a_half_cases (Slice.absolute_value b)
                (Slice.absolute_value w)) as [[r ->] | ->]; cbn; congruence. }
  split; [| split; [| split; [| done]]].
  - intros [| x l]; [done |]. split; [| done].
    intros H. by apply Hcons in H.
  - intros [| x l] e Hne Hraise; [done |]. split; [by eapply Hcons |].
    intros Hsmall.
    destruct (check_slice_balance_small x l Hsmall) as (b & w & _ & _ & Heq).
    congruence.
  - intros [| x l]; [done |].
    destruct (check_slice_balance_cons x l) as (b & w & _ & _ & ->).
    by destruct (ge_one_and_a_half_cases (Slice.absolute_value b)
                   (Slice.absolute_value w)) as [[r ->] | ->].
Qed.

Lemma empty_collection_errors_witness :
  check_slice_balance [sample_huge_slice] = Raise OverflowError /\
  ~ Forall small [sample_huge_slice].
Proof.
  assert (Hrun : check_slice_balance [sample_huge_slice]
                 = Raise OverflowError) by (vm_compute; reflexivity).
  split; [exact Hrun |].
  destruct empty_collection_errors as (_ & H & _).
  apply (H [sample_huge_slice] OverflowError); [discriminate | exact Hrun].
Defined.

(** *** Building the tiles from the records *)

Lemma post_init_fields (id : Z) (c : string) (ps : list Tile.planet_row)
  (ans : option (list string)) :
  Tile.id_ (Tile.post_init id c ps ans) = id /\
  Tile.color (Tile.post_init id c ps ans) = c /\
  Tile.planets (Tile.post_init id c ps ans) = ps /\
  Tile.anomalies (Tile.post_init id c ps ans) = ans.
Proof.
  unfold Tile.post_init.
  by destruct (fold_left Tile.add_planet ps (0, 0, ""%string)) as [[r i] tech].
Qed.

Lemma replace_planets_cases (planets : gmap string Tile.planet_row)
  (names : list string) :
  (Forall (fun n => is_Some (planets !! n)) names /\
   exists rows,
     Loader.replace_planets planets names = inr rows /\
     Forall2 (fun n row => planets !! n = Some row) names rows)
  \/ (exists k,
        Loader.replace_planets planets names = inl (Loader.KeyError k) /\
        k ∈ names /\ planets !! k = None).
Proof.
  induction names as [| n names IH]; cbn [Loader.replace_planets].
  - left. split; [constructor |]. exists []. split; [done | constructor].
  - destruct (planets !! n) as [row |] eqn:Hn.
    + destruct IH as [(Hall & rows & -> & Hrows) | (k & -> & Hk & Hnone)].
      * left. split; [by constructor |]. exists (row :: rows).
        split; [done | by constructor].
      * right. exists k. split; [done |]. split; [by right | done].
    + right. exists n. split; [done |]. split; [by left | done].
Qed.

Lemma build_tile_cases (planets : gmap string Tile.planet_row)
  (tile : Loader.tile_record) :
  (resolvable planets tile /\
   exists x, Loader.build_tile planets tile = inr x /\
             built_from planets tile x)
  \/ (~ resolvable planets tile /\
      exists k,
        Loader.build_tile planets tile = inl (Loader.KeyError k) /\
        ((k ∈ default [] (Loader.rec_planets tile) /\ planets !! k = None)
         \/ (k = "id"%string /\ Loader.rec_id tile = None)
         \/ (k = "color"%string /\ Loader.rec_color tile = None))).
Proof.
  unfold Loader.build_tile, resolvable, built_from.
  destruct (replace_planets_cases planets
              (default [] (Loader.rec_planets tile)))
    as [(Hall & rows & -> & Hrows) | (k & -> & Hk & Hnone)].
  - destruct (Loader.rec_id tile) as [id |] eqn:Hid.
    + destruct (Loader.rec_color tile) as [c |] eqn:Hc.
      * left. split; [done |]. eexists. split; [done |].
        destruct (post_init_fields id c rows (Loader.rec_anomalies tile))
          as (-> & -> & -> & ->). done.
      * right. split; [by intros (_ & [? ?] & _) |].
        exists "color"%string. split; [done |]. right. by right.
    + right. split; [by intros ([? ?] & _) |].
      exists "id"%string. split; [done |]. right. by left.
  - right. split.
    + intros (_ & _ & Hall). rewrite Forall_forall in Hall.
      apply Hall in Hk as [row Hrow]. congruence.
    + exists k. split; [done |]. by left.
Qed.

Lemma build_tiles_cases (planets : gmap string Tile.planet_row)
  (tiles_raw : list Loader.tile_record) :
  (Forall (resolvable planets) tiles_raw /\
   exists tiles, Loader.build_tiles planets tiles_raw = inr tiles /\
                 Forall2 (built_from planets) tiles_raw tiles)
  \/ (~ Forall (resolvable planets) tiles_raw /\
      exists k tile,
        Loader.build_tiles planets tiles_raw = inl (Loader.KeyError k) /\
        tile ∈ tiles_raw /\
        ((k ∈ default [] (Loader.rec_planets tile) /\ planets !! k = None)
         \/ (k = "id"%string /\ Loader.rec_id tile = None)
         \/ (k = "color"%string /\ Loader.rec_color tile = None))).
Proof.
  induction tiles_raw as [| tile rest IH]; cbn [Loader.build_tiles].
  - left. split; [constructor |]. exists []. split; [done | constructor].
  - destruct (build_tile_cases planets tile)
      as [(Hres & x & -> & Hx) | (Hno & k & -> & Hk)].
    + destruct IH as [(Hall & tiles & -> & Htiles)
                     | (Hno & k & tile' & -> & Hin & Hk)].
      * left. split; [by constructor |]. exists (x :: tiles).
        split; [done | by constructor].
      * right. split; [by intros [_ ?]%Forall_cons |].
        exists k, tile'. split; [done |]. split; [by right | done].
    + right. split; [by intros [? _]%Forall_cons |].
      exists k, tile. split; [done |]. split; [by left | done].
Qed.

(** X15: the records turn into tiles exactly when each of them has an
    id and a colour and names known planets only: there is then one tile
    per record, in the order of the records, with the id, the colour and
    the anomalies of its record and the rows of its planets; a record
    without planets gives a tile without planets.  Otherwise the loop
    stops with a [KeyError] whose key is missing from one of the
    records or from the table of the planets. *)
Theorem build_tiles_outcome (planets : gmap string Tile.planet_row)
  (tiles_raw : list Loader.tile_record) :
  (Forall (resolvable planets) tiles_raw ->
   exists tiles,
     Loader.build_tiles planets tiles_raw = inr tiles /\
     Forall2 (built_from planets) tiles_raw tiles) /\
  (forall tiles,
     Loader.build_tiles planets tiles_raw = inr tiles ->
     Forall (resolvable planets) tiles_raw /\
     Forall2 (built_from planets) tiles_raw tiles) /\
  (forall k,
     Loader.build_tiles planets tiles_raw = inl (Loader.KeyError k) ->
     exists tile,
       tile ∈ tiles_raw /\
       ((k ∈ default [] (Loader.rec_planets tile) /\ planets !! k = None)
        \/ (k = "id"%string /\ Loader.rec_id tile = None)
        \/ (k = "color"%string /\ Loader.rec_color tile = None))).
Proof.
  destruct (build_tiles_cases planets tiles_raw)
    as [(Hall & tiles & Hok & Htiles) | (Hno & k & tile & Hfail & Hin & Hk)].
  - split; [intros _; by exists tiles |]. split.
    + intros tiles' Hok'. rewrite Hok in Hok'. by injection Hok' as <-.
    + intros k Hfail. congruence.
  - split; [done |]. split; [intros tiles Hok; congruence |].
    intros k' Hfail'. rewrite Hfail in Hfail'. injection Hfail' as <-.
    by exists tile.
Qed.

Lemma build_tiles_outcome_witness :
  exists tiles,
    Loader.build_tiles sample_planets sample_records = inr tiles /\
    Forall2 (built_from sample_planets) sample_records tiles.
Proof.
  destruct (build_tiles_outcome sample_planets sample_records) as [H _].
  apply H. repeat constructor; by eexists.
Defined.

(** *** A pass over slices that are balanced *)

Lemma not_skewed_has_ratio (s : Slice.t) : ~ skewed s -> has_ratio s.
Proof. unfold skewed, has_ratio. lia. Qed.

Lemma sorted_ends {A : Type} (l : list A) :
  l <> [] -> exists w b, l !! 0%nat = Some w /\ last l = Some b.
Proof.
  destruct l as [| w l]; [done |]. intros _. exists w.
  destruct (last (w :: l)) as [b |] eqn:Hlast; [by exists b |].
  by apply last_None in Hlast.
Qed.

Lemma sorted_app {A : Type} (R : A -> A -> Prop) (l1 l2 : list A) :
  StronglySorted R (l1 ++ l2) ->
  forall x y, x ∈ l1 -> y ∈ l2 -> R x y.
Proof.
  induction l1 as [| z l1 IH]; cbn [app]; intros H x y Hx Hy;
    [by apply elem_of_nil in Hx |].
  apply StronglySorted_inv in H as [H1 H2].
  apply elem_of_cons in Hx as [-> | Hx]; [| by apply IH].
  rewrite Forall_forall in H2. apply H2, elem_of_app. by right.
Qed.

Lemma slices_ascending (l : list Slice.t) :
  StronglySorted
    (fun a b => Slice.absolute_value a <= Slice.absolute_value b)
    (sort_by Slice.lt l).
Proof.
  apply sort_by_sorted; unfold Slice.lt.
  - intros x y z. lia.
  - intros y x H%Z.ltb_lt. lia.
  - intros y x H%Z.ltb_ge. lia.
Qed.

(** The first slice of the sorted list has the least absolute value and
    the last has the greatest. *)
Lemma sorted_slices_ends (slices : list Slice.t) (w b : Slice.t) :
  sort_by Slice.lt slices !! 0%nat = Some w ->
  last (sort_by Slice.lt slices) = Some b ->
  least (Slice.absolute_value w) (Slice.absolute_value <$> slices) /\
  greatest (Slice.absolute_value b) (Slice.absolute_value <$> slices).
Proof.
  intros Hw Hb.
  pose proof (sort_by_Permutation Slice.lt slices) as Hperm.
  pose proof (slices_ascending slices) as Hsorted.
  split; split.
  - apply list_elem_of_fmap_2. rewrite <- Hperm.
    by eapply list_elem_of_lookup_2.
  - intros v (s & -> & Hs)%list_elem_of_fmap. rewrite <- Hperm in Hs.
    destruct (sort_by Slice.lt slices) as [| w' l]; [done |].
    injection Hw as ->. apply StronglySorted_inv in Hsorted as [_ Hall].
    apply elem_of_cons in Hs as [-> | Hs]; [lia |].
    rewrite Forall_forall in Hall. by apply Hall.
  - apply list_elem_of_fmap_2. rewrite <- Hperm.
    rewrite last_lookup in Hb. by eapply list_elem_of_lookup_2.
  - intros v (s & -> & Hs)%list_elem_of_fmap. rewrite <- Hperm in Hs.
    apply last_Some in Hb as [l' Hl']. rewrite Hl' in Hs, Hsorted.
    apply elem_of_app in Hs as [Hs | ->%list_elem_of_singleton]; [| lia].
    apply (sorted_app _ _ _ Hsorted s b Hs). left.
Qed.

(** When the check passes, the float test on the greatest and the least
    value has failed. *)
Lemma check_slice_balance_spread (slices : list Slice.t) :
  check_slice_balance slices = Ok true ->
  exists M m,
    greatest M (Slice.absolute_value <$> slices) /\
    least m (Slice.absolute_value <$> slices) /\
    ge_one_and_a_half M m = Ok false.
Proof.
  destruct slices as [| x l]; [done |].
  destruct (check_slice_balance_cons x l) as (best & worst & Hb & Hw & ->).
  intros H. apply bind_Ok in H as ([|] & Hge & H); [done |].
  exists (Slice.absolute_value best), (Slice.absolute_value worst).
  split; [by apply py_max_greatest |]. split; [by apply py_min_least | done].
Qed.

(** The second half does nothing but sort when no slice is skewed. *)
Lemma rebalance_res_inf_idle (l : list Slice.t) :
  l <> [] ->
  (forall s, s ∈ l -> ~ skewed s) ->
  exists final, rebalance_res_inf l = Ok final /\ final ≡ₚ l.
Proof.
  intros Hne Hskew.
  destruct (sort_by_ratio_has_ratio l) as (sorted & Hs & Hperm).
  { apply Forall_forall. intros s Hs. by apply not_skewed_has_ratio, Hskew. }
  unfold rebalance_res_inf. rewrite Hs. cbn [mbind outcome_bind].
  destruct (sorted_ends sorted) as (w & b & Hw & Hb).
  { intros ->. apply Hne. symmetry. by apply Permutation_nil_l. }
  unfold slice_at. rewrite Hw. cbn [mbind outcome_bind].
  rewrite last_lookup in Hb.
  replace (length sorted - 1)%nat with (pred (length sorted)) by lia.
  rewrite Hb. cbn [mbind outcome_bind].
  assert (Hw' : ~ skewed w)
    by (apply Hskew; rewrite <- Hperm; by eapply list_elem_of_lookup_2).
  assert (Hb' : ~ skewed b)
    by (apply Hskew; rewrite <- Hperm; by eapply list_elem_of_lookup_2).
  unfold skewed in Hw', Hb'.
  destruct (Z.leb_spec (2 * Slice.resources w) (Slice.influence w)); [lia |].
  destruct (Z.leb_spec (2 * Slice.influence b) (Slice.resources b)); [lia |].
  by exists sorted.
Qed.

(** X16: on a collection that passes [check_slice_balance] a pass of
    [rebalance_slices] returns and moves no tile: it returns the same
    slices, in another order at most. *)
Theorem rebalance_slices_balanced (slices : list Slice.t) :
  check_slice_balance slices = Ok true ->
  exists final, rebalance_slices slices = Ok final /\ final ≡ₚ slices.
Proof.
  intros Hcheck.
  destruct (check_slice_balance_true slices Hcheck) as [_ Hskew].
  destruct (check_slice_balance_spread slices Hcheck)
    as (M & m & HM & Hm & Hge).
  assert (Hne : slices <> []) by (by intros ->).
  pose proof (sort_by_Permutation Slice.lt slices) as Hperm.
  destruct (sorted_ends (sort_by Slice.lt slices)) as (w & b & Hw & Hb).
  { intros Hnil. rewrite Hnil in Hperm. apply Hne. symmetry.
    by apply Permutation_nil_l. }
  assert (Hidle : rebalance_best_worst slices = Ok (sort_by Slice.lt slices)).
  { apply (rebalance_best_worst_idle slices w b Hw Hb).
    destruct (sorted_slices_ends slices w b Hw Hb) as [Hleast Hgreatest].
    by rewrite (least_unique _ _ _ Hleast Hm),
      (greatest_unique _ _ _ Hgreatest HM). }
  unfold rebalance_slices. rewrite Hidle. cbn [mbind outcome_bind].
  destruct (rebalance_res_inf_idle (sort_by Slice.lt slices))
    as (final & Hfinal & Hpf).
  - intros Hnil. rewrite Hnil in Hw. done.
  - intros s Hs. apply Hskew. by rewrite <- Hperm.
  - exists final. split; [done |]. by rewrite Hpf.
Qed.

Lemma rebalance_slices_balanced_witness :
  exists final,
    rebalance_slices [sample_slice; sample_slice] = Ok final /\
    final ≡ₚ [sample_slice; sample_slice].
Proof.
  apply (rebalance_slices_balanced [sample_slice; sample_slice]).
  reflexivity.
Defined.

(** *** Tiles that keep the balance loop turning *)

Lemma heavy_sums (a : Z) (l : list Tile.t) :
  Forall (heavy_tile a) l ->
  sum_all (Tile.absolute_value <$> l) = Z.of_nat (length l) * a /\
  Z.of_nat (length l) <= sum_all (Tile.influence <$> l) /\
  2 * sum_all (Tile.influence <$> l) <= sum_all (Tile.resources <$> l) /\
  sum_all (Tile.resources <$> l) <= Z.of_nat (length l) * a.
Proof.
  induction 1 as [| x l (Ha & Hi & Hr & Hra) _ (IHa & IHi & IHr & IHra)];
    cbn [fmap list_fmap sum_all foldr length]; [lia |].
  fold (sum_all (Tile.absolute_value <$> l)).
  fold (sum_all (Tile.influence <$> l)).
  fold (sum_all (Tile.resources <$> l)). lia.
Qed.

Lemma heavy_slice (a : Z) (s : Slice.t) :
  five_tiles s -> aggregates_current s ->
  Forall (heavy_tile a) (Slice.tiles s) ->
  Slice.absolute_value s = 5 * a /\
  0 < Slice.influence s /\
  2 * Slice.influence s <= Slice.resources s /\
  Slice.resources s <= 5 * a.
Proof.
  intros H5 (Hr & Hi & _ & _ & Ha) Hheavy.
  destruct (heavy_sums a _ Hheavy) as (Hsa & Hsi & Hsr & Hsra).
  unfold five_tiles in H5. rewrite H5 in Hsa, Hsi, Hsra. lia.
Qed.

Lemma stuck_slices (a : Z) (l : list Slice.t) :
  stuck a l ->
  forall s, s ∈ l ->
    Slice.absolute_value s = 5 * a /\
    0 < Slice.influence s /\
    2 * Slice.influence s <= Slice.resources s /\
    Slice.resources s <= 5 * a.
Proof.
  intros (_ & H5 & Hcur & Hheavy) s Hs.
  apply all_tiles_Forall in Hheavy.
  rewrite Forall_forall in H5. rewrite Forall_forall in Hcur.
  rewrite Forall_forall in Hheavy.
  apply heavy_slice; [by apply H5 | by apply Hcur | by apply Hheavy].
Qed.

Lemma stuck_small (a : Z) (l : list Slice.t) :
  0 < a < 2 ^ 49 -> stuck a l -> Forall small l.
Proof.
  intros Ha Hstuck. apply Forall_forall. intros s Hs.
  destruct (stuck_slices a l Hstuck s Hs) as (Hsa & _).
  unfold small, in_exact_range. rewrite Hsa. lia.
Qed.

Lemma stuck_check (a : Z) (l : list Slice.t) :
  0 < a < 2 ^ 49 -> stuck a l -> check_slice_balance l = Ok false.
Proof.
  intros Ha Hstuck. pose proof (stuck_small a l Ha Hstuck) as Hsmall.
  destruct l as [| x l]; [destruct Hstuck as [? _]; cbn in *; lia |].
  destruct (check_slice_balance_small x l Hsmall) as (b & w & _ & _ & ->).
  destruct (stuck_slices a _ Hstuck x) as (_ & _ & Hskew & _); [by left |].
  cbn [all_balanced]. unfold Slice.is_slice_unbalanced.
  destruct (Z.leb_spec (2 * Slice.influence x) (Slice.resources x)); [| lia].
  by rewrite andb_false_r.
Qed.

Lemma stuck_Permutation (a : Z) (l l' : list Slice.t) :
  l' ≡ₚ l -> stuck a l -> stuck a l'.
Proof.
  intros Hperm (Hlen & H5 & Hcur & Hheavy). unfold stuck.
  rewrite (all_tiles_Permutation _ _ Hperm). by rewrite Hperm.
Qed.

Lemma stuck_pass (a : Z) (l : list Slice.t) :
  0 < a < 2 ^ 49 -> stuck a l ->
  exists l', rebalance_slices l = Ok l' /\ stuck a l'.
Proof.
  intros Ha Hstuck.
  pose proof (sort_by_Permutation Slice.lt l) as Hperm.
  pose proof (stuck_Permutation a _ _ Hperm Hstuck) as Hsorted.
  destruct (sorted_ends (sort_by Slice.lt l)) as (w & b & Hw & Hb).
  { intros Hnil. destruct Hsorted as [Hlen _]. rewrite Hnil in Hlen.
    cbn in Hlen. lia. }
  assert (Hidle : rebalance_best_worst l = Ok (sort_by Slice.lt l)).
  { apply (rebalance_best_worst_idle l w b Hw Hb).
    destruct (stuck_slices a _ Hsorted w) as (Hwa & _);
      [by eapply list_elem_of_lookup_2 |].
    destruct (stuck_slices a _ Hsorted b) as (Hba & _);
      [rewrite last_lookup in Hb; by eapply list_elem_of_lookup_2 |].
    rewrite ge_one_and_a_half_exact
      by (unfold in_exact_range; rewrite Hwa; lia).
    f_equal. apply Z.leb_gt. lia. }
  destruct (rebalance_res_inf_Ok (sort_by Slice.lt l))
    as (final & Hfinal & _); [apply Hsorted | apply Hsorted | |].
  { apply Forall_forall. intros s Hs.
    destruct (stuck_slices a _ Hsorted s Hs) as (_ & Hi & Hr & Hra).
    unfold has_ratio. lia. }
  assert (Hrun : rebalance_slices l = Ok final)
    by (unfold rebalance_slices; by rewrite Hidle).
  exists final. split; [done |].
  destruct (rebalance_slices_keeps l final Hrun)
    as (Hlen & Hall & Hsizes & Hcur).
  destruct Hstuck as (Hl & H5 & Hc & Hheavy). unfold stuck.
  rewrite Hlen, Hall. split; [done |]. split; [| by auto].
  apply sizes_five. rewrite Hsizes. by apply sizes_five.
Qed.

Lemma stuck_balance (a : Z) (fuel : nat) (l : list Slice.t) :
  0 < a < 2 ^ 49 -> stuck a l -> balance fuel l = Diverge.
Proof.
  intros Ha. revert l. induction fuel as [| fuel IH]; intros l Hstuck;
    [done |].
  cbn [balance]. rewrite (stuck_check a l Ha Hstuck).
  cbn [mbind outcome_bind].
  destruct (stuck_pass a l Ha Hstuck) as (l' & -> & Hstuck').
  cbn [mbind outcome_bind]. by apply IH.
Qed.

Lemma exclude_tile_never_raises (fuel : nat) (l : list Tile.t) (e : exn) :
  l <> [] -> exclude_tile fuel l <> Raise e.
Proof.
  revert l. induction fuel as [| fuel IH]; intros l Hne; [done |].
  destruct l as [| x rest]; [done |].
  cbn [exclude_tile pop0 mbind outcome_bind].
  destruct (String.eqb (Tile.color x) "red"); [| done].
  apply IH. by destruct rest.
Qed.

(** X17: the pipeline never returns on a catalog of at least 12 red and
    19 blue tiles that all have the same positive absolute value, below
    [2^49], some influence and at least twice as much resources, which
    their value includes.  Every slice is then skewed whatever tiles it
    holds, the passes raise no exception, and the loop of
    [prepare_slices] has no other way out. *)
Theorem prepare_slices_never_returns (a : Z) (catalog : list Tile.t)
  (fuel : nat) (g : Random) :
  0 < a < 2 ^ 49 ->
  Forall (heavy_tile a) catalog ->
  (12 <= length (List.filter (Tile.has_color "red") catalog))%nat ->
  (19 <= length (List.filter (Tile.has_color "blue") catalog))%nat ->
  prepare_slices fuel catalog g = Diverge.
Proof.
  intros Ha Hheavy Hred Hblue. unfold prepare_slices.
  destruct (draw_all_tiles fuel catalog 6 g) as [[pool g1] | e |] eqn:Hdraw;
    cbn [mbind outcome_bind]; [| exfalso | done].
  - destruct (draw_all_tiles_Ok _ _ _ _ _ Hdraw) as (x & Hx & Hxc).
    rewrite Hx in Hheavy, Hred, Hblue. cbn [List.filter] in Hred, Hblue.
    rewrite Hxc in Hred. apply Forall_cons in Hheavy as [_ Hpool].
    assert (Hblue' : (18 <= length (List.filter (Tile.has_color "blue") pool))%nat)
      by (destruct (Tile.has_color "blue" x); cbn [length] in Hblue; lia).
    destruct (generate_slices_cases pool g1)
      as [[Hshort _] | (_ & _ & sl & g' & -> & Hsix & Hshape & Hcur & Hsub)];
      [lia |].
    cbn [mbind outcome_bind]. rewrite (stuck_balance a); [done | done |].
    unfold stuck. rewrite Hsix. split; [lia |]. split; [| split; [done |]].
    + eapply Forall_impl; [exact Hshape |]. by intros s (_ & _ & H5).
    + apply Forall_forall. intros y Hy. rewrite Forall_forall in Hpool.
      apply Hpool. by eapply elem_of_submseteq.
  - unfold draw_all_tiles in Hdraw.
    change (negb (6 =? 6)) with false in Hdraw. cbv iota in Hdraw.
    pose proof (shuffle_Permutation catalog g) as Hsh.
    destruct (shuffle catalog g) as [shuffled g1]. cbn [fst] in Hsh.
    apply bind_Raise in Hdraw as [Hraise | (pool & _ & Hraise)]; [| done].
    apply (exclude_tile_never_raises fuel shuffled e); [| done].
    intros ->. apply Permutation_nil_l in Hsh. subst catalog.
    cbn in Hred. lia.
Qed.

Lemma prepare_slices_never_returns_witness :
  prepare_slices 1000 sample_heavy_catalog sample_random = Diverge.
Proof.
  apply (prepare_slices_never_returns 4).
  - lia.
  - unfold sample_heavy_catalog. apply Forall_app.
    split; apply Forall_fmap, Forall_forall; intros k _;
      repeat split; cbn; lia.
  - vm_compute. lia.
  - vm_compute. lia.
Defined.
